(** * Financial analysis pipeline: a shallow embedding

    The development follows [financial_analyzer/src]:
    - [models.py]       : the pydantic records and the price validator;
    - [data_fetcher.py] : [fetch_stock_data], prices and fundamentals;
    - [processor.py]    : [process_data];
    - [signals.py]      : [detect_golden_crossover], [detect_death_cross];
    - [database.py]     : the three save functions;
    - [main.py]         : the date filter and the run;
    - [config.py]       : [load_config].

    Numbers.  A [decimal.Decimal] is an exact rational (or an infinity or
    NaN).  A pandas [float64] cell is a binary64 number: every arithmetic
    operation, and the conversion of a Decimal by [astype(float)], rounds
    its exact result to the nearest binary64 number, ties to even, with
    overflow to an infinity and gradual underflow; [str] prints the
    shortest decimal that reads back as the same number.  The sign of a
    zero is not tracked.  Dates are proleptic ordinals
    ([date.toordinal()]).

    Libraries.  The frame operations follow pandas 2 (where
    [fillna(method=...)] is still accepted): a rolling window turns
    infinities into NaN, skips NaN, and computes its mean by adding the
    entering value to, and removing the leaving value from, a running sum
    with Kahan compensation.  The record constructors follow pydantic 2: a
    [str] field refuses [None] and a [Decimal] field refuses NaN and the
    infinities. *)

From Stdlib Require Import ZArith QArith Qreduction Qround Qabs Qpower.
From Stdlib Require Import String List Bool Lia Lqa Sorted Permutation.
Import ListNotations.

Local Open Scope Z_scope.

(** ** Numbers *)

Definition date := Z.

(** A [float64] cell. *)
Inductive float : Type :=
| Fin (q : Q)
| Inf (neg : bool)
| NaN.

(** A [decimal.Decimal] object. *)
Inductive Decimal : Type :=
| DFin (q : Q)
| DInf (neg : bool)
| DNaN.

Definition Qneg (q : Q) : bool := Qnum q <? 0.
Definition Qzero (q : Q) : bool := Qnum q =? 0.

(** *** Rounding to binary64 *)

(** The [e] with [2^e <= a < 2^(e+1)], for [a > 0]. *)
Definition Qlog2 (a : Q) : Z :=
  let e := Z.log2 (Qnum a) - Z.log2 (Zpos (Qden a)) in
  if Qle_bool (2 ^ e) a then e else e - 1.

Definition round_half_even (x : Q) : Z :=
  let f := Qfloor x in
  match (x - inject_Z f ?= 1 # 2)%Q with
  | Lt => f
  | Gt => f + 1
  | Eq => if Z.even f then f else f + 1
  end.

(** The exponent of the unit in the last place of [a > 0]: 53 significant
    bits, and the subnormal numbers below [2^-1022]. *)
Definition ulp_exponent (a : Q) : Z := Z.max (Qlog2 a) (-1022) - 52.

(** [a > 0] rounded to the nearest multiple of its unit in the last place,
    ties to even. *)
Definition round_mag (a : Q) : Q :=
  let k := ulp_exponent a in
  (inject_Z (round_half_even (a / 2 ^ k)) * 2 ^ k)%Q.

(** The binary64 number nearest to [q]; an infinity from [2^1024] on. *)
Definition round64 (q : Q) : float :=
  if Qzero q then Fin 0
  else
    let r := round_mag (Qabs q) in
    if Qle_bool (2 ^ 1024) r then Inf (Qneg q)
    else Fin (Qred (if Qneg q then - r else r)).

(** *** Arithmetic *)

Definition fneg (x : float) : float :=
  match x with
  | Fin q => Fin (Qred (- q))
  | Inf s => Inf (negb s)
  | NaN => NaN
  end.

Definition fadd (x y : float) : float :=
  match x, y with
  | NaN, _ | _, NaN => NaN
  | Fin a, Fin b => round64 (a + b)
  | Inf s, Fin _ | Fin _, Inf s => Inf s
  | Inf s, Inf t => if Bool.eqb s t then Inf s else NaN
  end.

Definition fsub (x y : float) : float :=
  match x, y with
  | NaN, _ | _, NaN => NaN
  | Fin a, Fin b => round64 (a - b)
  | Inf s, Fin _ => Inf s
  | Fin _, Inf s => Inf (negb s)
  | Inf s, Inf t => if Bool.eqb s t then NaN else Inf s
  end.

Definition fmul (x y : float) : float :=
  match x, y with
  | NaN, _ | _, NaN => NaN
  | Fin a, Fin b => round64 (a * b)
  | Inf s, Fin b | Fin b, Inf s => if Qzero b then NaN else Inf (xorb s (Qneg b))
  | Inf s, Inf t => Inf (xorb s t)
  end.

(** Array division: a zero divisor gives an infinity or NaN, never an
    exception. *)
Definition fdiv (x y : float) : float :=
  match x, y with
  | NaN, _ | _, NaN => NaN
  | Fin a, Fin b =>
      if Qzero b then (if Qzero a then NaN else Inf (Qneg a))
      else round64 (a / b)
  | Inf s, Fin b => Inf (xorb s (Qneg b))
  | Fin _, Inf _ => Fin 0
  | Inf _, Inf _ => NaN
  end.

(** Ordered comparisons: false as soon as one side is NaN. *)
Definition fle (x y : float) : bool :=
  match x, y with
  | NaN, _ | _, NaN => false
  | Fin a, Fin b => Qle_bool a b
  | Inf true, _ => true
  | _, Inf false => true
  | Inf false, _ => false
  | _, Inf true => false
  end.

Definition flt (x y : float) : bool :=
  match x, y with
  | NaN, _ | _, NaN => false
  | _, _ => negb (fle y x)
  end.

Definition fge (x y : float) : bool := fle y x.
Definition fgt (x y : float) : bool := flt y x.

Definition feq (x y : float) : bool :=
  match x, y with
  | Fin a, Fin b => Qeq_bool a b
  | Inf s, Inf t => Bool.eqb s t
  | _, _ => false
  end.

Definition signbit (x : float) : bool :=
  match x with
  | Fin q => Qneg q
  | Inf s => s
  | NaN => false
  end.

(** [pd.isnull] / [Series.notna] on a numeric cell. *)
Definition isnull (x : float) : bool :=
  match x with NaN => true | _ => false end.
Definition notna (x : float) : bool := negb (isnull x).

(** *** Conversions *)

(** [float(d)] for a finite Decimal [d], as [astype(float)] applies it. *)
Definition float_of_Q (q : Q) : float := round64 q.

(** The [p] with [10^p <= a < 10^(p+1)], for [a > 0] in the binary64 range. *)
Definition Qlog10 (a : Q) : Z :=
  let p := (Qlog2 a * 1233) / 4096 in
  if Qle_bool (10 ^ (p + 1)) a then p + 1
  else if Qle_bool (10 ^ p) a then p else p - 1.

(** [float(c) == x] *)
Definition round_trips (c x : Q) : bool :=
  match round64 c with
  | Fin y => Qeq_bool y x
  | _ => false
  end.

(** The decimal of [n] significant digits that reads back as [x], if there
    is one: the nearer of the two that enclose [x], the one with an even last
    digit when they are equally near. *)
Definition shortest_digits (x : Q) (n : Z) : option Q :=
  let u := (10 ^ (Qlog10 (Qabs x) - n + 1))%Q in
  let f := Qfloor (x / u) in
  let lo := Qred (inject_Z f * u) in
  let hi := Qred (inject_Z (f + 1) * u) in
  match round_trips lo x, round_trips hi x with
  | true, true =>
      match (x - lo ?= hi - x)%Q with
      | Lt => Some lo
      | Gt => Some hi
      | Eq => Some (if Z.even f then lo else hi)
      end
  | true, false => Some lo
  | false, true => Some hi
  | false, false => None
  end.

Fixpoint shortest (fuel : nat) (n : Z) (x : Q) : Q :=
  match fuel with
  | O => x
  | S fuel' =>
      match shortest_digits x n with
      | Some c => c
      | None => shortest fuel' (n + 1) x
      end
  end.

(** The number that [str(x)] denotes: the shortest decimal that reads back
    as [x] (17 significant digits always suffice for a binary64 number). *)
Definition repr64 (x : Q) : Q :=
  if Qzero x then 0%Q else shortest 17 1 x.

(** [Decimal(str(x))] *)
Definition Decimal_of_str (x : float) : Decimal :=
  match x with
  | Fin q => DFin (repr64 q)
  | Inf s => DInf s
  | NaN => DNaN
  end.

Arguments round64 : simpl never.
Arguments repr64 : simpl never.

(** ** Exceptions *)

Inductive exn : Type :=
| ValidationError (msg : string)
| ValueError (msg : string).

Inductive result (A : Type) : Type :=
| Ok (a : A)
| Raise (e : exn).
Arguments Ok {A} a.
Arguments Raise {A} e.

Definition bind {A B : Type} (r : result A) (k : A -> result B) : result B :=
  match r with
  | Ok a => k a
  | Raise e => Raise e
  end.

Notation "x <- r ;; k" := (bind r (fun x => k))
  (at level 61, r at next level, right associativity).

(** pydantic's check of a [Decimal] field: only finite values pass. *)
Definition finite_field (d : Decimal) : result Q :=
  match d with
  | DFin q => Ok q
  | _ => Raise (ValidationError "Input should be a finite number")
  end.

(** ** models.py *)

Record PriceData : Type := mkPriceData {
  p_date : date;
  p_open : Q;
  p_high : Q;
  p_low : Q;
  p_close : Q;
  p_volume : Z
}.

Definition Qlt_bool (a b : Q) : bool := negb (Qle_bool b a).

(** [PriceData.check_price_relationships], the [mode="after"] validator:
    it sees the fields once they are finite Decimals.  The three [ValueError]s
    reach the caller wrapped in a [ValidationError]. *)
Definition check_price_relationships (p : PriceData) : result PriceData :=
  if Qlt_bool (p_high p) (p_low p) then
    Raise (ValidationError "High price must be >= Low price")
  else if Qlt_bool (p_high p) (p_open p) || Qlt_bool (p_open p) (p_low p) then
    Raise (ValidationError "Open price must be between Low and High")
  else if Qlt_bool (p_high p) (p_close p) || Qlt_bool (p_close p) (p_low p) then
    Raise (ValidationError "Close price must be between Low and High")
  else Ok p.

(** [PriceData(date=..., open=..., ...)]: field validation, then the
    model validator. *)
Definition PriceData_new (d : date) (o h l c : Decimal) (v : Z) : result PriceData :=
  o' <- finite_field o ;;
  h' <- finite_field h ;;
  l' <- finite_field l ;;
  c' <- finite_field c ;;
  check_price_relationships (mkPriceData d o' h' l' c' v).

Inductive source_tag : Type := quarterly | annual | info.

Record FundamentalData : Type := mkFundamentalData {
  f_as_of : date;
  f_ticker : string;
  f_book_value : option Q;
  f_total_assets : option Q;
  f_total_liabilities : option Q;
  f_pe_ratio : option Q;
  f_pb_ratio : option Q;
  f_eps : option Q;
  f_revenue : option Q;
  f_net_income : option Q;
  f_enterprise_value : option Q;
  f_source : source_tag
}.

Record DailyMetrics : Type := mkDailyMetrics {
  dm_date : date;
  dm_ticker : string;
  dm_close : Q;
  dm_sma_50 : option Q;
  dm_sma_200 : option Q;
  dm_high_52w : option Q;
  dm_pct_from_high_52w : option Q;
  dm_book_value_per_share : option Q;
  dm_price_to_book : option Q;
  dm_enterprise_value : option Q
}.

(** An [Optional[Decimal]] field. *)
Definition optional_field (d : option Decimal) : result (option Q) :=
  match d with
  | None => Ok None
  | Some d' => q <- finite_field d' ;; Ok (Some q)
  end.

(** [DailyMetrics(...)]: [ticker] is a plain [str] field, so [None] is
    refused; every Decimal field must be finite. *)
Definition DailyMetrics_new (d : date) (ticker : option string) (close : Decimal)
    (sma_50 sma_200 high_52w pct bvps ptb ev : option Decimal) : result DailyMetrics :=
  t <- match ticker with
       | Some s => Ok s
       | None => Raise (ValidationError "Input should be a valid string")
       end ;;
  c <- finite_field close ;;
  s50 <- optional_field sma_50 ;;
  s200 <- optional_field sma_200 ;;
  h <- optional_field high_52w ;;
  p <- optional_field pct ;;
  b <- optional_field bvps ;;
  r <- optional_field ptb ;;
  e <- optional_field ev ;;
  Ok (mkDailyMetrics d t c s50 s200 h p b r e).

(** ** data_fetcher.py: the price loop of [fetch_stock_data] *)

(** A row of [stock.history(...).reset_index()]. *)
Record history_row : Type := mkHistoryRow {
  h_Date : date;
  h_Open : float;
  h_High : float;
  h_Low : float;
  h_Close : float;
  h_Volume : Z
}.

(** What [logging.warning(f"Invalid price row for {ticker} on {row['Date']}: {e}")]
    records. *)
Record warning : Type := mkWarning {
  w_ticker : string;
  w_date : date;
  w_error : exn
}.

Definition price_of_row (row : history_row) : result PriceData :=
  PriceData_new (h_Date row)
    (Decimal_of_str (h_Open row)) (Decimal_of_str (h_High row))
    (Decimal_of_str (h_Low row)) (Decimal_of_str (h_Close row))
    (h_Volume row).

(** The state threaded through the loop: [result["prices"]] and the log. *)
Definition fetch_state : Type := (list PriceData * list warning)%type.

Definition fetch_step (ticker : string) (st : fetch_state) (row : history_row) : fetch_state :=
  match price_of_row row with
  | Ok price => (fst st ++ [price], snd st)
  | Raise e => (fst st, snd st ++ [mkWarning ticker (h_Date row) e])
  end.

Definition fetch_prices (ticker : string) (rows : list history_row) : fetch_state :=
  fold_left (fetch_step ticker) rows ([], []).

(** ** processor.py *)

(** A cell of an [object] column that may hold Python's [None]; [Some NaN]
    is the float NaN of a numeric column. *)
Definition cell := option float.

(** A row of [price_df]. *)
Record price_row : Type := mkPriceRow {
  pr_date : date;
  pr_open : float;
  pr_high : float;
  pr_low : float;
  pr_close : float;
  pr_volume : Z
}.

(** The nine numeric fundamental columns. *)
Record fund_values : Type := mkFundValues {
  v_book_value : cell;
  v_total_assets : cell;
  v_total_liabilities : cell;
  v_pe_ratio : cell;
  v_pb_ratio : cell;
  v_eps : cell;
  v_revenue : cell;
  v_net_income : cell;
  v_enterprise_value : cell
}.

(** A row of [fund_df]: its date label ([as_of], or [date] after the
    re-index), [ticker], the numeric columns and [source] (absent in the
    frame built when there are no fundamentals). *)
Record fund_row : Type := mkFundRow {
  fr_key : date;
  fr_ticker : option string;
  fr_values : fund_values;
  fr_source : option source_tag
}.

Definition all_cells (c : cell) : fund_values := mkFundValues c c c c c c c c c.

(** [p.dict()] followed by [astype(float)] on the four price columns. *)
Definition price_row_of (p : PriceData) : price_row :=
  mkPriceRow (p_date p) (float_of_Q (p_open p)) (float_of_Q (p_high p))
    (float_of_Q (p_low p)) (float_of_Q (p_close p)) (p_volume p).

(** [astype(float)] on an object column of Decimals and [None]. *)
Definition astype_float (o : option Q) : cell :=
  match o with
  | Some q => Some (float_of_Q q)
  | None => Some NaN
  end.

Definition fund_row_of (f : FundamentalData) : fund_row :=
  mkFundRow (f_as_of f) (Some (f_ticker f))
    (mkFundValues (astype_float (f_book_value f)) (astype_float (f_total_assets f))
       (astype_float (f_total_liabilities f)) (astype_float (f_pe_ratio f))
       (astype_float (f_pb_ratio f)) (astype_float (f_eps f))
       (astype_float (f_revenue f)) (astype_float (f_net_income f))
       (astype_float (f_enterprise_value f)))
    (Some (f_source f)).

(** [sort_values]: rows in ascending key order.  pandas leaves the order
    of rows with equal keys to the sorting algorithm; here they keep their
    relative order, and what is stated of a row by its position assumes
    pairwise distinct dates. *)
Section SortValues.
Context {A : Type} (key : A -> date).

Fixpoint insert_by (x : A) (l : list A) : list A :=
  match l with
  | [] => [x]
  | y :: l' => if key y <=? key x then y :: insert_by x l' else x :: l
  end.

Definition sort_values (l : list A) : list A :=
  fold_left (fun acc x => insert_by x acc) l [].
End SortValues.

(** *** The forward-filling re-index *)

Fixpoint eqb_dates (a b : list date) : bool :=
  match a, b with
  | [], [] => true
  | x :: a', y :: b' => (x =? y) && eqb_dates a' b'
  | _, _ => false
  end.

Fixpoint is_unique (l : list date) : bool :=
  match l with
  | [] => true
  | x :: l' => negb (existsb (Z.eqb x) l') && is_unique l'
  end.

(** The position filled forward: the last row of the ascending [index]
    whose label is [<= d]. *)
Fixpoint pad (index : list fund_row) (d : date) (last : option fund_row) : option fund_row :=
  match index with
  | [] => last
  | r :: index' => if fr_key r <=? d then pad index' d (Some r) else last
  end.

(** The row taken at a target label: the padded row relabelled, or an
    all-NaN row when nothing precedes the label. *)
Definition take_padded (index : list fund_row) (d : date) : fund_row :=
  match pad index d None with
  | Some r => mkFundRow d (fr_ticker r) (fr_values r) (fr_source r)
  | None => mkFundRow d None (all_cells (Some NaN)) None
  end.

(** [fund_df.set_index("as_of").reindex(price_df["date"], method="ffill")
    .reset_index()].  pandas computes no indexer when the target equals the
    index, and relabels the frame as it stands; otherwise the index must hold
    no duplicate label. *)
Definition reindex_ffill (fund_df : list fund_row) (target : list date) : result (list fund_row) :=
  if eqb_dates (map fr_key fund_df) target then Ok fund_df
  else if is_unique (map fr_key fund_df) then Ok (map (take_padded fund_df) target)
  else Raise (ValueError "cannot reindex on an axis with duplicate labels").

(** [fund_df["ticker"].fillna(method="ffill")], written back to the column. *)
Fixpoint ffill_ticker (last : option string) (l : list fund_row) : list fund_row :=
  match l with
  | [] => []
  | r :: l' =>
      let t := match fr_ticker r with Some s => Some s | None => last end in
      mkFundRow (fr_key r) t (fr_values r) (fr_source r) :: ffill_ticker t l'
  end.

(** The frame used when there are no fundamentals: every column [None],
    [as_of] copied from the price dates. *)
Definition empty_fund_df (price_df : list price_row) : list fund_row :=
  map (fun p => mkFundRow (pr_date p) None (all_cells None) None) price_df.

(** *** Rolling windows *)

Definition lastn {A : Type} (n : nat) (l : list A) : list A :=
  skipn (length l - n) l.

(** [Series.rolling(window, min_periods).agg()] for an aggregate that
    reads the window afresh: the window slides over the column, holding at
    most [window] trailing observations. *)
Section Rolling.
Variable window : nat.
Variable agg : list float -> float.

Fixpoint rolling_from (buf : list float) (xs : list float) : list float :=
  match xs with
  | [] => []
  | x :: xs' =>
      let buf' := lastn window (buf ++ [x]) in
      agg buf' :: rolling_from buf' xs'
  end.

Definition rolling (xs : list float) : list float := rolling_from [] xs.
End Rolling.

Definition float_of_nat (n : nat) : float := Fin (inject_Z (Z.of_nat n)).

Definition fmax (x y : float) : float := if fle x y then y else x.

(** The values a rolling window works on: infinities become NaN. *)
Definition inf_to_nan (x : float) : float :=
  match x with Inf _ => NaN | _ => x end.

(** The maximum skips NaN observations and needs [min_periods] of the
    others. *)
Definition window_max (min_periods : nat) (buf : list float) : float :=
  match filter notna buf with
  | [] => NaN
  | x :: obs =>
      if (length (x :: obs) <? min_periods)%nat then NaN
      else fold_left fmax obs x
  end.

(** The state of the rolling mean: the number of observations in the
    window, their compensated sum, how many are negative, the two
    compensation terms, and the run of equal values ending at the latest
    observation. *)
Record mean_state : Type := mkMeanState {
  nobs : nat;
  sum_x : float;
  neg_ct : nat;
  compensation_add : float;
  compensation_remove : float;
  num_consecutive_same_value : nat;
  prev_value : float
}.

(** A value enters the window. *)
Definition add_mean (val : float) (st : mean_state) : mean_state :=
  if isnull val then st
  else
    let y := fsub val (compensation_add st) in
    let t := fadd (sum_x st) y in
    mkMeanState (S (nobs st)) t
      (if signbit val then S (neg_ct st) else neg_ct st)
      (fsub (fsub t (sum_x st)) y) (compensation_remove st)
      (if feq val (prev_value st) then S (num_consecutive_same_value st) else 1%nat)
      val.

(** A value leaves the window. *)
Definition remove_mean (val : float) (st : mean_state) : mean_state :=
  if isnull val then st
  else
    let y := fsub (fneg val) (compensation_remove st) in
    let t := fadd (sum_x st) y in
    mkMeanState (Nat.pred (nobs st)) t
      (if signbit val then Nat.pred (neg_ct st) else neg_ct st)
      (compensation_add st) (fsub (fsub t (sum_x st)) y)
      (num_consecutive_same_value st) (prev_value st).

(** The mean read off the state. *)
Definition calc_mean (minp : nat) (st : mean_state) : float :=
  if ((minp <=? nobs st) && (0 <? nobs st))%nat then
    let result := fdiv (sum_x st) (float_of_nat (nobs st)) in
    if (nobs st <=? num_consecutive_same_value st)%nat then prev_value st
    else if (neg_ct st =? 0)%nat && flt result (Fin 0) then Fin 0
    else if (neg_ct st =? nobs st)%nat && flt (Fin 0) result then Fin 0
    else result
  else NaN.

(** [buf] is the window before [x] enters. *)
Fixpoint roll_mean_from (window minp : nat) (buf : list float) (st : mean_state)
    (xs : list float) : list float :=
  match xs with
  | [] => []
  | x :: xs' =>
      let st :=
        match buf with
        | old :: _ => if (window <=? length buf)%nat then remove_mean old st else st
        | [] => st
        end in
      let st := add_mean x st in
      calc_mean minp st :: roll_mean_from window minp (lastn window (buf ++ [x])) st xs'
  end.

(** [Series.rolling(window, min_periods).mean()] on prepared values. *)
Definition roll_mean (window minp : nat) (values : list float) : list float :=
  match values with
  | [] => []
  | x :: _ =>
      roll_mean_from window minp []
        (mkMeanState 0 (Fin 0) 0 (Fin 0) (Fin 0) 0 x) values
  end.

Record indicators : Type := mkIndicators {
  i_sma_50 : float;
  i_sma_200 : float;
  i_high_52w : float;
  i_pct_from_high_52w : float
}.

Definition pct_from_high (close high : float) : float :=
  fmul (fsub (fdiv close high) (Fin 1)) (Fin 100).

Fixpoint zip_indicators (close s50 s200 high : list float) : list indicators :=
  match close, s50, s200, high with
  | c :: close', a :: s50', b :: s200', h :: high' =>
      mkIndicators a b h (pct_from_high c h) :: zip_indicators close' s50' s200' high'
  | _, _, _, _ => []
  end.

(** The four technical columns computed from a [close] column. *)
Definition technical_indicators (close : list float) : list indicators :=
  let values := map inf_to_nan close in
  zip_indicators close
    (roll_mean 50 1 values)
    (roll_mean 200 1 values)
    (rolling 252 (window_max 1) values).

(** *** The merged frame *)

Record merged_row : Type := mkMergedRow {
  m_price : price_row;
  m_values : fund_values;
  m_source : option source_tag;
  m_ticker : option string;
  m_ind : indicators;
  m_book_value_per_share : cell;
  m_price_to_book : cell
}.

(** The length adjustment before the concatenation.  Assigning a longer
    list to a column of a shorter frame is refused by pandas. *)
Definition match_length (n : nat) (fund_df : list fund_row) : result (list fund_row) :=
  if (length fund_df <? n)%nat then
    Raise (ValueError "Length of values does not match length of index")
  else if (n <? length fund_df)%nat then Ok (firstn n fund_df)
  else Ok fund_df.

(** [pd.concat([price_df, fund_df.drop(columns=["as_of", "ticker"])], axis=1)]
    on two frames with the same range index, without the duplicated [date]
    column: the fundamental columns next to the price columns. *)
Definition concat_columns (price_df : list price_row) (fund_df : list fund_row)
  : list (price_row * (fund_values * option source_tag)) :=
  combine price_df (map (fun f => (fr_values f, fr_source f)) fund_df).

Definition is_zero (x : float) : bool :=
  match x with Fin q => Qzero q | _ => false end.

(** [(row["close"] / row["book_value"]) if row.get("book_value") not in [None, 0] else None] *)
Definition price_to_book_of (close : float) (book_value : cell) : cell :=
  match book_value with
  | None => None
  | Some b => if is_zero b then None else Some (fdiv close b)
  end.

Definition is_some {A : Type} (o : option A) : bool :=
  match o with Some _ => true | None => false end.

(** The column built from the results of [DataFrame.apply(..., axis=1)]:
    numeric as soon as one result is a number, [None] becoming NaN. *)
Definition infer_column (col : list cell) : list cell :=
  if existsb is_some col then
    map (fun c => match c with None => Some NaN | Some x => Some x end) col
  else col.

Fixpoint zip_merged (rows : list (price_row * (fund_values * option source_tag)))
    (inds : list indicators) (ptb : list cell) : list merged_row :=
  match rows, inds, ptb with
  | (p, (v, s)) :: rows', i :: inds', r :: ptb' =>
      mkMergedRow p v s None i (v_book_value v) r :: zip_merged rows' inds' ptb'
  | _, _, _ => []
  end.

(** Lines 79 to 127: the concatenation, [ticker] set to [None] (no column
    of that name survives the drop), the indicator columns,
    [book_value_per_share] and [price_to_book]. *)
Definition merge_frames (price_df : list price_row) (fund_df : list fund_row) : list merged_row :=
  let rows := concat_columns price_df fund_df in
  let rows :=
    match rows, price_df with
    | [], _ :: _ => map (fun p => (p, (all_cells None, None))) price_df
    | _, _ => rows
    end in
  let close := map (fun r => pr_close (fst r)) rows in
  let ptb := map (fun r => price_to_book_of (pr_close (fst r)) (v_book_value (fst (snd r)))) rows in
  zip_merged rows (technical_indicators close) (infer_column ptb).

(** *** Conversion to [DailyMetrics] *)

Definition opt_decimal (c : cell) : option Decimal := option_map Decimal_of_str c.

(** One turn of the main loop; [None] stands for [continue].  The [date]
    of a row is never missing. *)
Definition metrics_of_merged (r : merged_row) : option DailyMetrics :=
  if isnull (pr_close (m_price r)) then None
  else
    match DailyMetrics_new (pr_date (m_price r)) (m_ticker r)
            (Decimal_of_str (pr_close (m_price r)))
            (Some (Decimal_of_str (i_sma_50 (m_ind r))))
            (Some (Decimal_of_str (i_sma_200 (m_ind r))))
            (Some (Decimal_of_str (i_high_52w (m_ind r))))
            (Some (Decimal_of_str (i_pct_from_high_52w (m_ind r))))
            (opt_decimal (m_book_value_per_share r))
            (opt_decimal (m_price_to_book r))
            (opt_decimal (v_enterprise_value (m_values r))) with
    | Ok m => Some m
    | Raise _ => None
    end.

(** One turn of the fallback loop. *)
Definition metrics_of_fallback (r : price_row * indicators) : option DailyMetrics :=
  match DailyMetrics_new (pr_date (fst r)) (Some EmptyString)
          (Decimal_of_str (pr_close (fst r)))
          (Some (Decimal_of_str (i_sma_50 (snd r))))
          (Some (Decimal_of_str (i_sma_200 (snd r))))
          (Some (Decimal_of_str (i_high_52w (snd r))))
          (Some (Decimal_of_str (i_pct_from_high_52w (snd r))))
          None None None with
  | Ok m => Some m
  | Raise _ => None
  end.

(** [metrics.append(...)] over the rows that are not skipped. *)
Fixpoint collect {A B : Type} (f : A -> option B) (l : list A) : list B :=
  match l with
  | [] => []
  | x :: l' =>
      match f x with
      | Some y => y :: collect f l'
      | None => collect f l'
      end
  end.

(** The [fallback] frame: [price_df] with its technical columns. *)
Definition fallback_frame (price_df : list price_row) : list (price_row * indicators) :=
  combine price_df (technical_indicators (map pr_close price_df)).

Definition fallback_metrics (price_df : list price_row) : list DailyMetrics :=
  collect metrics_of_fallback (fallback_frame price_df).

Definition sorted_prices (prices : list PriceData) : list price_row :=
  sort_values pr_date (map price_row_of prices).

(** [fund_df] as built by lines 45 to 68. *)
Definition fundamentals_frame (price_df : list price_row)
    (fundamentals : list FundamentalData) : result (list fund_row) :=
  match fundamentals with
  | [] => Ok (empty_fund_df price_df)
  | _ :: _ =>
      fund_df <- reindex_ffill (sort_values fr_key (map fund_row_of fundamentals))
                   (map pr_date price_df) ;;
      Ok (ffill_ticker None fund_df)
  end.

(** [process_data(raw_data)], with [raw_data["prices"]] and
    [raw_data["fundamentals"]] as arguments; the result lists the rows of
    the returned frame. *)
Definition process_data (prices : list PriceData) (fundamentals : list FundamentalData)
  : result (list DailyMetrics) :=
  match prices with
  | [] => Ok []
  | _ :: _ =>
      let price_df := sorted_prices prices in
      fund_df <- fundamentals_frame price_df fundamentals ;;
      fund_df <- match_length (length price_df) fund_df ;;
      let merged := merge_frames price_df fund_df in
      let metrics := collect metrics_of_merged merged in
      match metrics, price_df with
      | [], _ :: _ => Ok (fallback_metrics price_df)
      | _, _ => Ok metrics
      end
  end.

(** ** signals.py *)

(** A row of the frame handed to the detectors: its [date] and the two
    moving averages, NaN standing for a missing value.  The frame carries
    the default range index, so a label is a position. *)
Record sma_row : Type := mkSmaRow {
  s_date : date;
  s_sma_50 : float;
  s_sma_200 : float
}.

Definition both_notna (r : sma_row) : bool :=
  notna (s_sma_50 r) && notna (s_sma_200 r).

(** [df.loc[mask]]: the selected rows with their labels. *)
Fixpoint loc_mask (i : nat) (df : list sma_row) : list (nat * sma_row) :=
  match df with
  | [] => []
  | r :: df' =>
      if both_notna r then (i, r) :: loc_mask (S i) df' else loc_mask (S i) df'
  end.

(** [Series.shift(1)]: NaN first, the last value lost. *)
Definition shift1 (l : list float) : list float :=
  match l with
  | [] => []
  | _ :: _ => NaN :: removelast l
  end.

Fixpoint zip_with {A B C : Type} (f : A -> B -> C) (a : list A) (b : list B) : list C :=
  match a, b with
  | x :: a', y :: b' => f x y :: zip_with f a' b'
  | _, _ => []
  end.

(** [frame.loc[cross].index.to_list()] *)
Fixpoint select_labels {A : Type} (rows : list (nat * A)) (cross : list bool) : list nat :=
  match rows, cross with
  | (i, _) :: rows', c :: cross' =>
      if c then i :: select_labels rows' cross' else select_labels rows' cross'
  | _, _ => []
  end.

Section Detect.
(** The comparison met by the previous row, and by the current one. *)
Variables before now : float -> float -> bool.

Definition crossover_labels (df : list sma_row) : list nat :=
  let valid := loc_mask 0 df in
  if (length valid <? 2)%nat then []
  else
    let sma_50 := map (fun ir => s_sma_50 (snd ir)) valid in
    let sma_200 := map (fun ir => s_sma_200 (snd ir)) valid in
    let prev := zip_with before (shift1 sma_50) (shift1 sma_200) in
    let curr := zip_with now sma_50 sma_200 in
    let cross := zip_with andb prev curr in
    select_labels valid cross.

(** [[df.loc[i, "date"] for i in crossover_dates]] *)
Definition detect (df : list sma_row) : list date :=
  collect (fun i => option_map s_date (nth_error df i)) (crossover_labels df).
End Detect.

Definition golden_labels : list sma_row -> list nat := crossover_labels fle fgt.
Definition detect_golden_crossover : list sma_row -> list date := detect fle fgt.
Definition detect_death_cross : list sma_row -> list date := detect fge flt.

(** ** Specification-side notions *)

(** The accepted price tuples of the record validator. *)
Definition prices_ordered (p : PriceData) : Prop :=
  (p_low p <= p_high p
   /\ (p_low p <= p_open p /\ p_open p <= p_high p)
   /\ (p_low p <= p_close p /\ p_close p <= p_high p))%Q.

(** The rows kept, and the warnings recorded, by the fetch loop. *)
Definition kept_price (row : history_row) : option PriceData :=
  match price_of_row row with
  | Ok p => Some p
  | Raise _ => None
  end.

Definition warned (ticker : string) (row : history_row) : option warning :=
  match price_of_row row with
  | Ok _ => None
  | Raise e => Some (mkWarning ticker (h_Date row) e)
  end.

(** The record a history row is turned into when its four prices are
    numbers: each price as [Decimal(str(.))] reads it. *)
Definition record_of_row (row : history_row) : option PriceData :=
  match h_Open row, h_High row, h_Low row, h_Close row with
  | Fin o, Fin h, Fin l, Fin c =>
      Some (mkPriceData (h_Date row) (repr64 o) (repr64 h) (repr64 l) (repr64 c)
              (h_Volume row))
  | _, _, _, _ => None
  end.





(** The date labels of the two frames met by the re-index. *)
Definition as_of_ascending (fundamentals : list FundamentalData) : list date :=
  map fr_key (sort_values fr_key (map fund_row_of fundamentals)).

Definition price_dates_ascending (prices : list PriceData) : list date :=
  map pr_date (sorted_prices prices).


Definition fundamentals_null (m : DailyMetrics) : Prop :=
  dm_book_value_per_share m = None
  /\ dm_price_to_book m = None
  /\ dm_enterprise_value m = None.

Definition is_fin (x : float) : bool :=
  match x with Fin _ => true | _ => false end.

(** A frame row whose close and four technical cells are all numbers. *)
Definition finite_row (r : price_row * indicators) : bool :=
  is_fin (pr_close (fst r)) && is_fin (i_sma_50 (snd r)) && is_fin (i_sma_200 (snd r))
  && is_fin (i_high_52w (snd r)) && is_fin (i_pct_from_high_52w (snd r)).

(** The numbers among the cells of a window. *)
Definition finite_values (xs : list float) : list Q :=
  flat_map (fun x => match x with Fin c => [c] | _ => [] end) xs.

(** The elements of a column with index in [[lo, hi]]. *)
Definition slice {A : Type} (lo hi : nat) (l : list A) : list A :=
  firstn (hi + 1 - lo) (skipn lo l).

Definition Qsum (l : list Q) : Q := fold_right Qplus 0%Q l.

(** The arithmetic mean. *)
Definition Qmean (l : list Q) : Q := (Qsum l / inject_Z (Z.of_nat (length l)))%Q.

(** The closing prices in ascending date order. *)
Definition closes_by_date (prices : list PriceData) : list Q :=
  map p_close (sort_values p_date prices).

(** *** Binary64 numbers *)

(** [x] is a binary64 number: 53 significant bits, exponent in range. *)
Definition representable (x : Q) : Prop :=
  exists m K : Z,
    -1074 <= K /\ Z.abs m < 2 ^ 53 /\ (x == inject_Z m * 2 ^ K)%Q /\ (Qabs x < 2 ^ 1024)%Q.

(** A non-negative multiple of [2^-s] with a numerator of at most
    [n * 2^43]; for [n = 1], a price on a binary grid. *)
Definition on_grid (s : Z) (n : Z) (q : Q) : Prop :=
  exists z : Z, 0 <= z <= n * 2 ^ 43 /\ (q == inject_Z z * 2 ^ (- s))%Q.

(** The cell of a price that conversion leaves as it is. *)
Definition exact_cell (q : Q) : float := Fin (Qred q).

(** What the state of the rolling mean holds while the window [bq] slides
    over grid values: the exact sum and no compensation. *)
Definition mean_invariant (s : Z) (st : mean_state) (bq : list Q) : Prop :=
  Forall (on_grid s 1) bq
  /\ nobs st = length bq
  /\ (exists sigma, sum_x st = Fin sigma /\ (sigma == Qsum bq)%Q)
  /\ neg_ct st = 0%nat
  /\ compensation_add st = Fin 0
  /\ compensation_remove st = Fin 0
  /\ exists v, prev_value st = Fin (Qred v)
       /\ Forall (fun q => (q == v)%Q) (lastn (num_consecutive_same_value st) bq).

(** Closing prices on a binary grid: sums of up to 1023 of them are
    binary64 numbers, so the rolling sums are exact. *)
Definition exact_closes (s : Z) (prices : list PriceData) : Prop :=
  0 <= s <= 1000 /\ Forall (fun p => on_grid s 1 (p_close p)) prices.


(** The latest observation with [as_of <= d], following the words of the
    specification; among observations of the same day the last listed wins. *)
Definition later_of (d : date) (best : option FundamentalData) (f : FundamentalData)
  : option FundamentalData :=
  if f_as_of f <=? d then
    match best with
    | Some b => if f_as_of b <=? f_as_of f then Some f else best
    | None => Some f
    end
  else best.

Definition latest_as_of (fundamentals : list FundamentalData) (d : date)
  : option FundamentalData :=
  fold_left (later_of d) fundamentals None.

(** *** Crossovers, by previous valid row *)

(** The last row with both averages present, scanning [l] from a state
    [prev]. *)
Definition last_valid (prev : option sma_row) (l : list sma_row) : option sma_row :=
  fold_left (fun acc r => if both_notna r then Some r else acc) l prev.

(** The previous valid row of row [i]. *)
Definition previous_valid (df : list sma_row) (i : nat) : option sma_row :=
  last_valid None (firstn i df).

(** Row [i] is valid, a valid row precedes it, and the pair crosses upwards. *)
Definition golden_cross_at (df : list sma_row) (i : nat) : Prop :=
  exists ri rj,
    nth_error df i = Some ri /\ both_notna ri = true
    /\ previous_valid df i = Some rj
    /\ fle (s_sma_50 rj) (s_sma_200 rj) = true
    /\ fgt (s_sma_50 ri) (s_sma_200 ri) = true.

Section Scan.
Variables before now : float -> float -> bool.

Definition met_before (prev : option sma_row) : bool :=
  match prev with
  | Some q => before (s_sma_50 q) (s_sma_200 q)
  | None => false
  end.

(** One pass over the frame that remembers the previous valid row. *)
Fixpoint scan (prev : option sma_row) (i : nat) (df : list sma_row) : list nat :=
  match df with
  | [] => []
  | r :: df' =>
      if both_notna r then
        (if met_before prev && now (s_sma_50 r) (s_sma_200 r) then [i] else [])
        ++ scan (Some r) (S i) df'
      else scan prev (S i) df'
  end.
End Scan.

(** *** Concrete inputs *)

Definition price (d o h l c v : Z) : PriceData :=
  mkPriceData d (inject_Z o) (inject_Z h) (inject_Z l) (inject_Z c) v.

Definition dec (z : Z) : option Q := Some (inject_Z z).

(** The scenario of [tests/test_processor.py]: 2023-01-01 is day 738521. *)
Definition scenario_prices : list PriceData :=
  [price 738521 10 12 9 11 1000;
   price 738522 11 13 10 12 1100;
   price 738523 12 14 11 13 1200].

Definition scenario_fundamental : FundamentalData :=
  mkFundamentalData 738520 "TEST" (dec 10) (dec 100) (dec 50) (dec 15)
    (Some (11 # 10)) (dec 2) (dec 1000) (dec 100) (dec 200) quarterly.

Definition scenario_fundamentals : list FundamentalData := [scenario_fundamental].

(** One valid price row with every price at zero. *)
Definition flat_prices : list PriceData := [price 738521 0 0 0 0 0].

(** A valid price row at zero followed by an ordinary one. *)
Definition zero_then_five : list PriceData :=
  [price 738521 0 0 0 0 0; price 738522 5 5 5 5 100].

(** A price row dated before the observation, then one after it. *)
Definition early_prices : list PriceData :=
  [price 738519 10 12 9 11 1000; price 738521 10 12 9 11 1000].

(** The frames of [tests/test_signals.py]. *)
Definition sma (d a b : Z) : sma_row :=
  mkSmaRow d (Fin (inject_Z a)) (Fin (inject_Z b)).

Definition rising_frame : list sma_row :=
  [sma 1 1 2; sma 2 2 2; sma 3 3 2; sma 4 5 2; sma 5 7 2].

Definition gap_frame : list sma_row :=
  [sma 1 1 2; mkSmaRow 2 NaN (Fin 2); sma 3 3 2; mkSmaRow 4 (Fin 5) NaN; sma 5 7 2].

Definition nan_frame : list sma_row :=
  [mkSmaRow 1 (Fin 1) (Fin 2); mkSmaRow 2 NaN (Fin 2); mkSmaRow 3 (Fin 3) NaN;
   mkSmaRow 4 NaN (Fin 4); mkSmaRow 5 (Fin 5) NaN].



(** Two price rows and two observations, all on the same day. *)
Definition twin_prices : list PriceData :=
  [price 738520 10 12 9 11 1000; price 738520 10 12 9 11 1000].

Definition twin_fundamentals : list FundamentalData :=
  [scenario_fundamental; scenario_fundamental].

(** *** Death crosses and counting *)

Definition death_labels : list sma_row -> list nat := crossover_labels fge flt.

(** Row [i] is valid, a valid row precedes it, and the pair crosses downwards. *)
Definition death_cross_at (df : list sma_row) (i : nat) : Prop :=
  exists ri rj,
    nth_error df i = Some ri /\ both_notna ri = true
    /\ previous_valid df i = Some rj
    /\ fge (s_sma_50 rj) (s_sma_200 rj) = true
    /\ flt (s_sma_50 ri) (s_sma_200 ri) = true.

Definition count_valid (df : list sma_row) : nat := length (filter both_notna df).

(** The frame [pd.DataFrame([m.dict() for m in metrics])] as the detectors
    read it: a missing average is a null cell. *)
Definition cell_of (o : option Q) : float :=
  match o with Some q => Fin q | None => NaN end.

Definition metrics_frame (rows : list DailyMetrics) : list sma_row :=
  map (fun m => mkSmaRow (dm_date m) (cell_of (dm_sma_50 m)) (cell_of (dm_sma_200 m))) rows.

(** ** data_fetcher.py: the fundamentals of [fetch_stock_data] *)

(** [FundamentalData(...)]: every [Optional[Decimal]] field must be finite
    when present. *)
Definition FundamentalData_new (as_of : date) (ticker : string)
    (bv ta tl pe pb eps rev ni ev : option Decimal) (source : source_tag)
  : result FundamentalData :=
  bv' <- optional_field bv ;;
  ta' <- optional_field ta ;;
  tl' <- optional_field tl ;;
  pe' <- optional_field pe ;;
  pb' <- optional_field pb ;;
  eps' <- optional_field eps ;;
  rev' <- optional_field rev ;;
  ni' <- optional_field ni ;;
  ev' <- optional_field ev ;;
  Ok (mkFundamentalData as_of ticker bv' ta' tl' pe' pb' eps' rev' ni' ev' source).

(** A balance sheet as yfinance returns it: one column per report date.
    The flags tell which of the three rows read by the code are in the index,
    and whether the index holds any other row. *)
Record sheet_column : Type := mkSheetColumn {
  sc_date : date;
  sc_equity : float;
  sc_assets : float;
  sc_liab : float
}.

Record balance_sheet : Type := mkBalanceSheet {
  bs_has_equity : bool;
  bs_has_assets : bool;
  bs_has_liab : bool;
  bs_other_rows : bool;
  bs_columns : list sheet_column
}.

(** [qbs.empty] *)
Definition sheet_empty (bs : balance_sheet) : bool :=
  match bs_columns bs with
  | [] => true
  | _ :: _ =>
      negb (bs_has_equity bs || bs_has_assets bs || bs_has_liab bs || bs_other_rows bs)
  end.

(** [Decimal(str(qbs.at[label, col])) if label in qbs.index and pd.notna(...) else None] *)
Definition sheet_cell (present : bool) (x : float) : option Decimal :=
  if present && notna x then Some (Decimal_of_str x) else None.

Definition fundamental_of_column (ticker : string) (source : source_tag)
    (bs : balance_sheet) (col : sheet_column) : result FundamentalData :=
  FundamentalData_new (sc_date col) ticker
    (sheet_cell (bs_has_equity bs) (sc_equity col))
    (sheet_cell (bs_has_assets bs) (sc_assets col))
    (sheet_cell (bs_has_liab bs) (sc_liab col))
    None None None None None None source.

(** The loop over the columns, inside its [try]: the first exception ends
    it, and what was appended before stays. *)
Fixpoint append_columns (ticker : string) (source : source_tag) (bs : balance_sheet)
    (cols : list sheet_column) (fundamentals : list FundamentalData)
  : list FundamentalData :=
  match cols with
  | [] => fundamentals
  | col :: cols' =>
      match fundamental_of_column ticker source bs col with
      | Ok f => append_columns ticker source bs cols' (fundamentals ++ [f])
      | Raise _ => fundamentals
      end
  end.

(** One [try] block; reading the sheet may itself raise. *)
Definition from_sheet (ticker : string) (source : source_tag)
    (sheet : result balance_sheet) (fundamentals : list FundamentalData)
  : list FundamentalData :=
  match sheet with
  | Raise _ => fundamentals
  | Ok bs =>
      if sheet_empty bs then fundamentals
      else append_columns ticker source bs (bs_columns bs) fundamentals
  end.

(** The numeric entries of [stock.info] read by the code; [None] for a
    missing key or a [None] value. *)
Record info_values : Type := mkInfoValues {
  iv_bookValue : option float;
  iv_trailingPE : option float;
  iv_priceToBook : option float;
  iv_trailingEps : option float;
  iv_totalRevenue : option float;
  iv_netIncomeToCommon : option float;
  iv_enterpriseValue : option float
}.

Definition from_info (ticker : string) (today : date) (info_ : result info_values)
    (fundamentals : list FundamentalData) : list FundamentalData :=
  match info_ with
  | Raise _ => fundamentals
  | Ok i =>
      match FundamentalData_new today ticker
              (option_map Decimal_of_str (iv_bookValue i)) None None
              (option_map Decimal_of_str (iv_trailingPE i))
              (option_map Decimal_of_str (iv_priceToBook i))
              (option_map Decimal_of_str (iv_trailingEps i))
              (option_map Decimal_of_str (iv_totalRevenue i))
              (option_map Decimal_of_str (iv_netIncomeToCommon i))
              (option_map Decimal_of_str (iv_enterpriseValue i)) info with
      | Ok f => fundamentals ++ [f]
      | Raise _ => fundamentals
      end
  end.

(** The three-tier strategy: quarterly sheet, else annual sheet, else the
    info snapshot dated [today] ([datetime.now().date()]). *)
Definition fetch_fundamentals (ticker : string) (qbs abs_ : result balance_sheet)
    (info_ : result info_values) (today : date) : list FundamentalData :=
  let fundamentals := from_sheet ticker quarterly qbs [] in
  let fundamentals :=
    match fundamentals with
    | [] => from_sheet ticker annual abs_ fundamentals
    | _ :: _ => fundamentals
    end in
  match fundamentals with
  | [] => from_info ticker today info_ fundamentals
  | _ :: _ => fundamentals
  end.

(** [fetch_stock_data(ticker)], given what the yfinance calls deliver:
    the pair of [result["prices"]] and [result["fundamentals"]]. *)
Definition fetch_stock_data (ticker : string) (history : result (list history_row))
    (qbs abs_ : result balance_sheet) (info_ : result info_values) (today : date)
  : list PriceData * list FundamentalData :=
  match history with
  | Raise _ => ([], [])
  | Ok [] => ([], [])
  | Ok ((_ :: _) as rows) =>
      (fst (fetch_prices ticker rows), fetch_fundamentals ticker qbs abs_ info_ today)
  end.

(** ** database.py *)

(** A row of [signal_events]. *)
Record signal_record : Type := mkSignalRecord {
  sr_ticker : string;
  sr_date : date;
  sr_signal_type : string;
  sr_meta : option string
}.

(** The three tables; a row of [daily_metrics] is stored as a
    [DailyMetrics] whose ticker is the one given to the call, and a row of
    [tickers] is a symbol with its optional name. *)
Record database : Type := mkDatabase {
  db_tickers : list (string * option string);
  db_daily_metrics : list DailyMetrics;
  db_signal_events : list signal_record
}.

(** [session.merge(obj); session.commit()] inside
    [try ... except IntegrityError: session.rollback()], for an object
    without primary key: the row is inserted, unless the unique constraint
    on [key] refuses it, in which case the table stays as it was. *)
Section Merge.
Context {R K : Type} (key : R -> K) (eqb : K -> K -> bool).

Definition merge_commit (table : list R) (r : R) : list R :=
  if existsb (fun x => eqb (key x) (key r)) table then table else table ++ [r].

Definition merge_all (table : list R) (rs : list R) : list R :=
  fold_left merge_commit rs table.
End Merge.

Definition metric_key (m : DailyMetrics) : string * date := (dm_ticker m, dm_date m).
Definition metric_key_eqb (a b : string * date) : bool :=
  String.eqb (fst a) (fst b) && (snd a =? snd b).

Definition signal_key (r : signal_record) : string * date * string :=
  (sr_ticker r, sr_date r, sr_signal_type r).
Definition signal_key_eqb (a b : string * date * string) : bool :=
  String.eqb (fst (fst a)) (fst (fst b)) && (snd (fst a) =? snd (fst b))
  && String.eqb (snd a) (snd b).

Definition save_ticker (db : database) (ticker : string) (name : option string) : database :=
  mkDatabase (merge_commit fst String.eqb (db_tickers db) (ticker, name))
    (db_daily_metrics db) (db_signal_events db).

(** [DailyMetric(ticker=ticker, date=row["date"], close=row["close"], ...)] *)
Definition metric_row (ticker : string) (m : DailyMetrics) : DailyMetrics :=
  mkDailyMetrics (dm_date m) ticker (dm_close m) (dm_sma_50 m) (dm_sma_200 m)
    (dm_high_52w m) (dm_pct_from_high_52w m) (dm_book_value_per_share m)
    (dm_price_to_book m) (dm_enterprise_value m).

Definition save_daily_metrics (db : database) (ticker : string) (df : list DailyMetrics)
  : database :=
  mkDatabase (db_tickers db)
    (merge_all metric_key metric_key_eqb (db_daily_metrics db) (map (metric_row ticker) df))
    (db_signal_events db).

Definition save_signal_events (db : database) (ticker signal_type : string)
    (dates : list date) (meta : option string) : database :=
  mkDatabase (db_tickers db) (db_daily_metrics db)
    (merge_all signal_key signal_key_eqb (db_signal_events db)
       (map (fun d => mkSignalRecord ticker d signal_type meta) dates)).

(** ** main.py *)

Inductive signal_kind : Type := golden_cross | death_cross.

Record SignalEvent : Type := mkSignalEvent {
  se_date : date;
  se_ticker : string;
  se_signal_type : signal_kind;
  se_meta : option string
}.

(** [SignalEvent(date=..., ticker=..., signal_type=..., meta=...)]; [meta]
    is declared [Optional[dict]] without a default, so it must be passed:
    the outer [None] stands for a call without [meta]. *)
Definition SignalEvent_new (d : date) (ticker : string) (kind : signal_kind)
    (meta : option (option string)) : result SignalEvent :=
  match meta with
  | Some m => Ok (mkSignalEvent d ticker kind m)
  | None => Raise (ValidationError "Field required")
  end.

Record ExportData : Type := mkExportData {
  ex_ticker : string;
  ex_price_data : list PriceData;
  ex_fundamentals : list FundamentalData;
  ex_daily_metrics : list DailyMetrics;
  ex_signals : list SignalEvent
}.

(** A list comprehension whose element expression may raise. *)
Fixpoint comprehension {A B : Type} (f : A -> result B) (l : list A) : result (list B) :=
  match l with
  | [] => Ok []
  | x :: l' => y <- f x ;; ys <- comprehension f l' ;; Ok (y :: ys)
  end.

(** [(not start_dt or d >= start_dt) and (not end_dt or d <= end_dt)] *)
Definition in_range (start end_ : option date) (d : date) : bool :=
  match start with None => true | Some s => s <=? d end
  && match end_ with None => true | Some e => d <=? e end.

(** The optional date-range filter of the two fetched lists; [start] and
    [end_] are the parsed options, [None] when not given. *)
Definition filter_range (start end_ : option date)
    (raw_data : list PriceData * list FundamentalData)
  : list PriceData * list FundamentalData :=
  if is_some start || is_some end_ then
    (filter (fun p => in_range start end_ (p_date p)) (fst raw_data),
     match snd raw_data with
     | [] => []
     | _ :: _ => filter (fun f => in_range start end_ (f_as_of f)) (snd raw_data)
     end)
  else raw_data.

(** [str.lower()] on ASCII letters. *)
Definition lower_ascii (c : Ascii.ascii) : Ascii.ascii :=
  let n := Ascii.nat_of_ascii c in
  if ((65 <=? n) && (n <=? 90))%nat then Ascii.ascii_of_nat (n + 32) else c.

Fixpoint lower (s : string) : string :=
  match s with
  | EmptyString => EmptyString
  | String c s' => String (lower_ascii c) (lower s')
  end.

Inductive export_format : Type := Json | Csv.

(** How a run ends: [typer.Exit(code)], an exception nobody catches, or the
    output file written from the export data. *)
Inductive outcome : Type :=
| Exit (code : Z)
| Uncaught (e : exn)
| Written (fmt : export_format) (export : ExportData).

(** [main], given the fetched [raw_data] and the database as found after
    [init_db]; returns the database as left by the run and how it ended. *)
Definition main (ticker : string) (start end_ : option date) (format : string)
    (raw_data : list PriceData * list FundamentalData) (db : database)
  : database * outcome :=
  match fst raw_data with
  | [] => (db, Exit 1)
  | _ :: _ =>
      let raw_data := filter_range start end_ raw_data in
      let db := save_ticker db ticker None in
      match process_data (fst raw_data) (snd raw_data) with
      | Raise e => (db, Uncaught e)
      | Ok [] => (db, Exit 1)
      | Ok ((_ :: _) as metrics_df) =>
          let db := save_daily_metrics db ticker metrics_df in
          let golden_cross_dates := detect_golden_crossover (metrics_frame metrics_df) in
          let death_cross_dates := detect_death_cross (metrics_frame metrics_df) in
          let db := save_signal_events db ticker "golden_cross" golden_cross_dates None in
          let db := save_signal_events db ticker "death_cross" death_cross_dates None in
          match
            (g <- comprehension (fun d => SignalEvent_new d ticker golden_cross None)
                   golden_cross_dates ;;
             d <- comprehension (fun d => SignalEvent_new d ticker death_cross None)
                   death_cross_dates ;;
             Ok (mkExportData ticker (fst raw_data) (snd raw_data) metrics_df (g ++ d)))
          with
          | Raise e => (db, Uncaught e)
          | Ok export =>
              if String.eqb (lower format) "json" then (db, Written Json export)
              else if String.eqb (lower format) "csv" then (db, Written Csv export)
              else (db, Exit 1)
          end
      end
  end.

(** The database after the four saves of a run that produced [metrics_df]. *)
Definition saved (db : database) (ticker : string) (metrics_df : list DailyMetrics)
  : database :=
  save_signal_events
    (save_signal_events
       (save_daily_metrics (save_ticker db ticker None) ticker metrics_df)
       ticker "golden_cross" (detect_golden_crossover (metrics_frame metrics_df)) None)
    ticker "death_cross" (detect_death_cross (metrics_frame metrics_df)) None.

(** The frame handed to [process_data] by [main]. *)
Definition processed (start end_ : option date)
    (raw_data : list PriceData * list FundamentalData) : result (list DailyMetrics) :=
  process_data (fst (filter_range start end_ raw_data))
    (snd (filter_range start end_ raw_data)).

(** A balance sheet with one report, and one day of history. *)
Definition sample_sheet : balance_sheet :=
  mkBalanceSheet true true false true
    [mkSheetColumn 738520 (Fin 10) NaN (Fin 5)].

Definition sample_history : list history_row :=
  [mkHistoryRow 738521 (Fin 10) (Fin 12) (Fin 9) (Fin 11) 1000].

(** ** config.py *)

(** A value read by [yaml.safe_load]: null, a number or boolean, a string
    or a mapping with string keys (sequences are left out).  A mapping is a
    Python dict: its keys are pairwise distinct and keep insertion order. *)
#[local] Unset Elimination Schemes.
Inductive yaml : Type :=
| YNull
| YNum (n : Z)
| YStr (s : string)
| YDict (d : list (string * yaml)).
#[local] Set Elimination Schemes.

Definition dict := list (string * yaml).

Fixpoint dict_get (k : string) (d : dict) : option yaml :=
  match d with
  | [] => None
  | (k', v) :: d' => if String.eqb k' k then Some v else dict_get k d'
  end.

(** [d[k] = v]: in place when the key exists, appended otherwise. *)
Fixpoint dict_set (k : string) (v : yaml) (d : dict) : dict :=
  match d with
  | [] => [(k, v)]
  | (k', v') :: d' =>
      if String.eqb k' k then (k', v) :: d' else (k', v') :: dict_set k v d'
  end.

(** The object stored under an existing key changes; nothing is added. *)
Definition dict_mutate (k : string) (v : yaml) (d : dict) : dict :=
  map (fun kv => if String.eqb (fst kv) k then (fst kv, v) else kv) d.

Inductive config_error : Type :=
| AttributeError
| TypeError
| UpdateValueError.

Inductive loaded (A : Type) : Type :=
| Loaded (a : A)
| Failed (e : config_error).
Arguments Loaded {A} a.
Arguments Failed {A} e.

(** [d.update(v)]: a mapping is merged in; the empty string has nothing
    to iterate over; another string yields one-character elements, refused;
    null and numbers are not iterable. *)
Definition dict_update (d : dict) (v : yaml) : loaded dict :=
  match v with
  | YDict items => Loaded (fold_left (fun acc kv => dict_set (fst kv) (snd kv) acc) items d)
  | YStr EmptyString => Loaded d
  | YStr (String _ _) => Failed UpdateValueError
  | YNull | YNum _ => Failed TypeError
  end.

(** The loop of [load_config] over [config.items()].  [merged] is the
    shallow copy of the module-level [DEFAULT_CONFIG]: the nested dicts are
    shared, so [merged[k].update(v)] changes the default too, while
    [merged[k] = v] changes the copy only.  Returns what the call returns and
    the defaults as it leaves them. *)
Fixpoint merge_items (items merged defaults : dict) : loaded dict * dict :=
  match items with
  | [] => (Loaded merged, defaults)
  | (k, v) :: items' =>
      match dict_get k merged with
      | Some (YDict d) =>
          match dict_update d v with
          | Loaded d' =>
              merge_items items' (dict_mutate k (YDict d') merged)
                (dict_mutate k (YDict d') defaults)
          | Failed e => (Failed e, defaults)
          end
      | _ => merge_items items' (dict_set k v merged) defaults
      end
  end.

(** [load_config(config_path)]: [file] is the parsed content of the file,
    [None] when it does not exist; [defaults] is [DEFAULT_CONFIG] as found. *)
Definition load_config (file : option yaml) (defaults : dict) : loaded dict * dict :=
  match file with
  | None => (Loaded defaults, defaults)
  | Some (YDict items) => merge_items items defaults defaults
  | Some _ => (Failed AttributeError, defaults)
  end.

Definition DEFAULT_CONFIG : dict :=
  [("database"%string, YDict [("path"%string, YStr "financial_data.db")]);
   ("logging"%string, YDict [("level"%string, YStr "INFO")]);
   ("data_settings"%string,
    YDict [("historical_period"%string, YStr "5y");
           ("min_trading_days_for_sma"%string, YNum 200)])].

(** A configuration file that moves the database and adds a section. *)
Definition sample_config : dict :=
  [("database"%string, YDict [("path"%string, YStr "other.db")]);
   ("export"%string, YStr "csv")].

(** A configuration file that gives a section as a number. *)
Definition bad_config : dict := [("logging"%string, YNum 3)].

Definition is_inf (x : float) : bool :=
  match x with Inf _ => true | _ => false end.

(** The value a sheet cell contributes: present and a number. *)
Definition cell_value (present : bool) (x : float) : option Q :=
  match x with
  | Fin q => if present then Some (repr64 q) else None
  | _ => None
  end.

(** The observation read from one column of a sheet. *)
Definition observation_of_column (ticker : string) (source : source_tag)
    (bs : balance_sheet) (col : sheet_column) : FundamentalData :=
  mkFundamentalData (sc_date col) ticker
    (cell_value (bs_has_equity bs) (sc_equity col))
    (cell_value (bs_has_assets bs) (sc_assets col))
    (cell_value (bs_has_liab bs) (sc_liab col))
    None None None None None None source.

Definition no_infinity (col : sheet_column) : Prop :=
  is_inf (sc_equity col) = false /\ is_inf (sc_assets col) = false
  /\ is_inf (sc_liab col) = false.

Definition sheet_only (f : FundamentalData) : Prop :=
  f_pe_ratio f = None /\ f_pb_ratio f = None /\ f_eps f = None
  /\ f_revenue f = None /\ f_net_income f = None /\ f_enterprise_value f = None.

(** ** Binary64 arithmetic *)

Lemma pow2_pos (k : Z) : (0 < 2 ^ k)%Q.
Proof. apply Qpower_0_lt. reflexivity. Qed.

Lemma pow2_plus (a b : Z) : (2 ^ (a + b) == 2 ^ a * 2 ^ b)%Q.
Proof. apply Qpower_plus. discriminate. Qed.

Lemma pow2_minus (a b : Z) : (2 ^ (a - b) == 2 ^ a / 2 ^ b)%Q.
Proof. apply Qpower_minus. discriminate. Qed.

Lemma pow2_le (a b : Z) : a <= b -> (2 ^ a <= 2 ^ b)%Q.
Proof. intros H. apply Qpower_le_compat_l; [exact H|discriminate]. Qed.

Lemma pow2_succ (a : Z) : (2 ^ (a + 1) == 2 * 2 ^ a)%Q.
Proof. rewrite pow2_plus. change (2 ^ 1)%Q with 2%Q. ring. Qed.

Lemma pow2_inject (n : Z) : 0 <= n -> (inject_Z (2 ^ n) == 2 ^ n)%Q.
Proof. intros H. now rewrite Zpower_Qpower. Qed.

Lemma Qlog2_spec (a : Q) :
  (0 < a)%Q -> (2 ^ Qlog2 a <= a /\ a < 2 ^ (Qlog2 a + 1))%Q.
Proof.
  intros Ha. unfold Qlog2.
  destruct a as [n d]. cbn [Qnum Qden].
  assert (Hn : 0 < n) by (unfold Qlt in Ha; cbn in Ha; lia).
  set (x := Z.log2 n). set (y := Z.log2 (Z.pos d)).
  destruct (Z.log2_spec n Hn) as [Hx1 Hx2]. fold x in Hx1, Hx2.
  destruct (Z.log2_spec (Z.pos d) eq_refl) as [Hy1 Hy2]. fold y in Hy1, Hy2.
  assert (Hx0 : 0 <= x) by apply Z.log2_nonneg.
  assert (Hy0 : 0 <= y) by apply Z.log2_nonneg.
  assert (Ea : (n # d == inject_Z n / inject_Z (Z.pos d))%Q) by apply Qmake_Qdiv.
  assert (Hd : (0 < inject_Z (Z.pos d))%Q) by reflexivity.
  assert (Qx1 : (2 ^ x <= inject_Z n)%Q).
  { rewrite <- pow2_inject by assumption. now rewrite <- Zle_Qle. }
  assert (Qx2 : (inject_Z n < 2 ^ (x + 1))%Q).
  { rewrite <- pow2_inject by lia. now rewrite <- Zlt_Qlt. }
  assert (Qy1 : (2 ^ y <= inject_Z (Z.pos d))%Q).
  { rewrite <- pow2_inject by assumption. now rewrite <- Zle_Qle. }
  assert (Qy2 : (inject_Z (Z.pos d) < 2 ^ (y + 1))%Q).
  { rewrite <- pow2_inject by lia. now rewrite <- Zlt_Qlt. }
  assert (Hup : (n # d < 2 ^ (x - y + 1))%Q).
  { rewrite Ea. apply Qlt_shift_div_r; [exact Hd|].
    replace (x - y + 1) with ((x + 1) - y) by lia. rewrite pow2_minus.
    pose proof (pow2_pos y) as Py. pose proof (pow2_pos (x + 1)) as Px.
    apply (Qlt_le_trans _ _ _ Qx2).
    apply (Qmult_le_r _ _ (2 ^ y)); [exact Py|].
    setoid_replace (2 ^ (x + 1) / 2 ^ y * inject_Z (Z.pos d) * 2 ^ y)%Q
      with (2 ^ (x + 1) * inject_Z (Z.pos d))%Q by (field; lra).
    apply Qmult_le_l; [exact Px|exact Qy1]. }
  assert (Hlow : (2 ^ (x - y - 1) <= n # d)%Q).
  { rewrite Ea. apply Qle_shift_div_l; [exact Hd|].
    replace (x - y - 1) with (x - (y + 1)) by lia. rewrite pow2_minus.
    pose proof (pow2_pos (y + 1)) as Py. pose proof (pow2_pos x) as Px.
    apply (Qle_trans _ (2 ^ x)); [|exact Qx1].
    apply (Qmult_le_r _ _ (2 ^ (y + 1))); [exact Py|].
    setoid_replace (2 ^ x / 2 ^ (y + 1) * inject_Z (Z.pos d) * 2 ^ (y + 1))%Q
      with (2 ^ x * inject_Z (Z.pos d))%Q by (field; lra).
    apply Qmult_le_l; [exact Px|]. now apply Qlt_le_weak. }
  destruct (Qle_bool (2 ^ (x - y)) (n # d)) eqn:E.
  - apply Qle_bool_iff in E. split; [exact E|exact Hup].
  - split; [exact Hlow|].
    replace (x - y - 1 + 1) with (x - y) by lia.
    apply Qnot_le_lt. intro H. apply Qle_bool_iff in H. congruence.
Qed.

Lemma round_half_even_comp (x y : Q) : (x == y)%Q -> round_half_even x = round_half_even y.
Proof.
  intros H. unfold round_half_even. rewrite (Qfloor_comp _ _ H).
  assert (E : (x - inject_Z (Qfloor y) == y - inject_Z (Qfloor y))%Q) by (rewrite H; reflexivity).
  now rewrite (Qcompare_comp _ _ E _ _ (Qeq_refl _)).
Qed.

Lemma round_half_even_Z (z : Z) : round_half_even (inject_Z z) = z.
Proof.
  unfold round_half_even. rewrite Qfloor_Z.
  assert (E : (inject_Z z - inject_Z z ?= 1 # 2)%Q = Lt).
  { apply Qlt_alt. setoid_replace (inject_Z z - inject_Z z)%Q with 0%Q by ring. reflexivity. }
  now rewrite E.
Qed.

Lemma round_half_even_floor (x : Q) :
  Qfloor x <= round_half_even x <= Qfloor x + 1.
Proof.
  unfold round_half_even.
  destruct (x - inject_Z (Qfloor x) ?= 1 # 2)%Q; [destruct (Z.even _)| |]; lia.
Qed.

Lemma round_half_even_mono (x y : Q) :
  (x <= y)%Q -> round_half_even x <= round_half_even y.
Proof.
  intros H. pose proof (Qfloor_resp_le _ _ H) as Hf.
  destruct (Z.eq_dec (Qfloor x) (Qfloor y)) as [E|E].
  - unfold round_half_even. rewrite <- E.
    destruct (Qcompare_spec (x - inject_Z (Qfloor x)) (1 # 2)) as [H1|H1|H1];
      destruct (Qcompare_spec (y - inject_Z (Qfloor x)) (1 # 2)) as [H2|H2|H2];
      try destruct (Z.even (Qfloor x)); try lia; exfalso; lra.
  - pose proof (round_half_even_floor x). pose proof (round_half_even_floor y). lia.
Qed.

Lemma round_half_even_ge (x : Q) (z : Z) :
  (inject_Z z <= x)%Q -> z <= round_half_even x.
Proof. intros H. rewrite <- (round_half_even_Z z). now apply round_half_even_mono. Qed.

Lemma round_half_even_le (x : Q) (z : Z) :
  (x <= inject_Z z)%Q -> round_half_even x <= z.
Proof. intros H. rewrite <- (round_half_even_Z z). now apply round_half_even_mono. Qed.

(** ** binary64 rounding *)

Lemma Qzero_iff (q : Q) : Qzero q = true <-> (q == 0)%Q.
Proof.
  unfold Qzero, Qeq. cbn. rewrite Z.eqb_eq. lia.
Qed.

Lemma Qneg_iff (q : Q) : Qneg q = true <-> (q < 0)%Q.
Proof.
  unfold Qneg, Qlt. cbn. rewrite Z.ltb_lt. lia.
Qed.

Lemma Qlog2_mono (a b : Q) : (0 < a)%Q -> (a <= b)%Q -> Qlog2 a <= Qlog2 b.
Proof.
  intros Ha Hab.
  destruct (Qlog2_spec a Ha) as [La _].
  destruct (Qlog2_spec b (Qlt_le_trans _ _ _ Ha Hab)) as [_ Ub].
  assert (H : (2 ^ Qlog2 a < 2 ^ (Qlog2 b + 1))%Q) by lra.
  apply Qpower_lt_compat_l_inv in H; [lia|reflexivity].
Qed.

Lemma ulp_exponent_mono (a b : Q) :
  (0 < a)%Q -> (a <= b)%Q -> ulp_exponent a <= ulp_exponent b.
Proof.
  intros Ha Hab. unfold ulp_exponent. pose proof (Qlog2_mono a b Ha Hab). lia.
Qed.

Lemma ulp_exponent_min (a : Q) : -1074 <= ulp_exponent a.
Proof. unfold ulp_exponent. lia. Qed.

(** The significand of [a] fits in 53 bits. *)
Lemma significand_lt (a : Q) :
  (0 < a)%Q -> (a / 2 ^ ulp_exponent a < 2 ^ 53)%Q.
Proof.
  intros Ha. destruct (Qlog2_spec a Ha) as [_ U].
  apply Qlt_shift_div_r; [apply pow2_pos|].
  rewrite <- pow2_plus. eapply Qlt_le_trans; [exact U|].
  apply pow2_le. unfold ulp_exponent. lia.
Qed.

Lemma significand_ge (a : Q) :
  (0 < a)%Q -> -1022 <= Qlog2 a -> (2 ^ 52 <= a / 2 ^ ulp_exponent a)%Q.
Proof.
  intros Ha He. destruct (Qlog2_spec a Ha) as [L _].
  apply Qle_shift_div_l; [apply pow2_pos|].
  rewrite <- pow2_plus. eapply Qle_trans; [|exact L].
  apply pow2_le. unfold ulp_exponent. lia.
Qed.

Lemma significand_nonneg (a : Q) : (0 < a)%Q -> (0 <= a / 2 ^ ulp_exponent a)%Q.
Proof.
  intros Ha. apply Qle_shift_div_l; [apply pow2_pos|]. lra.
Qed.

Lemma round_mag_nonneg (a : Q) : (0 < a)%Q -> (0 <= round_mag a)%Q.
Proof.
  intros Ha. unfold round_mag.
  apply Qmult_le_0_compat; [|apply Qlt_le_weak, pow2_pos].
  change 0%Q with (inject_Z 0). rewrite <- Zle_Qle.
  apply round_half_even_ge. exact (significand_nonneg a Ha).
Qed.

Lemma round_mag_le (a : Q) :
  (0 < a)%Q -> (round_mag a <= 2 ^ (ulp_exponent a + 53))%Q.
Proof.
  intros Ha. unfold round_mag. rewrite pow2_plus, (Qmult_comm (2 ^ _) (2 ^ 53)).
  apply Qmult_le_r; [apply pow2_pos|].
  rewrite <- (pow2_inject 53) by lia. rewrite <- Zle_Qle.
  apply round_half_even_le. rewrite pow2_inject by lia.
  apply Qlt_le_weak, significand_lt, Ha.
Qed.

Lemma round_mag_ge (a : Q) :
  (0 < a)%Q -> -1022 <= Qlog2 a -> (2 ^ (ulp_exponent a + 52) <= round_mag a)%Q.
Proof.
  intros Ha He. unfold round_mag. rewrite pow2_plus, (Qmult_comm (2 ^ _) (2 ^ 52)).
  apply Qmult_le_r; [apply pow2_pos|].
  rewrite <- (pow2_inject 52) by lia. rewrite <- Zle_Qle.
  apply round_half_even_ge. rewrite pow2_inject by lia.
  now apply significand_ge.
Qed.

Lemma round_mag_mono (a b : Q) :
  (0 < a)%Q -> (a <= b)%Q -> (round_mag a <= round_mag b)%Q.
Proof.
  intros Ha Hab.
  assert (Hb : (0 < b)%Q) by lra.
  pose proof (ulp_exponent_mono a b Ha Hab) as Hk.
  destruct (Z.eq_dec (ulp_exponent a) (ulp_exponent b)) as [E|E].
  - unfold round_mag. rewrite <- E.
    apply Qmult_le_r; [apply pow2_pos|]. rewrite <- Zle_Qle.
    apply round_half_even_mono.
    apply Qle_shift_div_l; [apply pow2_pos|].
    setoid_replace (a / 2 ^ ulp_exponent a * 2 ^ ulp_exponent a)%Q with a; [exact Hab|].
    field. pose proof (pow2_pos (ulp_exponent a)). lra.
  - assert (Hlt : ulp_exponent a < ulp_exponent b) by lia.
    assert (Heb : -1022 <= Qlog2 b) by (unfold ulp_exponent in *; lia).
    eapply Qle_trans; [apply round_mag_le, Ha|].
    eapply Qle_trans; [|apply round_mag_ge; assumption].
    apply pow2_le. lia.
Qed.

Lemma Qlog2_unique (a : Q) (e : Z) :
  (2 ^ e <= a)%Q -> (a < 2 ^ (e + 1))%Q -> Qlog2 a = e.
Proof.
  intros L U.
  assert (Ha : (0 < a)%Q) by (pose proof (pow2_pos e); lra).
  destruct (Qlog2_spec a Ha) as [L' U'].
  assert (H1 : (2 ^ e < 2 ^ (Qlog2 a + 1))%Q) by lra.
  assert (H2 : (2 ^ Qlog2 a < 2 ^ (e + 1))%Q) by lra.
  apply Qpower_lt_compat_l_inv in H1; [|reflexivity].
  apply Qpower_lt_compat_l_inv in H2; [|reflexivity]. lia.
Qed.

Lemma Qlog2_comp (a b : Q) : (0 < a)%Q -> (a == b)%Q -> Qlog2 a = Qlog2 b.
Proof.
  intros Ha E. symmetry. destruct (Qlog2_spec a Ha) as [L U].
  apply Qlog2_unique; rewrite <- E; assumption.
Qed.

Lemma round_mag_comp (a b : Q) : (0 < a)%Q -> (a == b)%Q -> (round_mag a == round_mag b)%Q.
Proof.
  intros Ha E. unfold round_mag, ulp_exponent.
  rewrite (Qlog2_comp a b Ha E).
  set (k := Z.max (Qlog2 b) (-1022) - 52).
  assert (E' : (a / 2 ^ k == b / 2 ^ k)%Q) by (rewrite E; reflexivity).
  rewrite (round_half_even_comp _ _ E'). reflexivity.
Qed.

Lemma pow2_split (K k : Z) : k <= K -> (2 ^ K == inject_Z (2 ^ (K - k)) * 2 ^ k)%Q.
Proof.
  intros H. rewrite pow2_inject by lia. rewrite <- pow2_plus.
  replace (K - k + k) with K by lia. reflexivity.
Qed.

Lemma round_mag_exact (a : Q) (m K : Z) :
  0 < m < 2 ^ 53 -> -1074 <= K -> (a == inject_Z m * 2 ^ K)%Q -> (round_mag a == a)%Q.
Proof.
  intros Hm HK Ea.
  assert (Ha : (0 < a)%Q).
  { rewrite Ea. apply Qmult_lt_0_compat; [|apply pow2_pos].
    change 0%Q with (inject_Z 0). rewrite <- Zlt_Qlt. lia. }
  destruct (Qlog2_spec a Ha) as [L _].
  assert (Hlt : (a < 2 ^ (53 + K))%Q).
  { rewrite Ea, pow2_plus. apply Qmult_lt_r; [apply pow2_pos|].
    rewrite <- (pow2_inject 53) by lia. rewrite <- Zlt_Qlt. lia. }
  assert (He : Qlog2 a < 53 + K).
  { assert (H : (2 ^ Qlog2 a < 2 ^ (53 + K))%Q) by lra.
    apply Qpower_lt_compat_l_inv in H; [lia|reflexivity]. }
  assert (Hk : ulp_exponent a <= K) by (unfold ulp_exponent; lia).
  unfold round_mag. set (k := ulp_exponent a) in *.
  assert (E : (a / 2 ^ k == inject_Z (m * 2 ^ (K - k)))%Q).
  { rewrite Ea, (pow2_split K k Hk), inject_Z_mult. field.
    pose proof (pow2_pos k). lra. }
  rewrite (round_half_even_comp _ _ E), round_half_even_Z.
  rewrite Ea, (pow2_split K k Hk), inject_Z_mult. ring.
Qed.

Lemma Qred_idem (x : Q) : Qred (Qred x) = Qred x.
Proof. apply Qred_complete, Qred_correct. Qed.

Lemma round64_zero (q : Q) : (q == 0)%Q -> round64 q = Fin 0.
Proof.
  intros H. unfold round64. apply Qzero_iff in H. now rewrite H.
Qed.

Lemma Qred_zero (q : Q) : (q == 0)%Q -> Qred q = 0%Q.
Proof. intros H. now rewrite (Qred_complete _ _ H). Qed.

Lemma Qneg_false_iff (q : Q) : Qneg q = false <-> (0 <= q)%Q.
Proof.
  unfold Qneg, Qle. cbn. rewrite Z.ltb_ge. lia.
Qed.

Lemma Qzero_false_iff (q : Q) : Qzero q = false <-> ~ (q == 0)%Q.
Proof.
  rewrite <- Qzero_iff. destruct (Qzero q); split; congruence.
Qed.

Lemma Qle_bool_false_iff (a b : Q) : Qle_bool a b = false <-> (b < a)%Q.
Proof.
  split; intro H.
  - apply Qnot_le_lt. intro Hle. apply Qle_bool_iff in Hle. congruence.
  - destruct (Qle_bool a b) eqn:E; [|reflexivity].
    apply Qle_bool_iff in E. lra.
Qed.

Lemma Qabs_pos_lt (q : Q) : ~ (q == 0)%Q -> (0 < Qabs q)%Q.
Proof.
  intros H. apply Qabs_case; intros H'; lra.
Qed.

(** A binary64 number is its own rounding. *)
Lemma round64_exact (x : Q) : representable x -> round64 x = Fin (Qred x).
Proof.
  intros (m & K & HK & Hm & Ex & Hx).
  unfold round64. destruct (Qzero x) eqn:Z0.
  { apply Qzero_iff in Z0. now rewrite (Qred_zero _ Z0). }
  apply Qzero_false_iff in Z0.
  assert (Hm0 : m <> 0).
  { intros ->. apply Z0. rewrite Ex. ring. }
  assert (Ea : (Qabs x == inject_Z (Z.abs m) * 2 ^ K)%Q).
  { rewrite Ex, Qabs_Qmult. rewrite (Qabs_pos (2 ^ K)) by apply Qlt_le_weak, pow2_pos.
    apply Qmult_comp; [|reflexivity].
    unfold inject_Z. now rewrite <- Zabs_Qabs. }
  assert (Er : (round_mag (Qabs x) == Qabs x)%Q).
  { apply (round_mag_exact _ (Z.abs m) K); [lia|exact HK|exact Ea]. }
  assert (Hov : Qle_bool (2 ^ 1024) (round_mag (Qabs x)) = false).
  { apply Qle_bool_false_iff. now rewrite Er. }
  rewrite Hov. f_equal. apply Qred_complete.
  destruct (Qneg x) eqn:N.
  - apply Qneg_iff in N. rewrite Er, Qabs_neg by lra. ring.
  - apply Qneg_false_iff in N. rewrite Er. now apply Qabs_pos.
Qed.

Lemma representable_zero : representable 0.
Proof.
  exists 0, 0. split; [lia|]. split; [reflexivity|]. split; reflexivity.
Qed.

Lemma representable_comp (x y : Q) : (x == y)%Q -> representable x -> representable y.
Proof.
  intros E (m & K & HK & Hm & Ex & Hx). exists m, K.
  split; [exact HK|]. split; [exact Hm|]. split; [now rewrite <- E|now rewrite <- E].
Qed.

Lemma representable_opp (x : Q) : representable x -> representable (- x).
Proof.
  intros (m & K & HK & Hm & Ex & Hx). exists (- m), K.
  split; [exact HK|]. split; [lia|]. split.
  - rewrite Ex, inject_Z_opp. ring.
  - now rewrite Qabs_opp.
Qed.

(** What the magnitude rounds to is a binary64 number, short of overflow. *)
Lemma round_mag_representable (a : Q) :
  (0 < a)%Q -> (round_mag a < 2 ^ 1024)%Q -> representable (round_mag a).
Proof.
  intros Ha Hov.
  pose proof (round_mag_nonneg a Ha) as H0.
  unfold round_mag in *. set (k := ulp_exponent a) in *.
  set (M := round_half_even (a / 2 ^ k)) in *.
  assert (HM0 : 0 <= M).
  { apply round_half_even_ge. exact (significand_nonneg a Ha). }
  assert (HM1 : M <= 2 ^ 53).
  { apply round_half_even_le. rewrite pow2_inject by lia.
    apply Qlt_le_weak, significand_lt, Ha. }
  pose proof (ulp_exponent_min a) as Hk. fold k in Hk.
  destruct (Z.eq_dec M (2 ^ 53)) as [E|E].
  - exists (2 ^ 52), (k + 1). split; [lia|]. split; [reflexivity|]. split.
    + rewrite E, pow2_succ. change (inject_Z (2 ^ 53)) with (2 * inject_Z (2 ^ 52))%Q. ring.
    + now rewrite Qabs_pos.
  - exists M, k. split; [lia|]. split; [lia|]. split; [reflexivity|].
    now rewrite Qabs_pos.
Qed.

Lemma round64_representable (q r : Q) :
  round64 q = Fin r -> representable r /\ r = Qred r.
Proof.
  unfold round64. destruct (Qzero q) eqn:Z0.
  { intros [= <-]. split; [apply representable_zero|reflexivity]. }
  apply Qzero_false_iff in Z0.
  destruct (Qle_bool _ _) eqn:Hov; [discriminate|].
  apply Qle_bool_false_iff in Hov.
  pose proof (round_mag_representable _ (Qabs_pos_lt q Z0) Hov) as Hr.
  intros [= <-]. split; [|now rewrite Qred_idem].
  destruct (Qneg q).
  - apply (representable_comp (- round_mag (Qabs q))); [now rewrite Qred_correct|].
    now apply representable_opp.
  - apply (representable_comp (round_mag (Qabs q))); [now rewrite Qred_correct|exact Hr].
Qed.

Lemma round64_fixed (q r : Q) : round64 q = Fin r -> round64 r = Fin r.
Proof.
  intros H. destruct (round64_representable q r H) as [Hr E].
  rewrite (round64_exact r Hr). now rewrite <- E.
Qed.

Lemma round64_not_nan (q : Q) : round64 q <> NaN.
Proof.
  unfold round64. destruct (Qzero q); [discriminate|].
  destruct (Qle_bool _ _); discriminate.
Qed.

Lemma round64_mono (q q' : Q) : (q <= q')%Q -> fle (round64 q) (round64 q') = true.
Proof.
  intros H. unfold round64.
  destruct (Qzero q) eqn:Z0; destruct (Qzero q') eqn:Z0'.
  - reflexivity.
  - apply Qzero_iff in Z0. apply Qzero_false_iff in Z0'.
    assert (N : Qneg q' = false) by (apply Qneg_false_iff; lra).
    rewrite N. destruct (Qle_bool _ _); [reflexivity|].
    cbn [fle]. apply Qle_bool_iff. rewrite Qred_correct.
    apply round_mag_nonneg, Qabs_pos_lt, Z0'.
  - apply Qzero_iff in Z0'. apply Qzero_false_iff in Z0.
    assert (N : Qneg q = true) by (apply Qneg_iff; lra).
    rewrite N. destruct (Qle_bool _ _); [reflexivity|].
    cbn [fle]. apply Qle_bool_iff. rewrite Qred_correct.
    pose proof (round_mag_nonneg _ (Qabs_pos_lt q Z0)). lra.
  - apply Qzero_false_iff in Z0, Z0'.
    pose proof (round_mag_nonneg _ (Qabs_pos_lt q Z0)) as R0.
    pose proof (round_mag_nonneg _ (Qabs_pos_lt q' Z0')) as R0'.
    destruct (Qneg q) eqn:N; destruct (Qneg q') eqn:N'.
    + apply Qneg_iff in N, N'.
      assert (Hm : (round_mag (Qabs q') <= round_mag (Qabs q))%Q).
      { apply round_mag_mono; [apply Qabs_pos_lt, Z0'|].
        rewrite !Qabs_neg by lra. lra. }
      destruct (Qle_bool (2 ^ 1024) (round_mag (Qabs q))) eqn:O;
        destruct (Qle_bool (2 ^ 1024) (round_mag (Qabs q'))) eqn:O'; try reflexivity.
      * apply Qle_bool_iff in O'. apply Qle_bool_false_iff in O. lra.
      * cbn [fle]. apply Qle_bool_iff. rewrite !Qred_correct. lra.
    + destruct (Qle_bool (2 ^ 1024) (round_mag (Qabs q))) eqn:O;
        destruct (Qle_bool (2 ^ 1024) (round_mag (Qabs q'))) eqn:O'; try reflexivity.
      cbn [fle]. apply Qle_bool_iff. rewrite !Qred_correct. lra.
    + apply Qneg_iff in N'. apply Qneg_false_iff in N. lra.
    + apply Qneg_false_iff in N, N'.
      assert (Hm : (round_mag (Qabs q) <= round_mag (Qabs q'))%Q).
      { apply round_mag_mono; [apply Qabs_pos_lt, Z0|].
        rewrite !Qabs_pos by assumption. exact H. }
      destruct (Qle_bool (2 ^ 1024) (round_mag (Qabs q))) eqn:O;
        destruct (Qle_bool (2 ^ 1024) (round_mag (Qabs q'))) eqn:O'; try reflexivity.
      * apply Qle_bool_iff in O. apply Qle_bool_false_iff in O'. lra.
      * cbn [fle]. apply Qle_bool_iff. rewrite !Qred_correct. exact Hm.
Qed.

Lemma Qneg_comp (q q' : Q) : (q == q')%Q -> Qneg q = Qneg q'.
Proof.
  intros E. destruct (Qneg q) eqn:N; symmetry.
  - apply Qneg_iff. apply Qneg_iff in N. now rewrite <- E.
  - apply Qneg_false_iff. apply Qneg_false_iff in N. now rewrite <- E.
Qed.

Lemma Qzero_comp (q q' : Q) : (q == q')%Q -> Qzero q = Qzero q'.
Proof.
  intros E. destruct (Qzero q) eqn:Z0; symmetry.
  - apply Qzero_iff. apply Qzero_iff in Z0. now rewrite <- E.
  - apply Qzero_false_iff. apply Qzero_false_iff in Z0. now rewrite <- E.
Qed.

Lemma Qle_bool_comp (a a' b b' : Q) :
  (a == a')%Q -> (b == b')%Q -> Qle_bool a b = Qle_bool a' b'.
Proof.
  intros Ea Eb. destruct (Qle_bool a b) eqn:L; symmetry.
  - apply Qle_bool_iff. apply Qle_bool_iff in L. now rewrite <- Ea, <- Eb.
  - apply Qle_bool_false_iff. apply Qle_bool_false_iff in L. now rewrite <- Ea, <- Eb.
Qed.

(** Rounding depends on the value only, not on the fraction that denotes it. *)
Lemma round64_comp (q q' : Q) : (q == q')%Q -> round64 q = round64 q'.
Proof.
  intros E. unfold round64. rewrite (Qzero_comp _ _ E).
  destruct (Qzero q') eqn:Z0; [reflexivity|].
  apply Qzero_false_iff in Z0.
  assert (Ea : (Qabs q == Qabs q')%Q) by (now rewrite E).
  assert (Hq : ~ (q == 0)%Q) by (now rewrite E).
  pose proof (round_mag_comp _ _ (Qabs_pos_lt q Hq) Ea) as Er.
  rewrite (Qle_bool_comp _ (2 ^ 1024) _ _ (Qeq_refl _) Er), (Qneg_comp _ _ E).
  destruct (Qle_bool _ _); [reflexivity|].
  f_equal. apply Qred_complete. destruct (Qneg q'); now rewrite Er.
Qed.

Lemma round64_exact_eq (x y : Q) : representable x -> (y == x)%Q -> round64 y = Fin (Qred x).
Proof. intros Hx E. rewrite (round64_comp _ _ E). now apply round64_exact. Qed.

(** Rounding stays within binary64 bounds. *)
Lemma round64_between (lo hi q : Q) :
  representable lo -> representable hi -> (lo <= q)%Q -> (q <= hi)%Q ->
  exists r, round64 q = Fin r /\ (lo <= r)%Q /\ (r <= hi)%Q.
Proof.
  intros Hlo Hhi L U.
  pose proof (round64_mono _ _ L) as ML. pose proof (round64_mono _ _ U) as MU.
  rewrite (round64_exact _ Hlo) in ML. rewrite (round64_exact _ Hhi) in MU.
  destruct (round64 q) as [r|[|]|]; cbn in ML, MU; try discriminate.
  apply Qle_bool_iff in ML, MU. rewrite Qred_correct in ML, MU. eauto.
Qed.

Lemma representable_Z (z : Z) : Z.abs z < 2 ^ 53 -> representable (inject_Z z).
Proof.
  intros H. exists z, 0. split; [lia|]. split; [exact H|]. split.
  - change (2 ^ 0)%Q with 1%Q. ring.
  - unfold inject_Z. rewrite <- Zabs_Qabs.
    apply (Qlt_le_trans _ (inject_Z (2 ^ 53))).
    + unfold inject_Z. unfold Qlt. cbn [Qnum Qden]. lia.
    + rewrite pow2_inject by lia. apply pow2_le. lia.
Qed.

(** ** Printing and reading back *)

Lemma round_trips_spec (c x : Q) :
  x = Qred x -> round_trips c x = true -> round64 c = Fin x.
Proof.
  intros Hx. unfold round_trips. destruct (round64 c) as [y| |] eqn:E; try discriminate.
  intros H. apply Qeq_bool_iff in H.
  destruct (round64_representable _ _ E) as [_ Hy].
  f_equal. rewrite Hy, Hx. now apply Qred_complete.
Qed.

Lemma shortest_digits_spec (x : Q) (n : Z) (c : Q) :
  x = Qred x -> shortest_digits x n = Some c -> round64 c = Fin x.
Proof.
  intros Hx. unfold shortest_digits.
  set (lo := Qred _). set (hi := Qred _).
  destruct (round_trips lo x) eqn:L; destruct (round_trips hi x) eqn:H.
  - destruct (_ ?= _)%Q; [destruct (Z.even _)| |]; intros [= <-];
      now apply round_trips_spec.
  - intros [= <-]. now apply round_trips_spec.
  - intros [= <-]. now apply round_trips_spec.
  - discriminate.
Qed.

Lemma shortest_spec (fuel : nat) (n : Z) (x : Q) :
  round64 x = Fin x -> round64 (shortest fuel n x) = Fin x.
Proof.
  intros Hx. revert n. induction fuel as [|fuel IH]; intros n; cbn [shortest].
  - exact Hx.
  - destruct (shortest_digits x n) as [c|] eqn:E; [|apply IH].
    apply (shortest_digits_spec x n c); [|exact E].
    now destruct (round64_representable _ _ Hx).
Qed.

(** [float(Decimal(str(x))) == x] *)
Lemma repr64_round_trip (x : Q) : round64 x = Fin x -> round64 (repr64 x) = Fin x.
Proof.
  intros Hx. unfold repr64. destruct (Qzero x) eqn:Z0; [|now apply shortest_spec].
  apply Qzero_iff in Z0. rewrite (round64_zero x Z0) in Hx. exact Hx.
Qed.

Lemma repr64_mono (x y : Q) :
  round64 x = Fin x -> round64 y = Fin y -> (x <= y)%Q -> (repr64 x <= repr64 y)%Q.
Proof.
  intros Hx Hy Hxy.
  destruct (Qlt_le_dec (repr64 y) (repr64 x)) as [H|H]; [|exact H].
  pose proof (round64_mono _ _ (Qlt_le_weak _ _ H)) as M.
  rewrite (repr64_round_trip x Hx), (repr64_round_trip y Hy) in M.
  cbn in M. apply Qle_bool_iff in M.
  assert (E : (x == y)%Q) by lra.
  assert (E' : x = y).
  { destruct (round64_representable _ _ Hx) as [_ ->].
    destruct (round64_representable _ _ Hy) as [_ ->]. now apply Qred_complete. }
  subst y. lra.
Qed.

Lemma repr64_zero_iff (x : Q) : round64 x = Fin x -> ((repr64 x == 0)%Q <-> (x == 0)%Q).
Proof.
  intros Hx. split; intros H.
  - pose proof (repr64_round_trip x Hx) as R.
    rewrite (round64_zero _ H) in R. injection R as <-. reflexivity.
  - unfold repr64. apply Qzero_iff in H. now rewrite H.
Qed.

(** ** The record validator and the fetch loop *)

Lemma Qlt_bool_iff (a b : Q) : Qlt_bool a b = true <-> (a < b)%Q.
Proof.
  unfold Qlt_bool. rewrite negb_true_iff.
  split; intro H.
  - apply Qnot_le_lt. intro Hle. apply Qle_bool_iff in Hle. congruence.
  - destruct (Qle_bool b a) eqn:E; [|reflexivity].
    apply Qle_bool_iff in E. exfalso. exact (Qlt_not_le _ _ H E).
Qed.

Lemma Qlt_bool_false_iff (a b : Q) : Qlt_bool a b = false <-> (b <= a)%Q.
Proof.
  unfold Qlt_bool. rewrite negb_false_iff. apply Qle_bool_iff.
Qed.

Lemma check_price_relationships_ok (p : PriceData) :
  check_price_relationships p = Ok p <-> prices_ordered p.
Proof.
  unfold check_price_relationships, prices_ordered.
  destruct (Qlt_bool (p_high p) (p_low p)) eqn:E1.
  { apply Qlt_bool_iff in E1. split; [discriminate|].
    intros [H _]. exfalso. exact (Qlt_not_le _ _ E1 H). }
  apply Qlt_bool_false_iff in E1.
  destruct (Qlt_bool (p_high p) (p_open p) || Qlt_bool (p_open p) (p_low p)) eqn:E2.
  { split; [discriminate|]. intros [_ [[H1 H2] _]]. exfalso.
    apply orb_true_iff in E2. destruct E2 as [E2|E2]; apply Qlt_bool_iff in E2.
    - exact (Qlt_not_le _ _ E2 H2).
    - exact (Qlt_not_le _ _ E2 H1). }
  apply orb_false_iff in E2. destruct E2 as [E2 E2'].
  apply Qlt_bool_false_iff in E2, E2'.
  destruct (Qlt_bool (p_high p) (p_close p) || Qlt_bool (p_close p) (p_low p)) eqn:E3.
  { split; [discriminate|]. intros [_ [_ [H1 H2]]]. exfalso.
    apply orb_true_iff in E3. destruct E3 as [E3|E3]; apply Qlt_bool_iff in E3.
    - exact (Qlt_not_le _ _ E3 H2).
    - exact (Qlt_not_le _ _ E3 H1). }
  apply orb_false_iff in E3. destruct E3 as [E3 E3'].
  apply Qlt_bool_false_iff in E3, E3'.
  split; [intros _; repeat split; assumption | reflexivity].
Qed.


Lemma check_price_relationships_same (p p' : PriceData) :
  check_price_relationships p = Ok p' -> p' = p.
Proof.
  unfold check_price_relationships.
  repeat match goal with |- context [if ?b then _ else _] => destruct b end;
    congruence.
Qed.

Lemma collect_app {A B : Type} (f : A -> option B) (l1 l2 : list A) :
  collect f (l1 ++ l2) = collect f l1 ++ collect f l2.
Proof.
  induction l1 as [|x l1 IH]; simpl; [reflexivity|].
  destruct (f x); simpl; now rewrite IH.
Qed.

Lemma collect_length {A B : Type} (f : A -> option B) (l : list A) :
  (length (collect f l) <= length l)%nat.
Proof.
  induction l as [|x l IH]; simpl; [lia|]. destruct (f x); simpl; lia.
Qed.

Lemma fetch_fold (ticker : string) (rows : list history_row) (st : fetch_state) :
  fold_left (fetch_step ticker) rows st
  = (fst st ++ collect kept_price rows, snd st ++ collect (warned ticker) rows).
Proof.
  revert st. induction rows as [|row rows IH]; intros [ps ws]; simpl.
  - now rewrite !app_nil_r.
  - rewrite IH. unfold fetch_step, kept_price, warned.
    destruct (price_of_row row); simpl; now rewrite <- ?app_assoc.
Qed.




(** What the fetch loop builds from a row, and how it fails. *)
Lemma price_of_row_spec (row : history_row) :
  price_of_row row
  = match record_of_row row with
    | Some p => check_price_relationships p
    | None => Raise (ValidationError "Input should be a finite number")
    end.
Proof.
  unfold price_of_row, PriceData_new, record_of_row.
  destruct (h_Open row); cbn [Decimal_of_str finite_field bind]; try reflexivity.
  destruct (h_High row); cbn [Decimal_of_str finite_field bind]; try reflexivity.
  destruct (h_Low row); cbn [Decimal_of_str finite_field bind]; try reflexivity.
  destruct (h_Close row); cbn [Decimal_of_str finite_field bind]; reflexivity.
Qed.






(** ** Sorting *)

Section SortValuesFacts.
Context {A : Type} (key : A -> date).

Lemma insert_by_perm (x : A) (l : list A) : Permutation (insert_by key x l) (x :: l).
Proof.
  induction l as [|y l IH]; simpl; [reflexivity|].
  destruct (key y <=? key x); [|reflexivity].
  rewrite IH. apply perm_swap.
Qed.

Lemma sort_fold_perm (l acc : list A) :
  Permutation (fold_left (fun acc x => insert_by key x acc) l acc) (acc ++ l).
Proof.
  revert acc. induction l as [|x l IH]; intros acc; simpl.
  - now rewrite app_nil_r.
  - rewrite IH, insert_by_perm. apply Permutation_middle.
Qed.

Lemma sort_values_perm (l : list A) : Permutation (sort_values key l) l.
Proof. unfold sort_values. now rewrite sort_fold_perm. Qed.

Lemma sort_values_length (l : list A) : length (sort_values key l) = length l.
Proof. apply Permutation_length, sort_values_perm. Qed.

Lemma insert_by_sorted (x : A) (l : list A) :
  StronglySorted (fun a b => key a <= key b) l ->
  StronglySorted (fun a b => key a <= key b) (insert_by key x l).
Proof.
  induction 1 as [|y l Hs IH Hy]; simpl.
  - constructor; constructor.
  - destruct (key y <=? key x) eqn:E.
    + constructor; [assumption|].
      apply Z.leb_le in E.
      eapply Permutation_Forall; [symmetry; apply insert_by_perm|].
      constructor; assumption.
    + apply Z.leb_gt in E. constructor; [constructor; assumption|].
      constructor; [lia|].
      eapply Forall_impl; [|exact Hy]. simpl. intros; lia.
Qed.

Lemma sort_values_sorted (l : list A) :
  StronglySorted (fun a b => key a <= key b) (sort_values key l).
Proof.
  unfold sort_values.
  assert (H : forall acc, StronglySorted (fun a b => key a <= key b) acc ->
              StronglySorted (fun a b => key a <= key b)
                (fold_left (fun acc x => insert_by key x acc) l acc)).
  { induction l as [|x l IH]; intros acc Hacc; simpl; [assumption|].
    apply IH, insert_by_sorted, Hacc. }
  apply H. constructor.
Qed.
End SortValuesFacts.

Lemma sorted_prices_length (prices : list PriceData) :
  length (sorted_prices prices) = length prices.
Proof. unfold sorted_prices. now rewrite sort_values_length, length_map. Qed.

(** ** The fundamentals frame has one row per price row *)

Lemma eqb_dates_eq (a b : list date) : eqb_dates a b = true <-> a = b.
Proof.
  revert b. induction a as [|x a IH]; intros [|y b]; simpl;
    try (split; [discriminate|discriminate]); [tauto|].
  rewrite andb_true_iff, Z.eqb_eq, IH. split; [intros [-> ->]; reflexivity|].
  intros [= -> ->]. auto.
Qed.

Lemma ffill_ticker_length (last : option string) (l : list fund_row) :
  length (ffill_ticker last l) = length l.
Proof.
  revert last. induction l as [|r l IH]; intros last; simpl; [reflexivity|].
  now rewrite IH.
Qed.

Lemma reindex_ffill_length (fund_df : list fund_row) (target : list date) (out : list fund_row) :
  reindex_ffill fund_df target = Ok out -> length out = length target.
Proof.
  unfold reindex_ffill.
  destruct (eqb_dates (map fr_key fund_df) target) eqn:E.
  - intros [= <-]. apply eqb_dates_eq in E. now rewrite <- E, length_map.
  - destruct (is_unique (map fr_key fund_df)); [|discriminate].
    intros [= <-]. now rewrite length_map.
Qed.

Lemma fundamentals_frame_length (price_df : list price_row)
    (fundamentals : list FundamentalData) (fund_df : list fund_row) :
  fundamentals_frame price_df fundamentals = Ok fund_df ->
  length fund_df = length price_df.
Proof.
  unfold fundamentals_frame. destruct fundamentals as [|f fs].
  - intros [= <-]. unfold empty_fund_df. now rewrite length_map.
  - destruct (reindex_ffill _ _) as [out|e] eqn:E; simpl; [|discriminate].
    intros [= <-]. rewrite ffill_ticker_length.
    apply reindex_ffill_length in E. now rewrite E, length_map.
Qed.

Lemma match_length_same (n : nat) (fund_df : list fund_row) :
  length fund_df = n -> match_length n fund_df = Ok fund_df.
Proof.
  intros <-. unfold match_length. now rewrite Nat.ltb_irrefl.
Qed.

(** ** The main loop appends nothing *)

Lemma zip_merged_ticker rows inds ptb :
  Forall (fun r => m_ticker r = None) (zip_merged rows inds ptb).
Proof.
  revert inds ptb. induction rows as [|[p [v s]] rows IH]; intros inds ptb; simpl.
  - constructor.
  - destruct inds; [constructor|]. destruct ptb; [constructor|].
    constructor; [reflexivity|apply IH].
Qed.

Lemma metrics_of_merged_no_ticker (r : merged_row) :
  m_ticker r = None -> metrics_of_merged r = None.
Proof.
  intros H. unfold metrics_of_merged. rewrite H.
  destruct (isnull _); reflexivity.
Qed.

Lemma main_loop_empty (price_df : list price_row) (fund_df : list fund_row) :
  collect metrics_of_merged (merge_frames price_df fund_df) = [].
Proof.
  unfold merge_frames.
  match goal with |- collect _ (zip_merged ?a ?b ?c) = _ =>
    generalize (zip_merged_ticker a b c); generalize (zip_merged a b c) end.
  induction 1 as [|r l Hr _ IH]; simpl; [reflexivity|].
  now rewrite (metrics_of_merged_no_ticker r Hr).
Qed.

(** [process_data] is the fallback computation whenever the fundamentals
    frame can be built. *)
Lemma process_data_fallback (prices : list PriceData) (fundamentals : list FundamentalData) :
  prices <> [] ->
  process_data prices fundamentals
  = (_ <- fundamentals_frame (sorted_prices prices) fundamentals ;;
     Ok (fallback_metrics (sorted_prices prices))).
Proof.
  intros Hne. unfold process_data.
  destruct prices as [|p ps]; [congruence|].
  destruct (fundamentals_frame _ _) as [fund_df|e] eqn:E; simpl; [|reflexivity].
  rewrite (match_length_same _ _ (fundamentals_frame_length _ _ _ E)). simpl.
  rewrite main_loop_empty.
  pose proof (sorted_prices_length (p :: ps)) as Hlen.
  destruct (sorted_prices (p :: ps)); [discriminate|reflexivity].
Qed.

(** ** When the re-index is refused *)

Lemma existsb_eqb_In (x : date) (l : list date) : existsb (Z.eqb x) l = true <-> In x l.
Proof.
  rewrite existsb_exists. split.
  - intros [y [Hy E]]. apply Z.eqb_eq in E. now subst.
  - intros H. exists x. split; [assumption|apply Z.eqb_refl].
Qed.

Lemma is_unique_NoDup (l : list date) : is_unique l = true <-> NoDup l.
Proof.
  induction l as [|x l IH]; simpl.
  - split; [constructor|reflexivity].
  - rewrite andb_true_iff, negb_true_iff, IH. split.
    + intros [Hx Hl]. constructor; [|assumption].
      intro Hin. apply existsb_eqb_In in Hin. congruence.
    + intros H. inversion H as [|? ? Hx Hl]; subst. split; [|assumption].
      destruct (existsb (Z.eqb x) l) eqn:E; [|reflexivity].
      apply existsb_eqb_In in E. contradiction.
Qed.

Lemma as_of_ascending_perm (fundamentals : list FundamentalData) :
  Permutation (as_of_ascending fundamentals) (map f_as_of fundamentals).
Proof.
  unfold as_of_ascending.
  rewrite (Permutation_map fr_key (sort_values_perm fr_key (map fund_row_of fundamentals))).
  rewrite map_map. reflexivity.
Qed.

Lemma as_of_ascending_unique (fundamentals : list FundamentalData) :
  is_unique (as_of_ascending fundamentals) = true <-> NoDup (map f_as_of fundamentals).
Proof.
  rewrite is_unique_NoDup. split; intro H.
  - eapply Permutation_NoDup; [apply as_of_ascending_perm|exact H].
  - eapply Permutation_NoDup; [symmetry; apply as_of_ascending_perm|exact H].
Qed.

Lemma fundamentals_frame_ok (price_df : list price_row) (fundamentals : list FundamentalData) :
  NoDup (map f_as_of fundamentals) \/ as_of_ascending fundamentals = map pr_date price_df ->
  exists fund_df, fundamentals_frame price_df fundamentals = Ok fund_df.
Proof.
  intros H. unfold fundamentals_frame.
  destruct fundamentals as [|f fs]; [eexists; reflexivity|].
  unfold reindex_ffill. fold (as_of_ascending (f :: fs)).
  destruct (eqb_dates _ _) eqn:E; [eexists; reflexivity|].
  destruct H as [H|H].
  - apply as_of_ascending_unique in H. rewrite H. eexists; reflexivity.
  - apply eqb_dates_eq in H. congruence.
Qed.

Lemma fundamentals_frame_raise (price_df : list price_row) (fundamentals : list FundamentalData) :
  ~ NoDup (map f_as_of fundamentals) ->
  as_of_ascending fundamentals <> map pr_date price_df ->
  fundamentals_frame price_df fundamentals
  = Raise (ValueError "cannot reindex on an axis with duplicate labels").
Proof.
  intros Hdup Hne. unfold fundamentals_frame.
  destruct fundamentals as [|f fs]; [exfalso; apply Hdup; constructor|].
  unfold reindex_ffill. fold (as_of_ascending (f :: fs)).
  destruct (eqb_dates _ _) eqn:E.
  { apply eqb_dates_eq in E. contradiction. }
  destruct (is_unique _) eqn:U; [|reflexivity].
  apply as_of_ascending_unique in U. contradiction.
Qed.

(** ** Rows of the fallback *)

Lemma bind_ok {A B : Type} (r : result A) (k : A -> result B) (b : B) :
  bind r k = Ok b -> exists a, r = Ok a /\ k a = Ok b.
Proof. destruct r as [a|e]; simpl; [eauto|discriminate]. Qed.

Ltac bind_inv H :=
  let a := fresh "a" in
  let Ha := fresh "Ha" in
  apply bind_ok in H; destruct H as [a [Ha H]].

(** One turn of the fallback loop: the row is converted when its five
    numeric cells are numbers, each read back from its printed form. *)
Lemma metrics_of_fallback_spec (r : price_row * indicators) :
  metrics_of_fallback r
  = match pr_close (fst r), i_sma_50 (snd r), i_sma_200 (snd r), i_high_52w (snd r),
          i_pct_from_high_52w (snd r) with
    | Fin c, Fin a, Fin b, Fin h, Fin p =>
        Some (mkDailyMetrics (pr_date (fst r)) EmptyString (repr64 c)
                (Some (repr64 a)) (Some (repr64 b)) (Some (repr64 h)) (Some (repr64 p))
                None None None)
    | _, _, _, _, _ => None
    end.
Proof.
  unfold metrics_of_fallback, DailyMetrics_new.
  destruct (pr_close (fst r)); cbn [Decimal_of_str finite_field bind optional_field];
    try reflexivity.
  destruct (i_sma_50 (snd r)); cbn [Decimal_of_str finite_field bind optional_field];
    try reflexivity.
  destruct (i_sma_200 (snd r)); cbn [Decimal_of_str finite_field bind optional_field];
    try reflexivity.
  destruct (i_high_52w (snd r)); cbn [Decimal_of_str finite_field bind optional_field];
    try reflexivity.
  destruct (i_pct_from_high_52w (snd r));
    cbn [Decimal_of_str finite_field bind optional_field]; reflexivity.
Qed.

Lemma metrics_of_fallback_fields (r : price_row * indicators) (m : DailyMetrics) :
  metrics_of_fallback r = Some m ->
  dm_date m = pr_date (fst r)
  /\ dm_ticker m = EmptyString
  /\ fundamentals_null m
  /\ (exists c, dm_close m = repr64 c /\ pr_close (fst r) = Fin c)
  /\ (exists a, dm_sma_50 m = Some (repr64 a) /\ i_sma_50 (snd r) = Fin a)
  /\ (exists b, dm_sma_200 m = Some (repr64 b) /\ i_sma_200 (snd r) = Fin b)
  /\ (exists h, dm_high_52w m = Some (repr64 h) /\ i_high_52w (snd r) = Fin h)
  /\ (exists p, dm_pct_from_high_52w m = Some (repr64 p)
                /\ i_pct_from_high_52w (snd r) = Fin p).
Proof.
  rewrite metrics_of_fallback_spec.
  destruct (pr_close (fst r)) as [c| |]; try discriminate.
  destruct (i_sma_50 (snd r)) as [a| |]; try discriminate.
  destruct (i_sma_200 (snd r)) as [b| |]; try discriminate.
  destruct (i_high_52w (snd r)) as [h| |]; try discriminate.
  destruct (i_pct_from_high_52w (snd r)) as [q| |]; try discriminate.
  intros [= <-]. cbn. unfold fundamentals_null. cbn.
  repeat split; eauto.
Qed.

(** A frame row is converted exactly when its close and its four
    technical cells are numbers. *)
Lemma metrics_of_fallback_finite (r : price_row * indicators) :
  is_some (metrics_of_fallback r) = finite_row r.
Proof.
  rewrite metrics_of_fallback_spec. unfold finite_row.
  destruct (pr_close (fst r)); try reflexivity.
  destruct (i_sma_50 (snd r)); try reflexivity.
  destruct (i_sma_200 (snd r)); try reflexivity.
  destruct (i_high_52w (snd r)); try reflexivity.
  destruct (i_pct_from_high_52w (snd r)); reflexivity.
Qed.

(** ** Rolling windows *)

Lemma lastn_length {A : Type} (n : nat) (l : list A) :
  length (lastn n l) = Nat.min n (length l).
Proof. unfold lastn. rewrite length_skipn. lia. Qed.

Lemma lastn_app_lastn {A : Type} (n : nat) (p l : list A) :
  lastn n (lastn n p ++ l) = lastn n (p ++ l).
Proof.
  destruct (Nat.le_gt_cases (length p) n) as [H|H].
  - unfold lastn at 2. replace (length p - n)%nat with 0%nat by lia. reflexivity.
  - unfold lastn. rewrite !length_app, length_skipn.
    replace (length p - (length p - n) + length l - n)%nat with (length l) by lia.
    replace (length p + length l - n)%nat with (length l + (length p - n))%nat by lia.
    rewrite <- skipn_skipn. f_equal. rewrite skipn_app.
    replace (length p - n - length p)%nat with 0%nat by lia. reflexivity.
Qed.

Lemma rolling_from_nth (w : nat) (agg : list float -> float) (xs p : list float) (i : nat) :
  (i < length xs)%nat ->
  nth_error (rolling_from w agg (lastn w p) xs) i
  = Some (agg (lastn w (p ++ firstn (S i) xs))).
Proof.
  revert p i. induction xs as [|x xs IH]; intros p i Hi; simpl in Hi; [lia|].
  cbn [rolling_from]. rewrite lastn_app_lastn.
  destruct i as [|j]; cbn [nth_error].
  - reflexivity.
  - rewrite IH by lia. cbn [firstn]. now rewrite <- app_assoc.
Qed.

Lemma lastn_firstn_slice {A : Type} (w i : nat) (l : list A) :
  (i < length l)%nat -> (0 < w)%nat ->
  lastn w (firstn (S i) l) = slice (i - (w - 1)) i l.
Proof.
  intros Hi Hw. unfold lastn, slice. rewrite length_firstn.
  rewrite Nat.min_l by lia.
  replace (S i - w)%nat with (i - (w - 1))%nat by lia.
  rewrite firstn_skipn_comm. f_equal. f_equal. lia.
Qed.

Lemma rolling_nth (w : nat) (agg : list float -> float) (xs : list float) (i : nat) :
  (i < length xs)%nat -> (0 < w)%nat ->
  nth_error (rolling w agg xs) i = Some (agg (slice (i - (w - 1)) i xs)).
Proof.
  intros Hi Hw. unfold rolling.
  change (@nil float) with (lastn w (@nil float)).
  rewrite rolling_from_nth by assumption. rewrite app_nil_l.
  now rewrite lastn_firstn_slice.
Qed.

Lemma rolling_length (w : nat) (agg : list float -> float) (xs : list float) :
  length (rolling w agg xs) = length xs.
Proof.
  unfold rolling. generalize (@nil float).
  induction xs as [|x xs IH]; intros buf; simpl; [reflexivity|]. now rewrite IH.
Qed.

Lemma slice_length {A : Type} (lo i : nat) (l : list A) :
  (i < length l)%nat -> (lo <= i)%nat -> length (slice lo i l) = (i + 1 - lo)%nat.
Proof.
  intros Hi Hlo. unfold slice. rewrite length_firstn, length_skipn. lia.
Qed.

Lemma slice_map {A B : Type} (f : A -> B) (lo hi : nat) (l : list A) :
  slice lo hi (map f l) = map f (slice lo hi l).
Proof. unfold slice. now rewrite skipn_map, firstn_map. Qed.

(** ** The rolling mean on a binary grid *)

Lemma on_grid_nonneg (s n : Z) (q : Q) : on_grid s n q -> (0 <= q)%Q.
Proof.
  intros (z & Hz & ->). apply Qmult_le_0_compat; [|apply Qlt_le_weak, pow2_pos].
  change 0%Q with (inject_Z 0). rewrite <- Zle_Qle. lia.
Qed.

Lemma on_grid_plus (s n m : Z) (a b : Q) :
  on_grid s n a -> on_grid s m b -> on_grid s (n + m) (a + b).
Proof.
  intros (x & Hx & Ea) (y & Hy & Eb). exists (x + y). split; [lia|].
  rewrite Ea, Eb, inject_Z_plus. ring.
Qed.

Lemma on_grid_zero (s : Z) : on_grid s 0 0.
Proof. exists 0. split; [lia|]. ring. Qed.

Lemma on_grid_sum (s : Z) (l : list Q) :
  Forall (on_grid s 1) l -> on_grid s (Z.of_nat (length l)) (Qsum l).
Proof.
  induction 1 as [|q l Hq _ IH]; cbn [Qsum fold_right length].
  - apply on_grid_zero.
  - replace (Z.of_nat (S (length l))) with (1 + Z.of_nat (length l)) by lia.
    now apply on_grid_plus.
Qed.

Lemma inject_Z_lt_pow2 (z n : Z) : 0 <= n -> Z.abs z < 2 ^ n -> (Qabs (inject_Z z) < 2 ^ n)%Q.
Proof.
  intros Hn H. unfold inject_Z. rewrite <- Zabs_Qabs.
  rewrite <- pow2_inject by exact Hn. unfold inject_Z, Qlt. cbn [Qnum Qden]. lia.
Qed.

Lemma on_grid_representable (s n : Z) (q : Q) :
  0 <= s <= 1000 -> 0 <= n <= 1023 -> on_grid s n q -> representable q.
Proof.
  intros Hs Hn (z & Hz & E).
  assert (Hz53 : Z.abs z < 2 ^ 53).
  { assert (n * 2 ^ 43 <= 1023 * 2 ^ 43) by (apply Z.mul_le_mono_nonneg_r; lia).
    change (2 ^ 53) with (1024 * 2 ^ 43). lia. }
  exists z, (- s). split; [lia|]. split; [exact Hz53|]. split; [exact E|].
  rewrite E, Qabs_Qmult, (Qabs_pos (2 ^ (- s))) by apply Qlt_le_weak, pow2_pos.
  apply (Qle_lt_trans _ (Qabs (inject_Z z) * 1)).
  - apply Qmult_le_compat_nonneg.
    + split; [apply Qabs_nonneg|apply Qle_refl].
    + split; [apply Qlt_le_weak, pow2_pos|].
      change 1%Q with (2 ^ 0)%Q. apply pow2_le. lia.
  - rewrite Qmult_1_r. apply (Qlt_le_trans _ (2 ^ 53)).
    + apply inject_Z_lt_pow2; [lia|exact Hz53].
    + apply pow2_le. lia.
Qed.

Lemma round64_grid (s n : Z) (q x : Q) :
  0 <= s <= 1000 -> 0 <= n <= 1023 -> on_grid s n q -> (x == q)%Q ->
  round64 x = Fin (Qred q).
Proof.
  intros Hs Hn Hq E. apply round64_exact_eq; [|exact E].
  exact (on_grid_representable s n q Hs Hn Hq).
Qed.

Lemma lastn_S_snoc {A : Type} (n : nat) (l : list A) (x : A) :
  lastn (S n) (l ++ [x]) = lastn n l ++ [x].
Proof.
  unfold lastn. rewrite length_app. cbn [length].
  replace (length l + 1 - S n)%nat with (length l - n)%nat by lia.
  rewrite skipn_app.
  replace (length l - n - length l)%nat with 0%nat by lia. reflexivity.
Qed.

Lemma lastn_cons_In {A : Type} (n : nat) (l : list A) (a x : A) :
  In x (lastn n l) -> In x (lastn n (a :: l)).
Proof.
  unfold lastn. cbn [length]. intros H.
  destruct (Nat.le_gt_cases (S (length l)) n) as [Hle|Hgt].
  - replace (S (length l) - n)%nat with 0%nat by lia.
    replace (length l - n)%nat with 0%nat in H by lia. now right.
  - replace (S (length l) - n)%nat with (S (length l - n)) by lia. exact H.
Qed.

Lemma Qneg_Qred_grid (s n : Z) (q : Q) : on_grid s n q -> Qneg (Qred q) = false.
Proof.
  intros H. apply Qneg_false_iff. rewrite Qred_correct. exact (on_grid_nonneg _ _ _ H).
Qed.

Lemma add_mean_grid (s : Z) (st : mean_state) (bq : list Q) (x : Q) :
  0 <= s <= 1000 -> (length bq < 1023)%nat ->
  mean_invariant s st bq -> on_grid s 1 x ->
  mean_invariant s (add_mean (exact_cell x) st) (bq ++ [x]).
Proof.
  intros Hs Hlen (Hall & Hn & (sigma & Hsum & Esum) & Hneg & Hca & Hcr & v & Hprev & Hsame) Hx.
  assert (Hall' : Forall (on_grid s 1) (bq ++ [x])).
  { apply Forall_app. split; [exact Hall|]. constructor; [exact Hx|constructor]. }
  assert (Esum' : (Qsum (bq ++ [x]) == Qsum bq + x)%Q).
  { clear. induction bq as [|b bq IH]; cbn [app Qsum fold_right] in *; [ring|].
    unfold Qsum in IH. rewrite IH. ring. }
  pose proof (on_grid_sum s _ Hall') as Hg. rewrite length_app in Hg. cbn [length] in Hg.
  unfold add_mean, exact_cell. cbn [isnull]. rewrite Hca, Hsum, Hprev. cbn [fsub].
  assert (Ey : round64 (Qred x - 0) = Fin (Qred x)).
  { apply (round64_grid s 1); [exact Hs|lia|exact Hx|]. rewrite Qred_correct. ring. }
  rewrite Ey. cbn [fadd].
  assert (Et : round64 (sigma + Qred x) = Fin (Qred (Qsum (bq ++ [x])))).
  { apply (round64_grid s (Z.of_nat (length bq + 1))); [exact Hs|lia|exact Hg|].
    rewrite Esum', Esum, Qred_correct. ring. }
  rewrite Et. cbn [fsub].
  assert (Ed : round64 (Qred (Qsum (bq ++ [x])) - sigma) = Fin (Qred x)).
  { apply (round64_grid s 1); [exact Hs|lia|exact Hx|].
    rewrite Qred_correct, Esum', Esum. ring. }
  rewrite Ed.
  assert (Ec : round64 (Qred x - Qred x) = Fin 0).
  { apply round64_zero. ring. }
  cbn [fsub]. rewrite Ec. cbn [signbit]. rewrite (Qneg_Qred_grid s 1 x Hx).
  split; [exact Hall'|]. cbn.
  split; [rewrite length_app; cbn; lia|].
  split; [eexists; split; [reflexivity|apply Qred_correct]|].
  split; [exact Hneg|]. split; [reflexivity|]. split; [exact Hcr|].
  exists x. split; [reflexivity|].
  destruct (Qeq_bool (Qred x) (Qred v)) eqn:E.
  - apply Qeq_bool_iff in E. rewrite !Qred_correct in E.
    rewrite lastn_S_snoc. apply Forall_app. split.
    + eapply Forall_impl; [|exact Hsame]. cbn. intros q Hq. now rewrite Hq, E.
    + constructor; [reflexivity|constructor].
  - change 1%nat with (S 0). rewrite lastn_S_snoc.
    unfold lastn at 1. rewrite Nat.sub_0_r, skipn_all. cbn.
    constructor; [reflexivity|constructor].
Qed.

Lemma remove_mean_grid (s : Z) (st : mean_state) (b : Q) (bq : list Q) :
  0 <= s <= 1000 -> (length bq < 1023)%nat ->
  mean_invariant s st (b :: bq) ->
  mean_invariant s (remove_mean (exact_cell b) st) bq.
Proof.
  intros Hs Hlen (Hall & Hn & (sigma & Hsum & Esum) & Hneg & Hca & Hcr & v & Hprev & Hsame).
  inversion Hall as [|? ? Hb Hall']; subst.
  pose proof (on_grid_sum s _ Hall') as Hg.
  cbn [Qsum fold_right] in Esum. fold (Qsum bq) in Esum.
  pose proof (on_grid_representable s 1 b Hs ltac:(lia) Hb) as Rb.
  unfold remove_mean, exact_cell. cbn [isnull fneg]. rewrite Hcr, Hsum. cbn [fsub].
  assert (Ey : round64 (Qred (- Qred b) - 0) = Fin (Qred (- b))).
  { apply round64_exact_eq; [now apply representable_opp|].
    rewrite !Qred_correct. ring. }
  rewrite Ey. cbn [fadd].
  assert (Et : round64 (sigma + Qred (- b)) = Fin (Qred (Qsum bq))).
  { apply (round64_grid s (Z.of_nat (length bq))); [exact Hs|lia|exact Hg|].
    rewrite Esum, Qred_correct. ring. }
  rewrite Et. cbn [fsub].
  assert (Ed : round64 (Qred (Qsum bq) - sigma) = Fin (Qred (- b))).
  { apply round64_exact_eq; [now apply representable_opp|].
    rewrite Qred_correct, Esum. ring. }
  rewrite Ed.
  assert (Ec : round64 (Qred (- b) - Qred (- b)) = Fin 0).
  { apply round64_zero. ring. }
  cbn [fsub]. rewrite Ec. cbn [signbit]. rewrite (Qneg_Qred_grid s 1 b Hb).
  split; [exact Hall'|]. cbn.
  split; [cbn in Hn; lia|].
  split; [eexists; split; [reflexivity|apply Qred_correct]|].
  split; [exact Hneg|]. split; [exact Hca|]. split; [reflexivity|].
  exists v. split; [exact Hprev|].
  rewrite Forall_forall in *. intros q Hq. apply Hsame. now apply lastn_cons_In.
Qed.

Lemma Qsum_same (v : Q) (l : list Q) :
  Forall (fun q => (q == v)%Q) l -> (Qsum l == inject_Z (Z.of_nat (length l)) * v)%Q.
Proof.
  induction 1 as [|q l Hq _ IH]; cbn [Qsum fold_right length].
  - cbn. ring.
  - fold (Qsum l). rewrite IH, Hq, Nat2Z.inj_succ. unfold Z.succ.
    rewrite inject_Z_plus. ring.
Qed.

Lemma lastn_all {A : Type} (n : nat) (l : list A) : (length l <= n)%nat -> lastn n l = l.
Proof. intros H. unfold lastn. now replace (length l - n)%nat with 0%nat by lia. Qed.

Lemma Qmean_nonneg (s : Z) (l : list Q) : Forall (on_grid s 1) l -> (0 <= Qmean l)%Q.
Proof.
  intros H. unfold Qmean.
  pose proof (on_grid_nonneg _ _ _ (on_grid_sum s l H)) as Hs.
  destruct l as [|q l]; [discriminate|].
  apply Qle_shift_div_l.
  - change 0%Q with (inject_Z 0). rewrite <- Zlt_Qlt. cbn [length]. lia.
  - lra.
Qed.

Lemma calc_mean_grid (s : Z) (st : mean_state) (bq : list Q) :
  0 <= s <= 1000 -> bq <> [] ->
  mean_invariant s st bq ->
  calc_mean 1 st = round64 (Qmean bq).
Proof.
  intros Hs Hne (Hall & Hn & (sigma & Hsum & Esum) & Hneg & Hca & Hcr & v & Hprev & Hsame).
  assert (Hlen : (0 < length bq)%nat) by (destruct bq; [congruence|cbn; lia]).
  unfold calc_mean. rewrite Hn, Hsum, Hneg, Hprev.
  replace ((1 <=? length bq)%nat && (0 <? length bq)%nat) with true
    by (symmetry; apply andb_true_iff; split; [apply Nat.leb_le|apply Nat.ltb_lt]; lia).
  assert (Ediv : fdiv (Fin sigma) (float_of_nat (length bq)) = round64 (Qmean bq)).
  { unfold fdiv, float_of_nat.
    replace (Qzero (inject_Z (Z.of_nat (length bq)))) with false
      by (symmetry; unfold Qzero; cbn; lia).
    apply round64_comp. unfold Qmean. now rewrite Esum. }
  rewrite Ediv.
  destruct (length bq <=? num_consecutive_same_value st)%nat eqn:L.
  - apply Nat.leb_le in L. rewrite lastn_all in Hsame by exact L.
    assert (Em : (Qmean bq == v)%Q).
    { unfold Qmean. rewrite (Qsum_same v bq Hsame). field.
      intro H0. unfold Qeq in H0. cbn in H0. lia. }
    destruct bq as [|b bq]; [congruence|].
    inversion Hall as [|? ? Hb _]; subst. inversion Hsame as [|? ? Eb _]; subst.
    symmetry. rewrite (Qred_complete _ _ (Qeq_sym _ _ Eb)).
    apply (round64_grid s 1); [exact Hs|lia|exact Hb|]. now rewrite Em, Eb.
  - pose proof (round64_mono 0 (Qmean bq) (Qmean_nonneg s bq Hall)) as M.
    rewrite (round64_zero 0 (Qeq_refl 0)) in M.
    pose proof (round64_not_nan (Qmean bq)) as NN.
    destruct (round64 (Qmean bq)) as [r| |] eqn:R; [| |congruence].
    + cbn [flt]. rewrite M. cbn [negb andb].
      replace (0 =? length bq)%nat with false by (symmetry; apply Nat.eqb_neq; lia).
      reflexivity.
    + cbn [flt]. rewrite M. cbn [negb andb].
      replace (0 =? length bq)%nat with false by (symmetry; apply Nat.eqb_neq; lia).
      reflexivity.
Qed.

Lemma map_lastn {A B : Type} (f : A -> B) (n : nat) (l : list A) :
  map f (lastn n l) = lastn n (map f l).
Proof. unfold lastn. now rewrite length_map, skipn_map. Qed.

Lemma lastn_snoc_step (s : Z) (w : nat) (st : mean_state) (bq : list Q) (x : Q) :
  0 <= s <= 1000 -> (0 < w <= 1022)%nat -> (length bq <= w)%nat ->
  mean_invariant s st bq -> on_grid s 1 x ->
  mean_invariant s
    (add_mean (exact_cell x)
       match map exact_cell bq with
       | old :: _ => if (w <=? length (map exact_cell bq))%nat then remove_mean old st else st
       | [] => st
       end)
    (lastn w (bq ++ [x])).
Proof.
  intros Hs Hw Hlen Hinv Hx. rewrite length_map.
  destruct (w <=? length bq)%nat eqn:L.
  - apply Nat.leb_le in L. destruct bq as [|b bq]; [cbn in L; lia|]. cbn [map].
    assert (E : lastn w ((b :: bq) ++ [x]) = bq ++ [x]).
    { unfold lastn. rewrite length_app. cbn [length] in *.
      replace (S (length bq) + 1 - w)%nat with 1%nat by lia. reflexivity. }
    rewrite E. apply add_mean_grid; [exact Hs|cbn in Hlen; lia| |exact Hx].
    apply remove_mean_grid; [exact Hs|cbn in Hlen; lia|exact Hinv].
  - apply Nat.leb_gt in L.
    rewrite lastn_all by (rewrite length_app; cbn; lia).
    assert (Hst : match map exact_cell bq with
                  | [] => st
                  | _ :: _ => st
                  end = st) by (destruct (map exact_cell bq); reflexivity).
    rewrite Hst. apply add_mean_grid; [exact Hs|lia|exact Hinv|exact Hx].
Qed.

Lemma roll_mean_from_grid (s : Z) (w : nat) (xs : list Q) :
  0 <= s <= 1000 -> (0 < w <= 1022)%nat ->
  Forall (on_grid s 1) xs ->
  forall (bq : list Q) (st : mean_state) (i : nat),
    (length bq <= w)%nat -> mean_invariant s st bq -> (i < length xs)%nat ->
    nth_error (roll_mean_from w 1 (map exact_cell bq) st (map exact_cell xs)) i
    = Some (round64 (Qmean (lastn w (bq ++ firstn (S i) xs)))).
Proof.
  intros Hs Hw Hxs. induction Hxs as [|x xs Hx _ IH]; intros bq st i Hlen Hinv Hi;
    cbn [length] in Hi; [lia|].
  cbn [map roll_mean_from].
  pose proof (lastn_snoc_step s w st bq x Hs Hw Hlen Hinv Hx) as Hinv'.
  set (st' := add_mean (exact_cell x) _) in *.
  assert (Ebuf : lastn w (map exact_cell bq ++ [exact_cell x]) = map exact_cell (lastn w (bq ++ [x]))).
  { rewrite map_lastn, map_app. reflexivity. }
  rewrite Ebuf.
  destruct i as [|j]; cbn [nth_error].
  - cbn [firstn]. f_equal. apply (calc_mean_grid s); [exact Hs| |exact Hinv'].
    intro E. apply (f_equal (@length Q)) in E.
    rewrite lastn_length, length_app in E. cbn in E. lia.
  - rewrite IH; [|rewrite lastn_length; lia|exact Hinv'|lia].
    rewrite lastn_app_lastn. cbn [firstn]. now rewrite <- app_assoc.
Qed.

(** ** The technical columns *)

Lemma roll_mean_from_length (w minp : nat) (xs buf : list float) (st : mean_state) :
  length (roll_mean_from w minp buf st xs) = length xs.
Proof.
  revert buf st. induction xs as [|x xs IH]; intros buf st; cbn [roll_mean_from length];
    [reflexivity|]. now rewrite IH.
Qed.

Lemma roll_mean_length (w minp : nat) (xs : list float) :
  length (roll_mean w minp xs) = length xs.
Proof.
  unfold roll_mean. destruct xs as [|x xs]; [reflexivity|]. apply roll_mean_from_length.
Qed.

Lemma zip_indicators_nth (close s50 s200 high : list float) (i : nat) (c a b h : float) :
  nth_error close i = Some c -> nth_error s50 i = Some a ->
  nth_error s200 i = Some b -> nth_error high i = Some h ->
  nth_error (zip_indicators close s50 s200 high) i
  = Some (mkIndicators a b h (pct_from_high c h)).
Proof.
  revert close s50 s200 high.
  induction i as [|i IH]; intros [|c' close] [|a' s50] [|b' s200] [|h' high];
    cbn [nth_error zip_indicators]; try discriminate.
  - congruence.
  - apply IH.
Qed.

Lemma zip_indicators_length (close s50 s200 high : list float) :
  length s50 = length close -> length s200 = length close ->
  length high = length close ->
  length (zip_indicators close s50 s200 high) = length close.
Proof.
  revert s50 s200 high.
  induction close as [|c close IH]; intros [|a s50] [|b s200] [|h high];
    cbn [length zip_indicators]; try discriminate; try reflexivity.
  intros H1 H2 H3. f_equal. apply IH; congruence.
Qed.

Lemma technical_indicators_length (close : list float) :
  length (technical_indicators close) = length close.
Proof.
  unfold technical_indicators.
  apply zip_indicators_length;
    rewrite ?roll_mean_length, ?rolling_length, length_map; reflexivity.
Qed.

Lemma nth_error_defined {A : Type} (l : list A) (i : nat) :
  (i < length l)%nat -> exists x, nth_error l i = Some x.
Proof.
  intros H. destruct (nth_error l i) as [x|] eqn:E; [eauto|].
  apply nth_error_None in E. lia.
Qed.

(** Row [i] of the technical columns: the two rolling means at [i], the
    maximum over the 252 rows ending at [i], and the distance to it. *)
Lemma technical_indicators_row (close : list float) (i : nat) (c : float) :
  nth_error close i = Some c ->
  exists a b,
    nth_error (roll_mean 50 1 (map inf_to_nan close)) i = Some a
    /\ nth_error (roll_mean 200 1 (map inf_to_nan close)) i = Some b
    /\ nth_error (technical_indicators close) i
       = Some (mkIndicators a b
                 (window_max 1 (slice (i - 251) i (map inf_to_nan close)))
                 (pct_from_high c
                    (window_max 1 (slice (i - 251) i (map inf_to_nan close))))).
Proof.
  intros Hc.
  assert (Hi : (i < length close)%nat) by (apply nth_error_Some; congruence).
  destruct (nth_error_defined (roll_mean 50 1 (map inf_to_nan close)) i) as [a Ha].
  { now rewrite roll_mean_length, length_map. }
  destruct (nth_error_defined (roll_mean 200 1 (map inf_to_nan close)) i) as [b Hb].
  { now rewrite roll_mean_length, length_map. }
  exists a, b. split; [exact Ha|]. split; [exact Hb|].
  unfold technical_indicators. apply zip_indicators_nth; try assumption.
  rewrite rolling_nth by (rewrite ?length_map; lia). reflexivity.
Qed.

Lemma is_fin_fdiv_zero (c : float) (h : Q) :
  (h == 0)%Q -> is_fin (pct_from_high c (Fin h)) = false.
Proof.
  intros Hh. apply Qzero_iff in Hh. unfold pct_from_high.
  destruct c as [q|s|]; cbn [fdiv]; rewrite ?Hh.
  - destruct (Qzero q); reflexivity.
  - cbn. reflexivity.
  - reflexivity.
Qed.

(** ** The price frame *)

Section SortMap.
Context {A B : Type} (f : A -> B) (key : A -> date) (key' : B -> date).
Hypothesis key_f : forall x, key' (f x) = key x.

Lemma insert_by_map (x : A) (l : list A) :
  insert_by key' (f x) (map f l) = map f (insert_by key x l).
Proof.
  induction l as [|y l IH]; simpl; [reflexivity|].
  rewrite !key_f. destruct (key y <=? key x); simpl; [now rewrite IH|reflexivity].
Qed.

Lemma sort_values_map (l : list A) :
  sort_values key' (map f l) = map f (sort_values key l).
Proof.
  unfold sort_values.
  change (@nil B) with (map f []). generalize (@nil A).
  induction l as [|x l IH]; intros acc; simpl; [reflexivity|].
  rewrite insert_by_map. apply IH.
Qed.
End SortMap.

Lemma sorted_prices_map (prices : list PriceData) :
  sorted_prices prices = map price_row_of (sort_values p_date prices).
Proof. unfold sorted_prices. now apply sort_values_map. Qed.

Lemma sorted_prices_close (prices : list PriceData) :
  map pr_close (sorted_prices prices) = map float_of_Q (closes_by_date prices).
Proof.
  rewrite sorted_prices_map. unfold closes_by_date. now rewrite !map_map.
Qed.

Lemma nth_error_combine_inv {A B : Type} (a : list A) (b : list B) (i : nat)
    (r : A * B) :
  nth_error (combine a b) i = Some r ->
  nth_error a i = Some (fst r) /\ nth_error b i = Some (snd r).
Proof.
  revert a b. induction i as [|i IH]; intros [|x' a] [|y' b]; simpl; try discriminate.
  - intros [= <-]. split; reflexivity.
  - apply IH.
Qed.

Lemma fallback_frame_length (prices : list PriceData) :
  length (fallback_frame (sorted_prices prices)) = length prices.
Proof.
  unfold fallback_frame.
  rewrite length_combine, technical_indicators_length, length_map, Nat.min_id.
  apply sorted_prices_length.
Qed.

(** Row [i] of the fallback frame: the price row of rank [i] by date, next
    to row [i] of the technical columns of the converted closes. *)
Lemma fallback_frame_row (prices : list PriceData) (i : nat) (r : price_row * indicators) :
  nth_error (fallback_frame (sorted_prices prices)) i = Some r ->
  exists p,
    nth_error (sort_values p_date prices) i = Some p
    /\ fst r = price_row_of p
    /\ nth_error (technical_indicators (map float_of_Q (closes_by_date prices))) i
       = Some (snd r).
Proof.
  intros Hr. unfold fallback_frame in Hr. apply nth_error_combine_inv in Hr.
  destruct Hr as [H1 H2]. rewrite sorted_prices_close in H2.
  rewrite sorted_prices_map, nth_error_map in H1.
  destruct (nth_error (sort_values p_date prices) i) as [p|]; [|discriminate].
  exists p. split; [reflexivity|]. split; [|exact H2].
  cbn in H1. congruence.
Qed.

(** The cells of row [i] of the fallback frame. *)
Lemma fallback_frame_cells (prices : list PriceData) (i : nat) (r : price_row * indicators) :
  nth_error (fallback_frame (sorted_prices prices)) i = Some r ->
  let values := map inf_to_nan (map float_of_Q (closes_by_date prices)) in
  exists p,
    nth_error (sort_values p_date prices) i = Some p
    /\ fst r = price_row_of p
    /\ nth_error (roll_mean 50 1 values) i = Some (i_sma_50 (snd r))
    /\ nth_error (roll_mean 200 1 values) i = Some (i_sma_200 (snd r))
    /\ i_high_52w (snd r) = window_max 1 (slice (i - 251) i values)
    /\ i_pct_from_high_52w (snd r)
       = pct_from_high (float_of_Q (p_close p)) (i_high_52w (snd r)).
Proof.
  intros Hr values.
  destruct (fallback_frame_row prices i r Hr) as [p [Hp [Hfst Hind]]].
  assert (Hc : nth_error (map float_of_Q (closes_by_date prices)) i
               = Some (float_of_Q (p_close p))).
  { unfold closes_by_date. rewrite !nth_error_map, Hp. reflexivity. }
  destruct (technical_indicators_row _ i _ Hc) as [a [b [Ha [Hb Hrow]]]].
  rewrite Hrow in Hind. injection Hind as <-. cbn.
  exists p. repeat split; assumption.
Qed.

Lemma collect_length_all {A B : Type} (f : A -> option B) (l : list A) :
  length (collect f l) = length l <-> Forall (fun x => is_some (f x) = true) l.
Proof.
  induction l as [|x l IH]; simpl.
  - split; [constructor|reflexivity].
  - pose proof (collect_length f l) as Hle.
    destruct (f x) eqn:E; simpl.
    + split.
      * intros [= H]. constructor; [now rewrite E|now apply IH].
      * intros H. inversion H; subst. f_equal. now apply IH.
    + split; [lia|]. intros H. inversion H as [|? ? Hx]; subst.
      rewrite E in Hx. discriminate.
Qed.

(** No frame row is dropped exactly when every row holds numbers only. *)
Lemma fallback_metrics_length (prices : list PriceData) :
  length (fallback_metrics (sorted_prices prices)) = length prices
  <-> Forall (fun r => finite_row r = true) (fallback_frame (sorted_prices prices)).
Proof.
  unfold fallback_metrics.
  rewrite <- (fallback_frame_length prices) at 1.
  rewrite collect_length_all, !Forall_forall.
  split; intros H r Hr; specialize (H r Hr);
    now rewrite metrics_of_fallback_finite in *.
Qed.

Lemma fallback_metrics_null (price_df : list price_row) :
  Forall (fun m => dm_ticker m = EmptyString /\ fundamentals_null m)
    (fallback_metrics price_df).
Proof.
  unfold fallback_metrics. generalize (fallback_frame price_df).
  induction l as [|r l IH]; simpl; [constructor|].
  destruct (metrics_of_fallback r) as [m|] eqn:E; [|exact IH].
  constructor; [|exact IH].
  apply metrics_of_fallback_fields in E. tauto.
Qed.

(** C3. With a non-empty price list the main loop appends nothing, whatever
    frame of fundamentals it is given (its rows carry a [None] ticker);
    whenever [process_data] returns, it returns the rows of the price-only
    fallback, so the result does not depend on the fundamentals; it does
    return when the [as_of] dates are pairwise distinct, in particular when
    there are no fundamentals; and every returned row has the empty ticker
    and null [book_value_per_share], [price_to_book] and
    [enterprise_value]. *)
Theorem C3_fallback_always_taken :
  forall (prices : list PriceData) (fundamentals : list FundamentalData),
    prices <> [] ->
    (forall fund_df,
        collect metrics_of_merged (merge_frames (sorted_prices prices) fund_df) = [])
    /\ (forall df, process_data prices fundamentals = Ok df ->
          df = fallback_metrics (sorted_prices prices))
    /\ (forall fundamentals' df df',
          process_data prices fundamentals = Ok df ->
          process_data prices fundamentals' = Ok df' -> df = df')
    /\ (NoDup (map f_as_of fundamentals) ->
          process_data prices fundamentals = Ok (fallback_metrics (sorted_prices prices)))
    /\ process_data prices [] = Ok (fallback_metrics (sorted_prices prices))
    /\ Forall (fun m => dm_ticker m = EmptyString /\ fundamentals_null m)
         (fallback_metrics (sorted_prices prices)).
Proof.
  intros prices fundamentals Hne.
  assert (Hret : forall fs df, process_data prices fs = Ok df ->
                  df = fallback_metrics (sorted_prices prices)).
  { intros fs df. rewrite process_data_fallback by assumption.
    destruct (fundamentals_frame _ _); simpl; congruence. }
  split; [intros; apply main_loop_empty|].
  split; [apply Hret|].
  split; [intros fs df df' H H'; apply Hret in H, H'; congruence|].
  split; [|split].
  - intros Hnd. rewrite process_data_fallback by assumption.
    destruct (fundamentals_frame_ok (sorted_prices prices) fundamentals (or_introl Hnd))
      as [fund_df ->].
    reflexivity.
  - now rewrite process_data_fallback.
  - apply fallback_metrics_null.
Qed.

Lemma C3_fallback_always_taken_witness :
  process_data scenario_prices scenario_fundamentals
  = Ok (fallback_metrics (sorted_prices scenario_prices)).
Proof.
  refine (proj1 (proj2 (proj2 (proj2
    (C3_fallback_always_taken scenario_prices scenario_fundamentals _)))) _).
  - discriminate.
  - repeat constructor. simpl. tauto.
Defined.

(** C10 (as amended). With a non-empty price list, fundamentals holding two
    observations of the same [as_of] date make [process_data] raise, provided
    the ascending [as_of] dates are not, label for label, the ascending price
    dates (the one case in which pandas computes no indexer). *)
Theorem C10_duplicate_as_of_raises :
  forall (prices : list PriceData) (fundamentals : list FundamentalData),
    prices <> [] ->
    ~ NoDup (map f_as_of fundamentals) ->
    as_of_ascending fundamentals <> price_dates_ascending prices ->
    process_data prices fundamentals
    = Raise (ValueError "cannot reindex on an axis with duplicate labels").
Proof.
  intros prices fundamentals Hne Hdup Hdiff.
  rewrite process_data_fallback by assumption.
  now rewrite (fundamentals_frame_raise _ _ Hdup Hdiff).
Qed.

Lemma C10_duplicate_as_of_raises_witness :
  process_data scenario_prices [scenario_fundamental; scenario_fundamental]
  = Raise (ValueError "cannot reindex on an axis with duplicate labels").
Proof.
  apply C10_duplicate_as_of_raises.
  - discriminate.
  - intro H. apply is_unique_NoDup in H. vm_compute in H. discriminate H.
  - vm_compute. discriminate.
Defined.

(** C10, the claim as stated fails: two price rows and two observations
    all dated the same day are returned from, not raised on. *)
Lemma C10_counterexample :
  twin_prices <> []
  /\ ~ NoDup (map f_as_of twin_fundamentals)
  /\ exists rows, process_data twin_prices twin_fundamentals = Ok rows.
Proof.
  split; [discriminate|]. split.
  - intro H. apply is_unique_NoDup in H. vm_compute in H. discriminate H.
  - eexists. vm_compute. reflexivity.
Qed.

Lemma fallback_frame_close_present (prices : list PriceData) :
  Forall (fun r => isnull (pr_close (fst r)) = false) (fallback_frame (sorted_prices prices)).
Proof.
  apply Forall_forall. intros r Hr. apply In_nth_error in Hr. destruct Hr as [i Hi].
  destruct (fallback_frame_row prices i r Hi) as [p [_ [-> _]]].
  cbn. unfold float_of_Q. pose proof (round64_not_nan (p_close p)) as H.
  destruct (round64 (p_close p)); [reflexivity|reflexivity|congruence].
Qed.

Lemma zero_high_not_finite (prices : list PriceData) (r : price_row * indicators) (h : Q) :
  In r (fallback_frame (sorted_prices prices)) ->
  i_high_52w (snd r) = Fin h -> (h == 0)%Q -> finite_row r = false.
Proof.
  intros Hr Hh Hz. apply In_nth_error in Hr. destruct Hr as [i Hi].
  destruct (fallback_frame_cells prices i r Hi) as [p [_ [_ [_ [_ [_ Hpct]]]]]].
  unfold finite_row. rewrite Hpct, Hh, (is_fin_fdiv_zero _ h Hz).
  now rewrite !andb_false_r.
Qed.

(** C6 (as amended). Whenever [process_data] returns, it returns at most
    one row per price row.  No row of the frame lacks its close (nor its
    date); a row is dropped when [DailyMetrics] refuses it, so, the dates
    being pairwise distinct, the output has one row per price row if and
    only if the close and the four technical cells of every frame row are
    numbers, and a row whose trailing maximum close is zero is always
    dropped.  With no price row the result is empty. *)
Theorem C6_output_length :
  forall (prices : list PriceData) (fundamentals : list FundamentalData)
         (rows : list DailyMetrics),
    process_data prices fundamentals = Ok rows ->
    (length rows <= length prices)%nat
    /\ Forall (fun r => isnull (pr_close (fst r)) = false)
         (fallback_frame (sorted_prices prices))
    /\ (NoDup (map p_date prices) ->
        (length rows = length prices
         <-> Forall (fun r => finite_row r = true) (fallback_frame (sorted_prices prices)))
        /\ (forall r h, In r (fallback_frame (sorted_prices prices)) ->
              i_high_52w (snd r) = Fin h -> (h == 0)%Q ->
              (length rows < length prices)%nat))
    /\ process_data [] fundamentals = Ok [].
Proof.
  intros prices fundamentals rows H.
  assert (Hrows : rows = fallback_metrics (sorted_prices prices)).
  { destruct prices as [|p ps].
    - cbn [process_data] in H. now injection H as <-.
    - rewrite process_data_fallback in H by discriminate.
      destruct (fundamentals_frame _ _); cbn [bind] in H; [|discriminate].
      now injection H as <-. }
  subst rows.
  assert (Hle : (length (fallback_metrics (sorted_prices prices)) <= length prices)%nat).
  { unfold fallback_metrics. rewrite <- (fallback_frame_length prices).
    apply collect_length. }
  split; [exact Hle|]. split; [apply fallback_frame_close_present|].
  split; [|reflexivity]. intros _.
  split; [apply fallback_metrics_length|].
  intros r h Hr Hh Hz.
  assert (Hne : length (fallback_metrics (sorted_prices prices)) <> length prices).
  { intros E. apply fallback_metrics_length in E. rewrite Forall_forall in E.
    specialize (E r Hr). rewrite (zero_high_not_finite prices r h Hr Hh Hz) in E.
    discriminate. }
  lia.
Qed.

Lemma C6_output_length_witness :
  (length (fallback_metrics (sorted_prices scenario_prices))
   <= length scenario_prices)%nat.
Proof.
  refine (proj1 (C6_output_length scenario_prices scenario_fundamentals _ _)).
  vm_compute. reflexivity.
Defined.

(** C6, the claim as stated fails: both rows carry a date and a close, yet
    the first one is not in the output. *)
Lemma C6_counterexample :
  exists rows,
    process_data zero_then_five [] = Ok rows
    /\ (length rows < length zero_then_five)%nat.
Proof.
  eexists. split; [vm_compute; reflexivity|]. simpl. lia.
Qed.

(** C7, at the failing input: one valid price row with every price at zero
    and no fundamentals; the returned frame is empty. *)
Theorem C7_flat_prices_output :
  Forall prices_ordered flat_prices
  /\ flat_prices <> []
  /\ process_data flat_prices [] = Ok [].
Proof.
  split; [|split; [discriminate|reflexivity]].
  repeat constructor; simpl; apply Qle_refl.
Qed.

(** C2, at the scenario of the claim: three rows come back and [sma_50]
    is 12 on day 3, but [book_value_per_share] and [price_to_book] are null
    on all three rows. *)
Theorem C2_scenario_output :
  process_data scenario_prices scenario_fundamentals
  = Ok [mkDailyMetrics 738521 EmptyString 11 (Some 11%Q) (Some 11%Q) (Some 11%Q)
          (Some 0%Q) None None None;
        mkDailyMetrics 738522 EmptyString 12 (Some (23 # 2)) (Some (23 # 2)) (Some 12%Q)
          (Some 0%Q) None None None;
        mkDailyMetrics 738523 EmptyString 13 (Some 12%Q) (Some 12%Q) (Some 13%Q)
          (Some 0%Q) None None None].
Proof. vm_compute. reflexivity. Qed.

(** C1, at the scenario: on each price date the latest observation is the
    one of the prior day, with book value 10 and enterprise value 200, and
    the merged frame carries these values, but every returned row has null
    fundamental fields. *)
Theorem C1_scenario_fundamentals_lost :
  Forall (fun p => latest_as_of scenario_fundamentals (p_date p) = Some scenario_fundamental)
    scenario_prices
  /\ (exists fund_df,
        fundamentals_frame (sorted_prices scenario_prices) scenario_fundamentals = Ok fund_df
        /\ map (fun r => v_book_value (m_values r))
             (merge_frames (sorted_prices scenario_prices) fund_df)
           = [Some (Fin 10); Some (Fin 10); Some (Fin 10)])
  /\ exists rows,
       process_data scenario_prices scenario_fundamentals = Ok rows
       /\ length rows = 3%nat
       /\ Forall fundamentals_null rows.
Proof.
  split; [repeat constructor|]. split.
  - eexists. split; [vm_compute; reflexivity|]. vm_compute. reflexivity.
  - eexists. split; [vm_compute; reflexivity|]. split; [reflexivity|].
    repeat constructor.
Qed.

(** C4, at the scenario: the carried-forward book value is 10 on the three
    days and the merged frame holds the ratios 11/10, 12/10 and 13/10 as
    floats, which print as 1.1, 1.2 and 1.3, but [price_to_book] is null on
    every returned row.  (In the merged frame a row that no observation
    precedes has a NaN book value, which is not in [[None, 0]]: its ratio is
    NaN, not [None].) *)
Theorem C4_scenario_price_to_book :
  (exists fund_df,
      fundamentals_frame (sorted_prices scenario_prices) scenario_fundamentals = Ok fund_df
      /\ map m_price_to_book (merge_frames (sorted_prices scenario_prices) fund_df)
         = [Some (float_of_Q (11 # 10)); Some (float_of_Q (6 # 5));
            Some (float_of_Q (13 # 10))]
      /\ map (fun r => opt_decimal (m_price_to_book r))
           (merge_frames (sorted_prices scenario_prices) fund_df)
         = [Some (DFin (11 # 10)); Some (DFin (6 # 5)); Some (DFin (13 # 10))])
  /\ (exists rows,
        process_data scenario_prices scenario_fundamentals = Ok rows
        /\ map dm_close rows = [11%Q; 12%Q; 13%Q]
        /\ map dm_price_to_book rows = [None; None; None])
  /\ (exists fund_df,
        fundamentals_frame (sorted_prices early_prices) scenario_fundamentals = Ok fund_df
        /\ map m_price_to_book (merge_frames (sorted_prices early_prices) fund_df)
           = [Some NaN; Some (float_of_Q (11 # 10))]).
Proof.
  split; [|split].
  - eexists. split; [vm_compute; reflexivity|]. split; vm_compute; reflexivity.
  - eexists. split; [vm_compute; reflexivity|]. split; vm_compute; reflexivity.
  - eexists. split; [vm_compute; reflexivity|]. vm_compute. reflexivity.
Qed.

(** ** The technical columns of the two frames *)

Lemma map_fst_combine {A B : Type} (a : list A) (b : list B) :
  length a = length b -> map fst (combine a b) = a.
Proof.
  revert b. induction a as [|x a IH]; intros [|y b]; simpl; try discriminate.
  - reflexivity.
  - intros [= H]. now rewrite IH.
Qed.

Lemma map_snd_combine {A B : Type} (a : list A) (b : list B) :
  length a = length b -> map snd (combine a b) = b.
Proof.
  revert b. induction a as [|x a IH]; intros [|y b]; simpl; try discriminate.
  - reflexivity.
  - intros [= H]. now rewrite IH.
Qed.

Lemma fallback_frame_ind (price_df : list price_row) :
  map snd (fallback_frame price_df) = technical_indicators (map pr_close price_df).
Proof.
  unfold fallback_frame. apply map_snd_combine.
  now rewrite technical_indicators_length, length_map.
Qed.

Lemma infer_column_length (col : list cell) : length (infer_column col) = length col.
Proof. unfold infer_column. destruct (existsb _ _); [apply length_map|reflexivity]. Qed.

Lemma zip_merged_ind rows inds ptb :
  length inds = length rows -> length ptb = length rows ->
  map m_ind (zip_merged rows inds ptb) = inds.
Proof.
  revert inds ptb. induction rows as [|[p [v s]] rows IH]; intros [|i inds] [|r ptb];
    simpl; try discriminate; try reflexivity.
  intros [= H1] [= H2]. now rewrite IH.
Qed.

Lemma merge_frames_ind (price_df : list price_row) (fund_df : list fund_row) :
  length fund_df = length price_df ->
  map m_ind (merge_frames price_df fund_df) = technical_indicators (map pr_close price_df).
Proof.
  intros Hlen. unfold merge_frames, concat_columns.
  set (cols := map (fun f => (fr_values f, fr_source f)) fund_df).
  assert (Hcols : length price_df = length cols).
  { unfold cols. now rewrite length_map. }
  assert (Hrows : match combine price_df cols, price_df with
                  | [], _ :: _ => map (fun p => (p, (all_cells None, None))) price_df
                  | _, _ => combine price_df cols
                  end = combine price_df cols).
  { destruct price_df as [|p ps]; destruct cols; simpl in *; try discriminate; reflexivity. }
  rewrite Hrows.
  assert (Hclose : map (fun r : price_row * (fund_values * option source_tag) =>
                          pr_close (fst r)) (combine price_df cols)
                   = map pr_close price_df).
  { rewrite <- (map_map fst pr_close). now rewrite map_fst_combine. }
  rewrite Hclose. apply zip_merged_ind.
  - rewrite technical_indicators_length, length_map, length_combine. lia.
  - rewrite infer_column_length, length_map. reflexivity.
Qed.

(** On grid values the conversion is exact and the rolling mean is the
    exact mean of the window, rounded once. *)
Lemma float_of_Q_grid (s : Z) (l : list Q) :
  0 <= s <= 1000 -> Forall (on_grid s 1) l ->
  map inf_to_nan (map float_of_Q l) = map exact_cell l.
Proof.
  intros Hs H. induction H as [|q l Hq _ IH]; cbn [map]; [reflexivity|].
  rewrite IH. f_equal. unfold float_of_Q, exact_cell.
  rewrite (round64_grid s 1 q q Hs ltac:(lia) Hq (Qeq_refl q)). reflexivity.
Qed.

Lemma roll_mean_grid (s : Z) (w : nat) (l : list Q) (i : nat) :
  0 <= s <= 1000 -> (0 < w <= 1022)%nat ->
  Forall (on_grid s 1) l -> (i < length l)%nat ->
  nth_error (roll_mean w 1 (map inf_to_nan (map float_of_Q l))) i
  = Some (round64 (Qmean (slice (i - (w - 1)) i l))).
Proof.
  intros Hs Hw Hl Hi. rewrite (float_of_Q_grid s l Hs Hl).
  assert (E : roll_mean w 1 (map exact_cell l)
              = roll_mean_from w 1 (map exact_cell [])
                  (mkMeanState 0 (Fin 0) 0 (Fin 0) (Fin 0) 0
                     (exact_cell (hd 0%Q l)))
                  (map exact_cell l)).
  { destruct l; [cbn in Hi; lia|reflexivity]. }
  rewrite E, (roll_mean_from_grid s w l Hs Hw Hl [] _ i); [| cbn; lia | | exact Hi].
  - rewrite app_nil_l, lastn_firstn_slice by lia. reflexivity.
  - split; [constructor|]. split; [reflexivity|].
    split; [exists 0%Q; split; reflexivity|].
    split; [reflexivity|]. split; [reflexivity|]. split; [reflexivity|].
    exists (hd 0%Q l). split; [reflexivity|]. constructor.
Qed.

Lemma Forall_slice {A : Type} (P : A -> Prop) (lo hi : nat) (l : list A) :
  Forall P l -> Forall P (slice lo hi l).
Proof.
  intros H. unfold slice.
  assert (Hs : Forall P (skipn lo l)).
  { revert l H. induction lo as [|lo IH]; intros l H; [exact H|].
    destruct l as [|x l]; [constructor|]. cbn [skipn]. apply IH. now inversion H. }
  revert Hs. generalize (skipn lo l) (hi + 1 - lo)%nat. clear.
  intros l n. revert l. induction n as [|n IH]; intros l H; [constructor|].
  destruct l as [|x l]; [constructor|]. cbn [firstn].
  inversion H; subst. constructor; [assumption|now apply IH].
Qed.

Lemma closes_on_grid (s : Z) (prices : list PriceData) :
  exact_closes s prices -> Forall (on_grid s 1) (closes_by_date prices).
Proof.
  intros [_ H]. unfold closes_by_date. apply Forall_map.
  rewrite Forall_forall in *. intros p Hp. apply H.
  eapply Permutation_in; [apply sort_values_perm|exact Hp].
Qed.

Lemma Qsum_le_length (s : Z) (l : list Q) :
  Forall (on_grid s 1) l -> 0 <= s ->
  (Qsum l <= inject_Z (Z.of_nat (length l)) * inject_Z (2 ^ 43))%Q.
Proof.
  intros H Hs. destruct (on_grid_sum s l H) as (z & Hz & ->).
  rewrite <- inject_Z_mult.
  apply (Qle_trans _ (inject_Z z * 1)).
  - apply Qmult_le_compat_nonneg.
    + split; [|apply Qle_refl]. change 0%Q with (inject_Z 0). rewrite <- Zle_Qle. lia.
    + split; [apply Qlt_le_weak, pow2_pos|].
      change 1%Q with (2 ^ 0)%Q. apply pow2_le. lia.
  - rewrite Qmult_1_r, <- Zle_Qle. lia.
Qed.

(** The mean of grid values rounds to a number. *)
Lemma round64_mean_finite (s : Z) (l : list Q) :
  0 <= s -> Forall (on_grid s 1) l -> is_fin (round64 (Qmean l)) = true.
Proof.
  intros Hs H.
  destruct (round64_between 0 (inject_Z (2 ^ 43)) (Qmean l)) as [r [-> _]].
  - apply representable_zero.
  - apply representable_Z. cbn. lia.
  - exact (Qmean_nonneg s l H).
  - unfold Qmean. destruct l as [|q l]; [discriminate|].
    apply Qle_shift_div_r.
    + change 0%Q with (inject_Z 0). rewrite <- Zlt_Qlt. cbn [length]. lia.
    + rewrite Qmult_comm. exact (Qsum_le_length s _ H Hs).
  - reflexivity.
Qed.

Lemma process_data_rows (prices : list PriceData) (fundamentals : list FundamentalData)
    (rows : list DailyMetrics) :
  process_data prices fundamentals = Ok rows ->
  rows = fallback_metrics (sorted_prices prices).
Proof.
  destruct prices as [|p ps].
  - cbn [process_data]. now intros [= <-].
  - rewrite process_data_fallback by discriminate.
    destruct (fundamentals_frame _ _); cbn [bind]; congruence.
Qed.

Lemma collect_In {A B : Type} (f : A -> option B) (l : list A) (y : B) :
  In y (collect f l) <-> exists x, In x l /\ f x = Some y.
Proof.
  induction l as [|x l IH]; cbn [collect].
  - split; [intros []|intros [x [[] _]]].
  - destruct (f x) as [y'|] eqn:E.
    + cbn [In]. rewrite IH. split.
      * intros [<-|[x' [Hx' Hf]]]; [exists x; split; [now left|assumption]|].
        exists x'. split; [now right|assumption].
      * intros [x' [[<-|Hx'] Hf]]; [left; congruence|right; eauto].
    + rewrite IH. split.
      * intros [x' [Hx' Hf]]. exists x'. split; [now right|assumption].
      * intros [x' [[<-|Hx'] Hf]]; [congruence|eauto].
Qed.

(** Every returned row is the conversion of a row of the fallback frame. *)
Lemma process_data_row_origin (prices : list PriceData) (fundamentals : list FundamentalData)
    (rows : list DailyMetrics) (m : DailyMetrics) :
  process_data prices fundamentals = Ok rows -> In m rows ->
  exists i r,
    nth_error (fallback_frame (sorted_prices prices)) i = Some r
    /\ metrics_of_fallback r = Some m.
Proof.
  intros Hrows Hin. apply process_data_rows in Hrows. subst rows.
  unfold fallback_metrics in Hin. apply collect_In in Hin.
  destruct Hin as [r [Hr Hm]]. apply In_nth_error in Hr. destruct Hr as [i Hi].
  eauto.
Qed.

(** The frame row of index [i], in the fallback frame and in the merged
    frame alike. *)
Lemma frame_row_defined (prices : list PriceData) (i : nat) :
  (i < length prices)%nat ->
  exists r,
    nth_error (fallback_frame (sorted_prices prices)) i = Some r
    /\ forall fund_df, length fund_df = length prices ->
         option_map m_ind (nth_error (merge_frames (sorted_prices prices) fund_df) i)
         = Some (snd r).
Proof.
  intros Hi.
  destruct (nth_error_defined (fallback_frame (sorted_prices prices)) i) as [r Hr].
  { now rewrite fallback_frame_length. }
  exists r. split; [exact Hr|].
  intros fund_df Hlen. rewrite <- nth_error_map.
  rewrite merge_frames_ind by (now rewrite sorted_prices_length).
  rewrite <- fallback_frame_ind, nth_error_map, Hr. reflexivity.
Qed.




(** ** Crossover detection *)

Section ScanFacts.
Variables before now : float -> float -> bool.

Lemma scan_no_valid (prev : option sma_row) (i : nat) (df : list sma_row) :
  loc_mask i df = [] -> scan before now prev i df = [].
Proof.
  revert prev i. induction df as [|r df IH]; intros prev i; simpl; [reflexivity|].
  destruct (both_notna r); [discriminate|apply IH].
Qed.

(** The vectorised comparison of shifted columns is the one-pass scan. *)
Lemma select_scan (df : list sma_row) (i : nat) (x y : float) (prev : option sma_row) :
  before x y = met_before before prev ->
  let valid := loc_mask i df in
  let sma_50 := map (fun ir => s_sma_50 (snd ir)) valid in
  let sma_200 := map (fun ir => s_sma_200 (snd ir)) valid in
  select_labels valid
    (zip_with andb
       (zip_with before (x :: removelast sma_50) (y :: removelast sma_200))
       (zip_with now sma_50 sma_200))
  = scan before now prev i df.
Proof.
  revert i x y prev. induction df as [|r df IH]; intros i x y prev Hxy; [reflexivity|].
  cbn [loc_mask scan]. destruct (both_notna r) eqn:V; [|now apply IH].
  specialize (IH (S i) (s_sma_50 r) (s_sma_200 r) (Some r) eq_refl).
  cbn zeta in IH |- *.
  destruct (loc_mask (S i) df) as [|[j q] valid] eqn:E.
  - rewrite (scan_no_valid _ _ _ E). cbn. rewrite Hxy, app_nil_r.
    destruct (met_before before prev && now (s_sma_50 r) (s_sma_200 r)); reflexivity.
  - rewrite <- IH. cbn. rewrite Hxy.
    destruct (met_before before prev && now (s_sma_50 r) (s_sma_200 r)); reflexivity.
Qed.

Lemma crossover_labels_scan (df : list sma_row) :
  before NaN NaN = false ->
  crossover_labels before now df = scan before now None 0 df.
Proof.
  intros Hnan. unfold crossover_labels.
  pose proof (select_scan df 0 NaN NaN None Hnan) as H. cbn zeta in H.
  destruct (loc_mask 0 df) as [|[i r] valid] eqn:E.
  - cbn. symmetry. now apply scan_no_valid.
  - destruct valid as [|[j q] valid].
    + cbn. rewrite <- H. cbn. rewrite Hnan. reflexivity.
    + rewrite <- H. reflexivity.
Qed.

(** The labels of the scan, by previous valid row. *)
Lemma scan_In (df : list sma_row) (prev : option sma_row) (i x : nat) :
  In x (scan before now prev i df) <->
  exists k r,
    x = (i + k)%nat /\ nth_error df k = Some r /\ both_notna r = true
    /\ met_before before (last_valid prev (firstn k df)) = true
    /\ now (s_sma_50 r) (s_sma_200 r) = true.
Proof.
  revert prev i. induction df as [|r df IH]; intros prev i.
  - simpl. split; [tauto|]. intros [k [r [_ [H _]]]]. destruct k; discriminate.
  - cbn [scan]. destruct (both_notna r) eqn:V.
    + rewrite in_app_iff, IH. split.
      * intros [H|[k [q [-> [Hq [Vq [Hb Hn]]]]]]].
        -- destruct (met_before before prev && now (s_sma_50 r) (s_sma_200 r)) eqn:B;
             [|contradiction].
           destruct H as [<-|[]]. apply andb_true_iff in B.
           exists 0%nat, r. rewrite Nat.add_0_r. cbn. tauto.
        -- exists (S k), q. cbn [nth_error firstn]. unfold last_valid in *. cbn [fold_left].
           rewrite V. repeat split; try assumption. lia.
      * intros [[|k] [q [-> [Hq [Vq [Hb Hn]]]]]].
        -- left. cbn in Hq, Hb. injection Hq as <-. rewrite Hb, Hn. cbn.
           left. lia.
        -- right. exists k, q. cbn [nth_error firstn] in *.
           unfold last_valid in *. cbn [fold_left] in Hb. rewrite V in Hb.
           repeat split; try assumption. lia.
    + rewrite IH. split.
      * intros [k [q [-> [Hq [Vq [Hb Hn]]]]]].
        exists (S k), q. cbn [nth_error firstn]. unfold last_valid in *. cbn [fold_left].
        rewrite V. repeat split; try assumption. lia.
      * intros [[|k] [q [-> [Hq [Vq [Hb Hn]]]]]].
        -- cbn in Hq. injection Hq as <-. congruence.
        -- exists k, q. cbn [nth_error firstn] in *.
           unfold last_valid in *. cbn [fold_left] in Hb. rewrite V in Hb.
           repeat split; try assumption. lia.
Qed.

Lemma scan_ascending (df : list sma_row) (prev : option sma_row) (i : nat) :
  StronglySorted lt (scan before now prev i df)
  /\ Forall (fun x => (i <= x)%nat) (scan before now prev i df).
Proof.
  revert prev i. induction df as [|r df IH]; intros prev i; cbn [scan].
  - split; constructor.
  - assert (Hup : forall p, StronglySorted lt (scan before now p (S i) df)
                            /\ Forall (fun x => (i < x)%nat) (scan before now p (S i) df)).
    { intros p. destruct (IH p (S i)) as [Hs Hf]. split; [assumption|].
      eapply Forall_impl; [|exact Hf]. simpl. intros; lia. }
    destruct (both_notna r).
    + destruct (Hup (Some r)) as [Hs Hf].
      destruct (met_before before prev && now (s_sma_50 r) (s_sma_200 r)); cbn.
      * split; [constructor; assumption|].
        constructor; [lia|]. eapply Forall_impl; [|exact Hf]. simpl. intros; lia.
      * split; [assumption|]. eapply Forall_impl; [|exact Hf]. simpl. intros; lia.
    + destruct (Hup prev) as [Hs Hf].
      split; [assumption|]. eapply Forall_impl; [|exact Hf]. simpl. intros; lia.
Qed.
End ScanFacts.

Lemma firstn_S_snoc {A : Type} (l : list A) (i : nat) (x : A) :
  nth_error l i = Some x -> firstn (S i) l = firstn i l ++ [x].
Proof.
  revert i. induction l as [|y l IH]; intros [|i]; cbn [nth_error firstn]; try discriminate.
  - intros [= ->]. reflexivity.
  - intros H. cbn. now rewrite <- IH.
Qed.

Lemma firstn_S_none {A : Type} (l : list A) (i : nat) :
  nth_error l i = None -> firstn (S i) l = firstn i l.
Proof.
  intros H. apply nth_error_None in H.
  rewrite !firstn_all2 by lia. reflexivity.
Qed.

(** The previous valid row of [i] is the valid row of greatest index below
    [i]: the rows between the two are not valid. *)
Lemma previous_valid_spec (df : list sma_row) (i : nat) (rj : sma_row) :
  previous_valid df i = Some rj <->
  exists j,
    (j < i)%nat /\ nth_error df j = Some rj /\ both_notna rj = true
    /\ forall k rk, (j < k < i)%nat -> nth_error df k = Some rk -> both_notna rk = false.
Proof.
  unfold previous_valid. revert rj. induction i as [|i IH]; intros rj.
  - cbn. split; [discriminate|]. intros [j [Hj _]]. lia.
  - destruct (nth_error df i) as [r|] eqn:Hr.
    + rewrite (firstn_S_snoc _ _ _ Hr). unfold last_valid in *.
      rewrite fold_left_app. cbn [fold_left].
      destruct (both_notna r) eqn:V.
      * split.
        -- intros [= <-]. exists i. repeat split; try assumption; try lia.
        -- intros [j [Hj [Hrj [Vj Hbetween]]]].
           destruct (Nat.eq_dec j i) as [->|Hne]; [congruence|].
           assert (Hlt : (j < i < S i)%nat) by lia.
           specialize (Hbetween i r Hlt Hr). congruence.
      * rewrite IH. split.
        -- intros [j [Hj [Hrj [Vj Hbetween]]]]. exists j.
           repeat split; try assumption; try lia.
           intros k rk Hk Hrk. destruct (Nat.eq_dec k i) as [->|Hne]; [congruence|].
           apply (Hbetween k rk); [lia|assumption].
        -- intros [j [Hj [Hrj [Vj Hbetween]]]].
           destruct (Nat.eq_dec j i) as [->|Hne]; [congruence|].
           exists j. repeat split; try assumption; try lia.
           intros k rk Hk Hrk. apply (Hbetween k rk); [lia|assumption].
    + rewrite (firstn_S_none _ _ Hr). rewrite IH. split.
      * intros [j [Hj [Hrj [Vj Hbetween]]]]. exists j.
        repeat split; try assumption; try lia.
        intros k rk Hk Hrk. destruct (Nat.eq_dec k i) as [->|Hne]; [congruence|].
        apply (Hbetween k rk); [lia|assumption].
      * intros [j [Hj [Hrj [Vj Hbetween]]]].
        destruct (Nat.eq_dec j i) as [->|Hne]; [congruence|].
        exists j. repeat split; try assumption; try lia.
        intros k rk Hk Hrk. apply (Hbetween k rk); [lia|assumption].
Qed.

Lemma golden_labels_scan (df : list sma_row) :
  golden_labels df = scan fle fgt None 0 df.
Proof. unfold golden_labels. now apply crossover_labels_scan. Qed.

Lemma golden_labels_In (df : list sma_row) (i : nat) :
  In i (golden_labels df) <-> golden_cross_at df i.
Proof.
  rewrite golden_labels_scan, scan_In. unfold golden_cross_at. split.
  - intros [k [r [-> [Hr [V [Hb Hn]]]]]]. cbn [Nat.add].
    fold (previous_valid df k) in Hb.
    destruct (previous_valid df k) as [rj|] eqn:Hp; [|discriminate].
    exists r, rj. cbn in Hb. tauto.
  - intros [ri [rj [Hr [V [Hp [Hb Hn]]]]]].
    exists i, ri. fold (previous_valid df i). rewrite Hp. cbn. tauto.
Qed.

Lemma sorted_nth (l : list Z) :
  StronglySorted Z.le l ->
  forall i j, (i < j < length l)%nat -> nth i l 0 <= nth j l 0.
Proof.
  induction 1 as [|a l Hs IH Ha]; intros i j Hij; simpl in Hij; [lia|].
  destruct j as [|j]; [lia|]. destruct i as [|i]; cbn [nth].
  - rewrite Forall_forall in Ha. apply Ha, nth_In. lia.
  - apply IH. lia.
Qed.

Lemma detect_dates (before now : float -> float -> bool) (df : list sma_row) :
  Forall (fun i => (i < length df)%nat) (crossover_labels before now df) ->
  detect before now df
  = map (fun i => nth i (map s_date df) 0) (crossover_labels before now df).
Proof.
  unfold detect. induction 1 as [|i l Hi _ IH]; cbn [collect map]; [reflexivity|].
  destruct (nth_error df i) as [r|] eqn:E.
  - cbn. rewrite IH. f_equal.
    rewrite (nth_error_nth (map s_date df) i 0 (x := s_date r)); [reflexivity|].
    now rewrite nth_error_map, E.
  - apply nth_error_None in E. lia.
Qed.

Lemma dates_ascending (dates : list Z) (labels : list nat) :
  StronglySorted Z.le dates -> StronglySorted lt labels ->
  Forall (fun i => (i < length dates)%nat) labels ->
  StronglySorted Z.le (map (fun i => nth i dates 0) labels).
Proof.
  intros Hd. induction 1 as [|i l Hs IH Hi]; intros Hr; cbn [map]; constructor.
  - apply IH. now inversion Hr.
  - inversion Hr as [|? ? Hlt Hrest]; subst.
    rewrite Forall_forall in *. intros d Hin. apply in_map_iff in Hin.
    destruct Hin as [j [<- Hj]]. apply sorted_nth; [assumption|].
    split; [now apply Hi|now apply Hrest].
Qed.

(** C5. A golden-cross event is emitted at row [i] exactly when row [i]
    has both averages present, some earlier row has both present, and for
    the previous such row (the valid row of greatest index below [i], the
    rows in between being excluded) sma_50 <= sma_200 held while at row [i]
    sma_50 > sma_200; the emitted labels are strictly increasing, the result
    lists the dates of exactly these rows in that order, and it is ascending
    when the frame is in ascending date order. *)
Theorem C5_golden_cross :
  forall (df : list sma_row),
    (forall i, In i (golden_labels df) <-> golden_cross_at df i)
    /\ (forall i rj,
          previous_valid df i = Some rj <->
          exists j,
            (j < i)%nat /\ nth_error df j = Some rj /\ both_notna rj = true
            /\ forall k rk, (j < k < i)%nat -> nth_error df k = Some rk ->
                 both_notna rk = false)
    /\ StronglySorted lt (golden_labels df)
    /\ detect_golden_crossover df
       = map (fun i => nth i (map s_date df) 0) (golden_labels df)
    /\ (StronglySorted Z.le (map s_date df) ->
        StronglySorted Z.le (detect_golden_crossover df)).
Proof.
  intros df.
  assert (Hrange : Forall (fun i => (i < length df)%nat) (golden_labels df)).
  { apply Forall_forall. intros i Hi. apply golden_labels_In in Hi.
    destruct Hi as [ri [_ [Hr _]]]. apply nth_error_Some. congruence. }
  assert (Hsorted : StronglySorted lt (golden_labels df)).
  { rewrite golden_labels_scan. apply scan_ascending. }
  assert (Hdates : detect_golden_crossover df
                   = map (fun i => nth i (map s_date df) 0) (golden_labels df)).
  { apply detect_dates. exact Hrange. }
  split; [apply golden_labels_In|].
  split; [apply previous_valid_spec|].
  split; [exact Hsorted|]. split; [exact Hdates|].
  intros Hd. rewrite Hdates. apply dates_ascending; try assumption.
  now rewrite length_map.
Qed.

(** ** Carry-forward in the merged frame *)

(** On an ascending index, [pad] ends on the row of greatest label [<= d]. *)
Lemma pad_max (d : date) (index : list fund_row) :
  StronglySorted (fun a b => fr_key a <= fr_key b) index ->
  forall last,
    match pad index d last with
    | Some r =>
        (last = Some r /\ forall r', In r' index -> d < fr_key r')
        \/ (In r index /\ fr_key r <= d
            /\ forall r', In r' index -> fr_key r' <= d -> fr_key r' <= fr_key r)
    | None => last = None /\ forall r', In r' index -> d < fr_key r'
    end.
Proof.
  induction 1 as [|a index Hs IH Ha]; intros last; cbn [pad].
  - destruct last; [left|]; (split; [reflexivity|]); intros r' [].
  - rewrite Forall_forall in Ha. destruct (fr_key a <=? d) eqn:E.
    + apply Z.leb_le in E. specialize (IH (Some a)).
      destruct (pad index d (Some a)) as [r|]; [|destruct IH; discriminate].
      right. destruct IH as [[[= <-] Hall]|[Hin [Hle Hmax]]].
      * split; [now left|]. split; [assumption|].
        intros r' [<-|Hr'] Hd; [lia|]. specialize (Hall r' Hr'). lia.
      * split; [now right|]. split; [assumption|].
        intros r' [<-|Hr'] Hd; [now apply Ha|now apply Hmax].
    + apply Z.leb_gt in E.
      assert (Hall : forall r', In r' (a :: index) -> d < fr_key r').
      { intros r' [<-|Hr']; [assumption|]. specialize (Ha r' Hr'). lia. }
      destruct last; [left|]; (split; [reflexivity|assumption]).
Qed.

Lemma latest_max (d : date) (l : list FundamentalData) :
  forall best,
    (forall b, best = Some b -> f_as_of b <= d) ->
    match fold_left (later_of d) l best with
    | Some f =>
        (best = Some f \/ In f l) /\ f_as_of f <= d
        /\ (forall f', In f' l -> f_as_of f' <= d -> f_as_of f' <= f_as_of f)
    | None => best = None /\ forall f', In f' l -> d < f_as_of f'
    end.
Proof.
  assert (Hmono : forall l best b f,
             best = Some b -> fold_left (later_of d) l best = Some f ->
             f_as_of b <= f_as_of f).
  { clear l. induction l as [|a l IH]; intros best b f -> Hf; cbn [fold_left] in Hf.
    - injection Hf as <-. lia.
    - unfold later_of at 2 in Hf.
      destruct (f_as_of a <=? d); [|now apply (IH _ b f eq_refl)].
      destruct (f_as_of b <=? f_as_of a) eqn:E.
      + apply Z.leb_le in E. specialize (IH _ a f eq_refl Hf). lia.
      + now apply (IH _ b f eq_refl). }
  induction l as [|a l IH]; intros best Hbest; cbn [fold_left].
  - destruct best as [b|].
    + split; [now left|]. split; [now apply Hbest|]. intros f' [].
    + split; [reflexivity|]. intros f' [].
  - assert (Hnext : forall b, later_of d best a = Some b -> f_as_of b <= d).
    { unfold later_of. destruct (f_as_of a <=? d) eqn:E; [|exact Hbest].
      apply Z.leb_le in E. destruct best as [b0|].
      - destruct (f_as_of b0 <=? f_as_of a); intros b [= <-]; [assumption|].
        now apply Hbest.
      - intros b [= <-]. assumption. }
    specialize (IH (later_of d best a) Hnext).
    destruct (fold_left (later_of d) l (later_of d best a)) as [f|] eqn:F.
    + destruct IH as [Hsrc [Hle Hmax]]. split; [|split; [assumption|]].
      * destruct Hsrc as [Hsrc|Hin]; [|right; now right].
        unfold later_of in Hsrc. destruct (f_as_of a <=? d); [|now left].
        destruct best as [b0|].
        -- destruct (f_as_of b0 <=? f_as_of a); injection Hsrc as <-;
             [right; now left|now left].
        -- injection Hsrc as <-. right; now left.
      * intros f' [<-|Hf'] Hd; [|now apply Hmax].
        unfold later_of in F. apply Z.leb_le in Hd. rewrite Hd in F.
        destruct best as [b0|].
        -- destruct (f_as_of b0 <=? f_as_of a) eqn:E.
           ++ exact (Hmono _ _ _ _ eq_refl F).
           ++ apply Z.leb_gt in E. specialize (Hmono _ _ _ _ eq_refl F). lia.
        -- exact (Hmono _ _ _ _ eq_refl F).
    + destruct IH as [Hnone Hall]. unfold later_of in Hnone.
      destruct (f_as_of a <=? d) eqn:E.
      * destruct best as [b0|]; [destruct (f_as_of b0 <=? f_as_of a)|]; discriminate.
      * apply Z.leb_gt in E. split; [assumption|].
        intros f' [<-|Hf']; [assumption|now apply Hall].
Qed.

Lemma NoDup_map_inj {A B : Type} (g : A -> B) (l : list A) (a b : A) :
  NoDup (map g l) -> In a l -> In b l -> g a = g b -> a = b.
Proof.
  induction l as [|x l IH]; cbn [map]; intros Hnd Ha Hb E; [destruct Ha|].
  inversion Hnd as [|? ? Hx Hl]; subst.
  destruct Ha as [->|Ha]; destruct Hb as [->|Hb]; try reflexivity.
  - exfalso. apply Hx. rewrite E. now apply in_map.
  - exfalso. apply Hx. rewrite <- E. now apply in_map.
  - now apply IH.
Qed.

Lemma sorted_fund_In (fundamentals : list FundamentalData) (r : fund_row) :
  In r (sort_values fr_key (map fund_row_of fundamentals))
  <-> exists f, In f fundamentals /\ r = fund_row_of f.
Proof.
  split.
  - intros H. eapply Permutation_in in H; [|apply sort_values_perm].
    apply in_map_iff in H. destruct H as [f [<- Hf]]. eauto.
  - intros [f [Hf ->]].
    eapply Permutation_in; [symmetry; apply sort_values_perm|]. now apply in_map.
Qed.

(** The padded row holds the values of the latest observation. *)
Lemma pad_latest (fundamentals : list FundamentalData) (d : date) :
  NoDup (map f_as_of fundamentals) ->
  option_map fr_values (pad (sort_values fr_key (map fund_row_of fundamentals)) d None)
  = option_map (fun f => fr_values (fund_row_of f)) (latest_as_of fundamentals d).
Proof.
  intros Hnd.
  pose proof (pad_max d _ (sort_values_sorted fr_key (map fund_row_of fundamentals)) None) as Hp.
  pose proof (latest_max d fundamentals None ltac:(discriminate)) as Hl.
  unfold latest_as_of.
  destruct (pad _ d None) as [r|]; destruct (fold_left _ _ None) as [f|]; cbn.
  - destruct Hp as [[Hp _]|[Hin [Hle Hmax]]]; [discriminate|].
    destruct Hl as [[Hl|Hf] [Hfd Hfmax]]; [discriminate|].
    apply sorted_fund_In in Hin. destruct Hin as [f0 [Hf0 ->]].
    assert (E : f_as_of f0 = f_as_of f).
    { specialize (Hfmax f0 Hf0 Hle).
      specialize (Hmax (fund_row_of f) (proj2 (sorted_fund_In _ _) (ex_intro _ f (conj Hf eq_refl))) Hfd).
      cbn in *. lia. }
    now rewrite (NoDup_map_inj f_as_of fundamentals f0 f Hnd Hf0 Hf E).
  - exfalso. destruct Hp as [[Hp _]|[Hin [Hle _]]]; [discriminate|].
    apply sorted_fund_In in Hin. destruct Hin as [f0 [Hf0 ->]].
    destruct Hl as [_ Hall]. specialize (Hall f0 Hf0). cbn in Hle. lia.
  - exfalso. destruct Hp as [_ Hall].
    destruct Hl as [[Hl|Hf] [Hfd _]]; [discriminate|].
    specialize (Hall (fund_row_of f) (proj2 (sorted_fund_In _ _) (ex_intro _ f (conj Hf eq_refl)))).
    cbn in Hall. lia.
  - reflexivity.
Qed.

Lemma ffill_ticker_values (last : option string) (l : list fund_row) :
  map fr_values (ffill_ticker last l) = map fr_values l.
Proof.
  revert last. induction l as [|r l IH]; intros last; cbn; [reflexivity|].
  now rewrite IH.
Qed.

Lemma reindex_ffill_values (index : list fund_row) (target : list date)
    (out : list fund_row) (i : nat) (d : date) :
  reindex_ffill index target = Ok out ->
  StronglySorted (fun a b => fr_key a <= fr_key b) index ->
  NoDup (map fr_key index) ->
  nth_error target i = Some d ->
  option_map fr_values (nth_error out i) = Some (fr_values (take_padded index d)).
Proof.
  intros Hout Hs Hnd Hd. unfold reindex_ffill in Hout.
  destruct (eqb_dates (map fr_key index) target) eqn:E.
  - injection Hout as <-. apply eqb_dates_eq in E. subst target.
    rewrite nth_error_map in Hd.
    destruct (nth_error index i) as [r|] eqn:Hr; [|discriminate].
    injection Hd as <-. cbn. f_equal.
    assert (Hin : In r index) by (eapply nth_error_In; eassumption).
    pose proof (pad_max (fr_key r) index Hs None) as Hp.
    unfold take_padded. destruct (pad index (fr_key r) None) as [r'|].
    + destruct Hp as [[Hp _]|[Hin' [Hle Hmax]]]; [discriminate|].
      specialize (Hmax r Hin (Z.le_refl _)).
      assert (Er : r' = r).
      { apply (NoDup_map_inj fr_key index); try assumption. lia. }
      now subst.
    + destruct Hp as [_ Hall]. specialize (Hall r Hin). lia.
  - destruct (is_unique (map fr_key index)); [|discriminate].
    injection Hout as <-. now rewrite nth_error_map, Hd.
Qed.

Lemma zip_merged_values rows inds ptb :
  length inds = length rows -> length ptb = length rows ->
  map m_values (zip_merged rows inds ptb) = map (fun r => fst (snd r)) rows.
Proof.
  revert inds ptb. induction rows as [|[p [v s]] rows IH]; intros [|i inds] [|r ptb];
    simpl; try discriminate; try reflexivity.
  intros [= H1] [= H2]. now rewrite IH.
Qed.

Lemma merge_frames_values (price_df : list price_row) (fund_df : list fund_row) :
  length fund_df = length price_df ->
  map m_values (merge_frames price_df fund_df) = map fr_values fund_df.
Proof.
  intros Hlen. unfold merge_frames, concat_columns.
  set (cols := map (fun f => (fr_values f, fr_source f)) fund_df).
  assert (Hcols : length price_df = length cols).
  { unfold cols. now rewrite length_map. }
  assert (Hrows : match combine price_df cols, price_df with
                  | [], _ :: _ => map (fun p => (p, (all_cells None, None))) price_df
                  | _, _ => combine price_df cols
                  end = combine price_df cols).
  { destruct price_df as [|p ps]; destruct cols; simpl in *; try discriminate; reflexivity. }
  rewrite Hrows, zip_merged_values.
  - rewrite <- (map_map snd fst), map_snd_combine by assumption.
    unfold cols. now rewrite map_map.
  - rewrite technical_indicators_length, length_map. reflexivity.
  - rewrite infer_column_length, length_map. reflexivity.
Qed.

(** The merge itself carries forward: with pairwise distinct [as_of] dates,
    row [i] of the merged frame holds the numeric fields of the latest
    observation with [as_of <= d], as floats, and NaN in every field when no
    observation precedes [d]. *)
Lemma merged_carry_forward (prices : list PriceData) (fundamentals : list FundamentalData)
    (fund_df : list fund_row) (i : nat) (p : PriceData) :
  fundamentals <> [] ->
  NoDup (map f_as_of fundamentals) ->
  fundamentals_frame (sorted_prices prices) fundamentals = Ok fund_df ->
  nth_error (sort_values p_date prices) i = Some p ->
  option_map m_values (nth_error (merge_frames (sorted_prices prices) fund_df) i)
  = Some match latest_as_of fundamentals (p_date p) with
         | Some f => fr_values (fund_row_of f)
         | None => all_cells (Some NaN)
         end.
Proof.
  intros Hne Hnd Hfd Hp.
  rewrite <- nth_error_map.
  rewrite merge_frames_values by (eapply fundamentals_frame_length; eassumption).
  unfold fundamentals_frame in Hfd. destruct fundamentals as [|f fs]; [congruence|].
  destruct (reindex_ffill _ _) as [out|e] eqn:E; simpl in Hfd; [|discriminate].
  injection Hfd as <-. rewrite ffill_ticker_values, nth_error_map.
  rewrite (reindex_ffill_values _ _ _ i (p_date p) E).
  - f_equal. unfold take_padded.
    pose proof (pad_latest (f :: fs) (p_date p) Hnd) as Hpl.
    destruct (pad _ (p_date p) None) as [r|];
      destruct (latest_as_of (f :: fs) (p_date p)) as [f0|]; cbn in Hpl;
      try discriminate; [|reflexivity].
    cbn. congruence.
  - apply sort_values_sorted.
  - eapply Permutation_NoDup; [symmetry; apply (as_of_ascending_perm (f :: fs))|exact Hnd].
  - rewrite sorted_prices_map, !nth_error_map, Hp. reflexivity.
Qed.

(** ** Crossovers on the test frames *)

(** Equality then rising: one event, on the first day above. *)
Example rising_frame_golden : detect_golden_crossover rising_frame = [3].
Proof. reflexivity. Qed.

Example rising_frame_death : detect_death_cross rising_frame = [].
Proof. reflexivity. Qed.

(** The excluded rows 2 and 4 are skipped: row 3 is compared with row 1. *)
Example gap_frame_golden : detect_golden_crossover gap_frame = [3].
Proof. reflexivity. Qed.

(** A single valid row gives no event. *)
Example nan_frame_golden : detect_golden_crossover nan_frame = [].
Proof. reflexivity. Qed.

(** ** Death crosses, exclusivity and the number of events *)

Lemma death_labels_scan (df : list sma_row) :
  death_labels df = scan fge flt None 0 df.
Proof. unfold death_labels. now apply crossover_labels_scan. Qed.

Lemma death_labels_In (df : list sma_row) (i : nat) :
  In i (death_labels df) <-> death_cross_at df i.
Proof.
  rewrite death_labels_scan, scan_In. unfold death_cross_at. split.
  - intros [k [r [-> [Hr [V [Hb Hn]]]]]]. cbn [Nat.add].
    fold (previous_valid df k) in Hb.
    destruct (previous_valid df k) as [rj|] eqn:Hp; [|discriminate].
    exists r, rj. cbn in Hb. tauto.
  - intros [ri [rj [Hr [V [Hp [Hb Hn]]]]]].
    exists i, ri. fold (previous_valid df i). rewrite Hp. cbn. tauto.
Qed.

(** X1. A death-cross event is emitted at row [i] exactly when row [i] has
    both averages present and, for the previous row that has both present,
    sma_50 >= sma_200 held while at row [i] sma_50 < sma_200; the labels
    are strictly increasing, the result lists the dates of these rows in
    that order, ascending when the frame is. *)
Theorem X1_death_cross :
  forall (df : list sma_row),
    (forall i, In i (death_labels df) <-> death_cross_at df i)
    /\ StronglySorted lt (death_labels df)
    /\ detect_death_cross df
       = map (fun i => nth i (map s_date df) 0) (death_labels df)
    /\ (StronglySorted Z.le (map s_date df) ->
        StronglySorted Z.le (detect_death_cross df)).
Proof.
  intros df.
  assert (Hrange : Forall (fun i => (i < length df)%nat) (death_labels df)).
  { apply Forall_forall. intros i Hi. apply death_labels_In in Hi.
    destruct Hi as [ri [_ [Hr _]]]. apply nth_error_Some. congruence. }
  assert (Hsorted : StronglySorted lt (death_labels df)).
  { rewrite death_labels_scan. apply scan_ascending. }
  assert (Hdates : detect_death_cross df
                   = map (fun i => nth i (map s_date df) 0) (death_labels df)).
  { apply (detect_dates fge flt). exact Hrange. }
  split; [apply death_labels_In|]. split; [exact Hsorted|]. split; [exact Hdates|].
  intros Hd. rewrite Hdates. apply dates_ascending; try assumption.
  now rewrite length_map.
Qed.

Lemma flt_asym (x y : float) : flt x y = true -> flt y x = true -> False.
Proof.
  destruct x as [a|[]|], y as [b|[]|]; cbn; try discriminate.
  rewrite !negb_true_iff. intros H1 H2.
  destruct (Qle_bool b a) eqn:E1; [discriminate|].
  destruct (Qle_bool a b) eqn:E2; [discriminate|].
  destruct (Qlt_le_dec a b) as [H|H].
  - apply Qlt_le_weak, Qle_bool_iff in H. congruence.
  - apply Qle_bool_iff in H. congruence.
Qed.

(** X2. No row is reported by both detectors: a golden cross and a death
    cross never carry the same label, whatever the frame. *)
Theorem X2_crossover_exclusive :
  forall (df : list sma_row) (i : nat),
    ~ (In i (golden_labels df) /\ In i (death_labels df)).
Proof.
  intros df i [Hg Hd].
  apply golden_labels_In in Hg. apply death_labels_In in Hd.
  destruct Hg as [ri [_ [Hr [_ [_ [_ Hgt]]]]]].
  destruct Hd as [ri' [_ [Hr' [_ [_ [_ Hlt]]]]]].
  assert (ri' = ri) by congruence. subst ri'.
  unfold fgt in Hgt. exact (flt_asym _ _ Hlt Hgt).
Qed.

Lemma scan_pair_length (df : list sma_row) (prev : option sma_row) (i : nat) :
  (length (scan fle fgt prev i df) + length (scan fge flt prev i df)
   <= count_valid df)%nat.
Proof.
  unfold count_valid. revert prev i.
  induction df as [|r df IH]; intros prev i; cbn [scan filter]; [simpl; lia|].
  destruct (both_notna r); [|apply IH].
  specialize (IH (Some r) (S i)). rewrite !length_app. cbn [length].
  destruct (met_before fle prev && fgt (s_sma_50 r) (s_sma_200 r)) eqn:G;
    destruct (met_before fge prev && flt (s_sma_50 r) (s_sma_200 r)) eqn:D;
    cbn [length]; try lia.
  exfalso. apply andb_true_iff in G, D. destruct G as [_ G], D as [_ D].
  exact (flt_asym _ _ D G).
Qed.

Lemma scan_pair_length_first (df : list sma_row) (i : nat) :
  (length (scan fle fgt None i df) + length (scan fge flt None i df)
   <= count_valid df - 1)%nat.
Proof.
  unfold count_valid. revert i.
  induction df as [|r df IH]; intros i; cbn [scan filter]; [simpl; lia|].
  destruct (both_notna r); [|apply IH].
  cbn. pose proof (scan_pair_length df (Some r) (S i)) as H.
  unfold count_valid in H. lia.
Qed.

(** X3. Together the two detectors emit at most one event per valid row
    after the first: with fewer than two rows having both averages present,
    both results are empty. *)
Theorem X3_event_count :
  forall (df : list sma_row),
    (length (detect_golden_crossover df) + length (detect_death_cross df)
     <= count_valid df - 1)%nat
    /\ ((count_valid df < 2)%nat ->
        detect_golden_crossover df = [] /\ detect_death_cross df = []).
Proof.
  intros df.
  assert (Hlen : (length (detect_golden_crossover df) + length (detect_death_cross df)
                  <= count_valid df - 1)%nat).
  { unfold detect_golden_crossover, detect_death_cross, detect.
    fold (golden_labels df). fold (death_labels df).
    pose proof (collect_length (fun i => option_map s_date (nth_error df i)) (golden_labels df)).
    pose proof (collect_length (fun i => option_map s_date (nth_error df i)) (death_labels df)).
    pose proof (scan_pair_length_first df 0) as H1.
    rewrite <- golden_labels_scan, <- death_labels_scan in H1. lia. }
  split; [exact Hlen|]. intros Hlt.
  destruct (detect_golden_crossover df); destruct (detect_death_cross df);
    cbn [length] in Hlen; try (split; reflexivity); lia.
Qed.

(** ** The trailing maximum *)

Lemma fold_fmax_spec (l : list Q) (a : Q) :
  exists b, fold_left fmax (map Fin l) (Fin a) = Fin b
            /\ In b (a :: l) /\ (forall c, In c (a :: l) -> c <= b)%Q.
Proof.
  revert a. induction l as [|x l IH]; intros a; cbn [map fold_left].
  - exists a. split; [reflexivity|]. split; [now left|].
    intros c [<-|[]]. apply Qle_refl.
  - unfold fmax at 2. cbn [fle]. destruct (Qle_bool a x) eqn:E.
    + apply Qle_bool_iff in E. destruct (IH x) as [b [Hb [Hin Hmax]]].
      exists b. split; [exact Hb|]. split; [now right|].
      intros c [<-|Hc]; [|now apply Hmax].
      eapply Qle_trans; [exact E|]. apply Hmax. now left.
    + destruct (IH a) as [b [Hb [Hin Hmax]]].
      exists b. split; [exact Hb|]. split.
      * destruct Hin as [<-|Hin]; [now left|right; now right].
      * intros c [<-|[<-|Hc]].
        -- apply Hmax. now left.
        -- assert (Hxa : (x <= a)%Q).
           { destruct (Qlt_le_dec a x) as [H|H]; [|exact H].
             apply Qlt_le_weak, Qle_bool_iff in H. congruence. }
           eapply Qle_trans; [exact Hxa|]. apply Hmax. now left.
        -- apply Hmax. now right.
Qed.

Lemma slice_nth {A : Type} (lo i : nat) (l : list A) :
  (lo <= i)%nat -> nth_error (slice lo i l) (i - lo) = nth_error l i.
Proof.
  intros Hlo. unfold slice. rewrite nth_error_firstn, nth_error_skipn.
  replace (i - lo <? i + 1 - lo)%nat with true by (symmetry; apply Nat.ltb_lt; lia).
  f_equal. lia.
Qed.

Lemma slice_last_In {A : Type} (lo i : nat) (l : list A) (x : A) :
  (lo <= i)%nat -> nth_error l i = Some x -> In x (slice lo i l).
Proof.
  intros Hlo Hx. apply (nth_error_In _ (i - lo)). now rewrite slice_nth.
Qed.

Lemma In_slice {A : Type} (lo hi : nat) (l : list A) (x : A) :
  In x (slice lo hi l) -> In x l.
Proof.
  intros H.
  assert (HF : Forall (fun y => In y l) (slice lo hi l)).
  { apply Forall_slice, Forall_forall. auto. }
  rewrite Forall_forall in HF. now apply HF.
Qed.

Lemma filter_prepared (xs : list float) :
  filter notna (map inf_to_nan xs) = map Fin (finite_values xs).
Proof.
  induction xs as [|[q|s|] xs IH]; cbn; rewrite ?IH; reflexivity.
Qed.

Lemma In_finite_values (xs : list float) (c : Q) :
  In c (finite_values xs) <-> In (Fin c) xs.
Proof.
  unfold finite_values. rewrite in_flat_map. split.
  - intros [x [Hx Hc]]. destruct x; cbn in Hc; try tauto.
    destruct Hc as [<-|[]]. exact Hx.
  - intros H. exists (Fin c). split; [exact H|now left].
Qed.

(** The rolling maximum of a window: the greatest of its numbers, NaN when
    it holds none. *)
Lemma window_max_prepared (xs : list float) :
  (window_max 1 (map inf_to_nan xs) = NaN /\ finite_values xs = [])
  \/ exists h, window_max 1 (map inf_to_nan xs) = Fin h /\ In (Fin h) xs
               /\ forall c, In (Fin c) xs -> (c <= h)%Q.
Proof.
  unfold window_max. rewrite filter_prepared.
  destruct (finite_values xs) as [|c cs] eqn:E; [left; split; reflexivity|right].
  cbn [map].
  replace (length (Fin c :: map Fin cs) <? 1)%nat with false
    by (symmetry; apply Nat.ltb_ge; cbn; lia).
  destruct (fold_fmax_spec cs c) as [b [Hb [Hin Hmax]]].
  exists b. split; [exact Hb|]. split.
  - apply In_finite_values. rewrite E. exact Hin.
  - intros c' Hc'. apply Hmax. rewrite <- E. now apply In_finite_values.
Qed.

(** Row [i] of the fallback frame, with its trailing maximum over the
    converted closes of the rows [[i - 251, i]]. *)
Lemma fallback_frame_high (prices : list PriceData) (i : nat) (r : price_row * indicators) :
  nth_error (fallback_frame (sorted_prices prices)) i = Some r ->
  exists p,
    nth_error (sort_values p_date prices) i = Some p
    /\ fst r = price_row_of p
    /\ i_pct_from_high_52w (snd r)
       = pct_from_high (float_of_Q (p_close p)) (i_high_52w (snd r))
    /\ In (float_of_Q (p_close p))
         (slice (i - 251) i (map float_of_Q (closes_by_date prices)))
    /\ ((i_high_52w (snd r) = NaN
         /\ finite_values (slice (i - 251) i (map float_of_Q (closes_by_date prices))) = [])
        \/ exists h,
             i_high_52w (snd r) = Fin h
             /\ In (Fin h) (slice (i - 251) i (map float_of_Q (closes_by_date prices)))
             /\ forall c,
                  In (Fin c) (slice (i - 251) i (map float_of_Q (closes_by_date prices))) ->
                  (c <= h)%Q).
Proof.
  intros Hr.
  destruct (fallback_frame_cells prices i r Hr) as [p [Hp [Hfst [_ [_ [Hh Hpct]]]]]].
  exists p. split; [exact Hp|]. split; [exact Hfst|]. split; [exact Hpct|]. split.
  - apply (slice_last_In _ _ _ (float_of_Q (p_close p))); [lia|].
    unfold closes_by_date. now rewrite !nth_error_map, Hp.
  - rewrite Hh, slice_map. apply window_max_prepared.
Qed.

Lemma converted_close_fixed (prices : list PriceData) (lo hi : nat) (h : Q) :
  In (Fin h) (slice lo hi (map float_of_Q (closes_by_date prices))) ->
  round64 h = Fin h.
Proof.
  intros H. apply In_slice, in_map_iff in H. destruct H as [q [Hq _]].
  exact (round64_fixed q h Hq).
Qed.

(** X4. With pairwise distinct dates, [high_52w] at index [i] of the
    date-ordered timeline, in the merged frame and in the fallback frame, is
    the greatest of the converted closes of the rows [[max(0, i - 251), i]]
    that are numbers: it is one of them and none exceeds it; it is NaN only
    when every close of the window overflows.  The row built from that frame
    row carries it as it prints. *)
Theorem X4_high_52w :
  forall (prices : list PriceData) (i : nat),
    NoDup (map p_date prices) ->
    (i < length prices)%nat ->
    exists ind : indicators,
      option_map snd (nth_error (fallback_frame (sorted_prices prices)) i) = Some ind
      /\ (forall fund_df, length fund_df = length prices ->
            option_map m_ind (nth_error (merge_frames (sorted_prices prices) fund_df) i)
            = Some ind)
      /\ ((i_high_52w ind = NaN
           /\ Forall (fun x => is_inf x = true)
                (slice (Nat.max 0 (i - 251)) i (map float_of_Q (closes_by_date prices))))
          \/ exists h,
               i_high_52w ind = Fin h
               /\ In (Fin h)
                    (slice (Nat.max 0 (i - 251)) i (map float_of_Q (closes_by_date prices)))
               /\ forall c,
                    In (Fin c)
                      (slice (Nat.max 0 (i - 251)) i
                         (map float_of_Q (closes_by_date prices))) ->
                    (c <= h)%Q)
      /\ (forall r m, nth_error (fallback_frame (sorted_prices prices)) i = Some r ->
            metrics_of_fallback r = Some m ->
            exists h, i_high_52w ind = Fin h /\ dm_high_52w m = Some (repr64 h)).
Proof.
  intros prices i _ Hi.
  destruct (frame_row_defined prices i Hi) as [r [Hr Hmerged]].
  destruct (fallback_frame_high prices i r Hr) as [p [_ [_ [_ [_ Hhigh]]]]].
  exists (snd r). split; [now rewrite Hr|]. split; [exact Hmerged|]. split.
  - cbn [Nat.max]. destruct Hhigh as [[Hnan Hnone]|Hsome]; [left|right; exact Hsome].
    split; [exact Hnan|]. apply Forall_forall. intros x Hx.
    destruct x as [c|s|]; [| reflexivity |].
    + apply In_finite_values in Hx. rewrite Hnone in Hx. destruct Hx.
    + apply In_slice, in_map_iff in Hx. destruct Hx as [q [Hq _]].
      exfalso. exact (round64_not_nan q Hq).
  - intros r' m Hr' Hm. rewrite Hr in Hr'. injection Hr' as <-.
    apply metrics_of_fallback_fields in Hm.
    destruct Hm as [_ [_ [_ [_ [_ [_ [[h [Hm Hh]] _]]]]]]]. eauto.
Qed.

Lemma X4_high_52w_witness :
  exists ind : indicators,
    option_map snd (nth_error (fallback_frame (sorted_prices scenario_prices)) 1) = Some ind
    /\ (forall fund_df, length fund_df = length scenario_prices ->
          option_map m_ind (nth_error (merge_frames (sorted_prices scenario_prices) fund_df) 1)
          = Some ind)
    /\ ((i_high_52w ind = NaN
         /\ Forall (fun x => is_inf x = true)
              (slice (Nat.max 0 (1 - 251)) 1
                 (map float_of_Q (closes_by_date scenario_prices))))
        \/ exists h,
             i_high_52w ind = Fin h
             /\ In (Fin h)
                  (slice (Nat.max 0 (1 - 251)) 1
                     (map float_of_Q (closes_by_date scenario_prices)))
             /\ forall c,
                  In (Fin c)
                    (slice (Nat.max 0 (1 - 251)) 1
                       (map float_of_Q (closes_by_date scenario_prices))) ->
                  (c <= h)%Q)
    /\ (forall r m, nth_error (fallback_frame (sorted_prices scenario_prices)) 1 = Some r ->
          metrics_of_fallback r = Some m ->
          exists h, i_high_52w ind = Fin h /\ dm_high_52w m = Some (repr64 h)).
Proof.
  apply (X4_high_52w scenario_prices 1).
  - apply is_unique_NoDup. vm_compute. reflexivity.
  - simpl. lia.
Defined.

(** ** The distance to the maximum *)

Lemma round64_le (q b r : Q) :
  representable b -> (q <= b)%Q -> round64 q = Fin r -> (r <= b)%Q.
Proof.
  intros Hb Hq Hr. pose proof (round64_mono _ _ Hq) as M.
  rewrite Hr, (round64_exact b Hb) in M. cbn in M.
  apply Qle_bool_iff in M. now rewrite Qred_correct in M.
Qed.

Lemma representable_small (z : Z) : Z.abs z <= 100 -> representable (inject_Z z).
Proof. intros H. apply representable_Z. cbn. lia. Qed.

Lemma repr64_zero : repr64 0 = 0%Q.
Proof. reflexivity. Qed.

Lemma pct_from_high_steps (c h p : Q) :
  pct_from_high (Fin c) (Fin h) = Fin p ->
  Qzero h = false
  /\ exists d e, round64 (c / h) = Fin d /\ round64 (d - 1) = Fin e
                 /\ round64 (e * 100) = Fin p.
Proof.
  unfold pct_from_high. cbn [fdiv]. destruct (Qzero h).
  { destruct (Qzero c); cbn; discriminate. }
  destruct (round64 (c / h)) as [d|s|]; cbn [fsub]; [|cbn; discriminate|cbn; discriminate].
  destruct (round64 (d - 1)) as [e|s|] eqn:Ee; cbn [fmul];
    [|cbn; discriminate|discriminate].
  intros H. split; [reflexivity|]. exists d, e.
  split; [reflexivity|]. split; [exact Ee|exact H].
Qed.

Lemma pct_from_high_nonpos (c h p : Q) :
  (0 < h)%Q -> (c <= h)%Q -> pct_from_high (Fin c) (Fin h) = Fin p -> (p <= 0)%Q.
Proof.
  intros Hh Hc Hp. apply pct_from_high_steps in Hp.
  destruct Hp as [_ [d [e [Hd [He Hp]]]]].
  assert (Hdiv : (c / h <= 1)%Q).
  { apply Qle_shift_div_r; [exact Hh|]. now rewrite Qmult_1_l. }
  pose proof (round64_le _ 1 d (representable_small 1 ltac:(lia)) Hdiv Hd) as Hd1.
  assert (He0 : (e <= 0)%Q).
  { apply (round64_le (d - 1) 0 e representable_zero); [lra|exact He]. }
  apply (round64_le (e * 100) 0 p representable_zero); [lra|exact Hp].
Qed.

Lemma pct_from_high_finite (c h : Q) :
  (0 <= c)%Q -> (c <= h)%Q -> (0 < h)%Q ->
  is_fin (pct_from_high (Fin c) (Fin h)) = true.
Proof.
  intros Hc Hch Hh. unfold pct_from_high. cbn [fdiv].
  replace (Qzero h) with false
    by (symmetry; apply Qzero_false_iff; intro E; rewrite E in Hh; discriminate Hh).
  destruct (round64_between 0 1 (c / h)) as [d [-> [Hd0 Hd1]]].
  - apply representable_zero.
  - apply (representable_small 1). lia.
  - apply Qle_shift_div_l; [exact Hh|]. lra.
  - apply Qle_shift_div_r; [exact Hh|]. now rewrite Qmult_1_l.
  - cbn [fsub].
    destruct (round64_between (inject_Z (-1)) 0 (d - 1)) as [e [-> [He0 He1]]].
    + apply representable_small. cbn. lia.
    + apply representable_zero.
    + change (inject_Z (-1)) with (-1)%Q. lra.
    + lra.
    + cbn [fmul].
      destruct (round64_between (inject_Z (-100)) 0 (e * 100)) as [p [-> _]].
      * apply representable_small. cbn. lia.
      * apply representable_zero.
      * change (inject_Z (-1)) with (-1)%Q in He0.
        change (inject_Z (-100)) with (-100)%Q. lra.
      * lra.
      * reflexivity.
Qed.

(** X5. On every returned row [high_52w] is present, non-zero and at least
    the close, and [pct_from_high_52w] is present: read back as floats, the
    close and [high_52w] of the row give its [pct_from_high_52w] by
    [(close / high_52w - 1) * 100] in binary64 arithmetic; it is never
    positive when [high_52w] is positive. *)
Theorem X5_pct_from_high :
  forall (prices : list PriceData) (fundamentals : list FundamentalData)
         (rows : list DailyMetrics) (m : DailyMetrics),
    process_data prices fundamentals = Ok rows -> In m rows ->
    exists h p,
      dm_high_52w m = Some h /\ dm_pct_from_high_52w m = Some p
      /\ (~ h == 0)%Q /\ (dm_close m <= h)%Q
      /\ pct_from_high (float_of_Q (dm_close m)) (float_of_Q h) = float_of_Q p
      /\ ((0 < h)%Q -> (p <= 0)%Q).
Proof.
  intros prices fundamentals rows m Hrows Hin.
  destruct (process_data_row_origin _ _ _ _ Hrows Hin) as [i [r [Hr Hm]]].
  destruct (fallback_frame_high prices i r Hr) as [p0 [_ [Hfst [Hpct [Hcur Hhigh]]]]].
  apply metrics_of_fallback_fields in Hm.
  destruct Hm as [_ [_ [_ [[c [Hmc Hc]] [_ [_ [[h [Hmh Hh]] [p [Hmp Hp]]]]]]]]].
  rewrite Hfst in Hc. cbn [price_row_of pr_close] in Hc.
  rewrite Hc, Hh, Hp in Hpct. rewrite Hc in Hcur.
  destruct Hhigh as [[Hnan _]|[h' [Hh' [Hinh Hmax]]]]; [congruence|].
  rewrite Hh in Hh'. injection Hh' as <-.
  pose proof (round64_fixed _ _ Hc) as Fc.
  pose proof (converted_close_fixed _ _ _ _ Hinh) as Fh.
  assert (Fp : round64 p = Fin p).
  { symmetry in Hpct. apply pct_from_high_steps in Hpct.
    destruct Hpct as [_ [d [e [_ [_ Hpp]]]]]. exact (round64_fixed _ _ Hpp). }
  pose proof (Hmax c Hcur) as Hch.
  assert (Hnz : ~ (h == 0)%Q).
  { intros Hz. pose proof (is_fin_fdiv_zero (Fin c) h Hz) as Hf.
    rewrite <- Hpct in Hf. discriminate Hf. }
  exists (repr64 h), (repr64 p). rewrite Hmc.
  split; [exact Hmh|]. split; [exact Hmp|]. split.
  { intros Hz. apply Hnz. now apply (repr64_zero_iff h Fh). }
  split; [now apply repr64_mono|]. split.
  { unfold float_of_Q. rewrite !repr64_round_trip by assumption. now symmetry. }
  intros Hpos.
  assert (Hhpos : (0 < h)%Q).
  { destruct (Qlt_le_dec 0 h) as [H|H]; [exact H|]. exfalso.
    pose proof (repr64_mono h 0 Fh (round64_zero 0 (Qeq_refl 0)) H) as M.
    rewrite repr64_zero in M. lra. }
  symmetry in Hpct. pose proof (pct_from_high_nonpos c h p Hhpos Hch Hpct) as Hp0.
  pose proof (repr64_mono p 0 Fp (round64_zero 0 (Qeq_refl 0)) Hp0) as M.
  now rewrite repr64_zero in M.
Qed.

Lemma X5_pct_from_high_witness :
  exists h p,
    dm_high_52w (mkDailyMetrics 738521 EmptyString 11 (Some 11%Q) (Some 11%Q) (Some 11%Q)
                   (Some 0%Q) None None None) = Some h
    /\ Some 0%Q = Some p
    /\ (~ h == 0)%Q /\ (11 <= h)%Q
    /\ pct_from_high (float_of_Q 11) (float_of_Q h) = float_of_Q p
    /\ ((0 < h)%Q -> (p <= 0)%Q).
Proof.
  refine (X5_pct_from_high scenario_prices scenario_fundamentals _ _ _ _).
  - vm_compute. reflexivity.
  - left. reflexivity.
Defined.

(** ** Order of the returned rows *)

Lemma sorted_strict {A : Type} (key : A -> date) (l : list A) :
  StronglySorted (fun a b => key a <= key b) l -> NoDup (map key l) ->
  StronglySorted (fun a b => key a < key b) l.
Proof.
  induction 1 as [|x l Hs IH Hx]; intros Hnd; constructor.
  - apply IH. now inversion Hnd.
  - inversion Hnd as [|? ? Hnin _]; subst.
    rewrite Forall_forall in *. intros y Hy. specialize (Hx y Hy).
    destruct (Z.eq_dec (key x) (key y)) as [E|E]; [|lia].
    exfalso. apply Hnin. rewrite E. now apply in_map.
Qed.

Lemma combine_sorted {A B : Type} (R : A -> A -> Prop) (a : list A) (b : list B) :
  StronglySorted R a -> StronglySorted (fun x y => R (fst x) (fst y)) (combine a b).
Proof.
  intros Hs. revert b. induction Hs as [|x a Hs IH Hx]; intros [|y b]; cbn [combine];
    try constructor.
  - apply IH.
  - rewrite Forall_forall in *. intros [x' y'] Hin. apply in_combine_l in Hin.
    now apply Hx.
Qed.

Lemma collect_sorted {A B : Type} (R : Z -> Z -> Prop) (kA : A -> Z) (kB : B -> Z)
    (f : A -> option B) (l : list A) :
  (forall x y, f x = Some y -> kB y = kA x) ->
  StronglySorted (fun a b => R (kA a) (kA b)) l ->
  StronglySorted (fun a b => R (kB a) (kB b)) (collect f l).
Proof.
  intros Hk. induction 1 as [|x l Hs IH Hx]; cbn [collect]; [constructor|].
  destruct (f x) as [y|] eqn:E; [|exact IH].
  constructor; [exact IH|].
  rewrite Forall_forall in *. intros y' Hy'. apply collect_In in Hy'.
  destruct Hy' as [x' [Hx' Hf]].
  rewrite (Hk _ _ E), (Hk _ _ Hf). now apply Hx.
Qed.

Lemma sorted_map {A : Type} (R : Z -> Z -> Prop) (k : A -> Z) (l : list A) :
  StronglySorted (fun a b => R (k a) (k b)) l -> StronglySorted R (map k l).
Proof.
  induction 1 as [|x l Hs IH Hx]; cbn [map]; constructor; [exact IH|].
  rewrite Forall_forall in *. intros z Hz. apply in_map_iff in Hz.
  destruct Hz as [y [<- Hy]]. now apply Hx.
Qed.

Lemma metrics_of_fallback_date (r : price_row * indicators) (m : DailyMetrics) :
  metrics_of_fallback r = Some m -> dm_date m = pr_date (fst r).
Proof. intros H. now apply metrics_of_fallback_fields in H. Qed.

Lemma sorted_prices_dates_perm (prices : list PriceData) :
  Permutation (map pr_date (sorted_prices prices)) (map p_date prices).
Proof.
  rewrite sorted_prices_map, map_map. cbn.
  apply Permutation_map, sort_values_perm.
Qed.

(** X6. The returned rows are in ascending date order whatever the order of
    the input prices, strictly ascending (one row per date) when the price
    dates are pairwise distinct, and each row carries the date of one of the
    input price rows and its close as the float conversion prints it, which
    reads back as the same float as the input close. *)
Theorem X6_rows_in_date_order :
  forall (prices : list PriceData) (fundamentals : list FundamentalData)
         (rows : list DailyMetrics),
    process_data prices fundamentals = Ok rows ->
    StronglySorted Z.le (map dm_date rows)
    /\ (NoDup (map p_date prices) -> StronglySorted Z.lt (map dm_date rows))
    /\ (forall m, In m rows ->
          exists p, In p prices /\ dm_date m = p_date p
                    /\ DFin (dm_close m) = Decimal_of_str (float_of_Q (p_close p))
                    /\ float_of_Q (dm_close m) = float_of_Q (p_close p)).
Proof.
  intros prices fundamentals rows Hrows.
  pose proof (process_data_rows _ _ _ Hrows) as ->.
  pose proof (sort_values_sorted pr_date (map price_row_of prices)) as Hs.
  fold (sorted_prices prices) in Hs.
  split; [|split].
  - apply sorted_map. unfold fallback_metrics.
    apply (collect_sorted Z.le (fun r => pr_date (fst r)) dm_date).
    + apply metrics_of_fallback_date.
    + unfold fallback_frame. apply (combine_sorted (fun a b => pr_date a <= pr_date b)), Hs.
  - intros Hnd. apply sorted_map. unfold fallback_metrics.
    apply (collect_sorted Z.lt (fun r => pr_date (fst r)) dm_date).
    + apply metrics_of_fallback_date.
    + unfold fallback_frame. apply (combine_sorted (fun a b => pr_date a < pr_date b)).
      apply sorted_strict; [exact Hs|].
      eapply Permutation_NoDup; [symmetry; apply sorted_prices_dates_perm|exact Hnd].
  - intros m Hin.
    destruct (process_data_row_origin _ _ _ _ Hrows Hin) as [i [r [Hr Hm]]].
    destruct (fallback_frame_row prices i r Hr) as [p [Hp [Hfst _]]].
    apply metrics_of_fallback_fields in Hm.
    destruct Hm as [Hd [_ [_ [[c [Hmc Hc]] _]]]].
    rewrite Hfst in Hd, Hc. cbn [price_row_of pr_date pr_close] in Hd, Hc.
    exists p. split.
    + eapply Permutation_in; [apply sort_values_perm|]. eapply nth_error_In; eassumption.
    + split; [exact Hd|]. rewrite Hc, Hmc. split; [reflexivity|].
      unfold float_of_Q. apply repr64_round_trip. exact (round64_fixed _ _ Hc).
Qed.

Lemma X6_rows_in_date_order_witness :
  StronglySorted Z.le (map dm_date (fallback_metrics (sorted_prices scenario_prices))).
Proof.
  refine (proj1 (X6_rows_in_date_order scenario_prices scenario_fundamentals _ _)).
  vm_compute. reflexivity.
Defined.

(** X7. When the closes are positive and lie on a binary grid (multiples
    of [2^-s], at most [2^43] of them), no row is dropped: the result has
    exactly one row per price row, so it is non-empty as soon as there is a
    price row. *)
Theorem X7_positive_closes_all_rows :
  forall (s : Z) (prices : list PriceData) (fundamentals : list FundamentalData)
         (rows : list DailyMetrics),
    process_data prices fundamentals = Ok rows ->
    exact_closes s prices ->
    (forall p, In p prices -> (0 < p_close p)%Q) ->
    length rows = length prices /\ (prices <> [] -> rows <> []).
Proof.
  intros s prices fundamentals rows Hrows Hgrid Hpos.
  pose proof (process_data_rows _ _ _ Hrows) as ->.
  pose proof (closes_on_grid s prices Hgrid) as Hl.
  destruct Hgrid as [Hs Hall].
  assert (Hlen : length (fallback_metrics (sorted_prices prices)) = length prices).
  { apply fallback_metrics_length, Forall_forall. intros r Hr.
    apply In_nth_error in Hr. destruct Hr as [i Hi].
    destruct (fallback_frame_cells prices i r Hi) as [p [Hp [Hfst [H50 [H200 _]]]]].
    destruct (fallback_frame_high prices i r Hi) as [p' [Hp' [_ [Hpct [Hcur Hhigh]]]]].
    rewrite Hp in Hp'. injection Hp' as <-.
    assert (Hin : In p prices).
    { eapply Permutation_in; [apply sort_values_perm|]. eapply nth_error_In; eassumption. }
    assert (Hg : on_grid s 1 (p_close p)).
    { rewrite Forall_forall in Hall. now apply Hall. }
    assert (Hc : float_of_Q (p_close p) = Fin (Qred (p_close p))).
    { exact (round64_grid s 1 _ _ Hs ltac:(lia) Hg (Qeq_refl _)). }
    assert (Hi' : (i < length (closes_by_date prices))%nat).
    { apply nth_error_Some. unfold closes_by_date. rewrite nth_error_map, Hp. discriminate. }
    rewrite (roll_mean_grid s 50 _ i Hs ltac:(lia) Hl Hi') in H50.
    rewrite (roll_mean_grid s 200 _ i Hs ltac:(lia) Hl Hi') in H200.
    injection H50 as H50. injection H200 as H200.
    unfold finite_row. rewrite Hfst. cbn [fst price_row_of pr_close].
    rewrite Hc, <- H50, <- H200.
    rewrite !(round64_mean_finite s) by (try lia; apply Forall_slice, Hl).
    rewrite Hc in Hcur, Hpct.
    destruct Hhigh as [[_ Hnone]|[h [Hh [_ Hmax]]]].
    { apply In_finite_values in Hcur. rewrite Hnone in Hcur. destruct Hcur. }
    rewrite Hpct, Hh. cbn [is_fin andb].
    specialize (Hmax _ Hcur). specialize (Hpos p Hin).
    rewrite Qred_correct in Hmax.
    apply pct_from_high_finite; rewrite ?Qred_correct; lra. }
  split; [exact Hlen|]. intros Hne Hnil. rewrite Hnil in Hlen.
  destruct prices; [congruence|discriminate].
Qed.

Lemma X7_positive_closes_all_rows_witness :
  length (fallback_metrics (sorted_prices scenario_prices)) = length scenario_prices.
Proof.
  refine (proj1 (X7_positive_closes_all_rows 0 scenario_prices scenario_fundamentals
                   _ _ _ _)).
  - vm_compute. reflexivity.
  - split; [lia|].
    repeat constructor;
      [exists 11|exists 12|exists 13]; (split; [lia|reflexivity]).
  - intros p [<-|[<-|[<-|[]]]]; reflexivity.
Defined.

(** ** When [process_data] raises, and what it ignores *)

(** X8. [process_data] raises exactly when the price list is non-empty, two
    observations share an [as_of] date and the ascending [as_of] dates differ
    from the ascending price dates; the exception is then the [ValueError] of
    the re-index.  In every other case it returns. *)
Theorem X8_raises_exactly :
  forall (prices : list PriceData) (fundamentals : list FundamentalData),
    ((exists e, process_data prices fundamentals = Raise e)
     <-> (prices <> []
          /\ ~ NoDup (map f_as_of fundamentals)
          /\ as_of_ascending fundamentals <> price_dates_ascending prices))
    /\ (forall e, process_data prices fundamentals = Raise e ->
          e = ValueError "cannot reindex on an axis with duplicate labels").
Proof.
  intros prices fundamentals.
  assert (Hraise : prices <> [] -> ~ NoDup (map f_as_of fundamentals) ->
                   as_of_ascending fundamentals <> price_dates_ascending prices ->
                   process_data prices fundamentals
                   = Raise (ValueError "cannot reindex on an axis with duplicate labels")).
  { intros Hne Hdup Hdiff. rewrite process_data_fallback by assumption.
    now rewrite (fundamentals_frame_raise _ _ Hdup Hdiff). }
  assert (Hcases : (exists e, process_data prices fundamentals = Raise e) ->
                   prices <> []
                   /\ ~ NoDup (map f_as_of fundamentals)
                   /\ as_of_ascending fundamentals <> price_dates_ascending prices).
  { intros [e He].
    assert (Hne : prices <> []) by (intros ->; discriminate He).
    split; [exact Hne|].
    rewrite process_data_fallback in He by assumption.
    split; intros H;
      destruct (fundamentals_frame_ok (sorted_prices prices) fundamentals) as [fd Hfd];
      try (rewrite Hfd in He; discriminate He).
    - now left.
    - right. exact H. }
  split; [split; [exact Hcases|]|].
  - intros [Hne [Hdup Hdiff]]. eexists. now apply Hraise.
  - intros e He. destruct (Hcases (ex_intro _ e He)) as [Hne [Hdup Hdiff]].
    rewrite (Hraise Hne Hdup Hdiff) in He. congruence.
Qed.

Lemma strict_sorted_perm_eq {A : Type} (key : A -> date) (l1 l2 : list A) :
  StronglySorted (fun a b => key a < key b) l1 ->
  StronglySorted (fun a b => key a < key b) l2 ->
  Permutation l1 l2 -> l1 = l2.
Proof.
  intros H1. revert l2. induction H1 as [|x l1 Hs1 IH Hx]; intros l2 H2 Hp.
  - now apply Permutation_nil in Hp.
  - destruct l2 as [|y l2]; [apply Permutation_sym, Permutation_nil in Hp; discriminate|].
    apply StronglySorted_inv in H2. destruct H2 as [Hs2 Hy].
    rewrite Forall_forall in Hx, Hy.
    assert (Exy : x = y).
    { assert (Hin1 : In x (y :: l2)) by (eapply Permutation_in; [exact Hp|now left]).
      assert (Hin2 : In y (x :: l1))
        by (eapply Permutation_in; [symmetry; exact Hp|now left]).
      destruct Hin1 as [->|Hin1]; [reflexivity|].
      destruct Hin2 as [->|Hin2]; [reflexivity|].
      specialize (Hx y Hin2). specialize (Hy x Hin1). lia. }
    subst y. f_equal. apply IH; [exact Hs2|]. eapply Permutation_cons_inv, Hp.
Qed.

Lemma sort_values_perm_eq {A : Type} (key : A -> date) (l l' : list A) :
  Permutation l l' -> NoDup (map key l) -> sort_values key l = sort_values key l'.
Proof.
  intros Hp Hnd.
  assert (Hnd' : NoDup (map key l')).
  { eapply Permutation_NoDup; [apply Permutation_map, Hp|exact Hnd]. }
  apply (strict_sorted_perm_eq key).
  - apply sorted_strict; [apply sort_values_sorted|].
    eapply Permutation_NoDup; [symmetry; apply Permutation_map, sort_values_perm|exact Hnd].
  - apply sorted_strict; [apply sort_values_sorted|].
    eapply Permutation_NoDup; [symmetry; apply Permutation_map, sort_values_perm|exact Hnd'].
  - rewrite !sort_values_perm. exact Hp.
Qed.

(** X9. The order in which the price records are given does not matter:
    with pairwise distinct price dates, [process_data] gives the same result
    (rows or exception) on any rearrangement of the price list. *)
Theorem X9_price_order_irrelevant :
  forall (prices prices' : list PriceData) (fundamentals : list FundamentalData),
    Permutation prices prices' ->
    NoDup (map p_date prices) ->
    process_data prices fundamentals = process_data prices' fundamentals.
Proof.
  intros prices prices' fundamentals Hp Hnd.
  assert (Hs : sorted_prices prices = sorted_prices prices').
  { unfold sorted_prices. apply sort_values_perm_eq.
    - apply Permutation_map, Hp.
    - now rewrite map_map. }
  destruct prices as [|p ps]; destruct prices' as [|p' ps'].
  - reflexivity.
  - apply Permutation_nil in Hp. discriminate.
  - apply Permutation_sym, Permutation_nil in Hp. discriminate.
  - unfold process_data. now rewrite Hs.
Qed.

Lemma X9_price_order_irrelevant_witness :
  process_data scenario_prices scenario_fundamentals
  = process_data (rev scenario_prices) scenario_fundamentals.
Proof.
  apply X9_price_order_irrelevant.
  - apply Permutation_rev.
  - apply is_unique_NoDup. vm_compute. reflexivity.
Defined.

(** X10. The merged frame carries fundamentals forward by date: with
    pairwise distinct [as_of] dates, the numeric fundamental cells of row
    [i] are those of the latest observation with [as_of <= ] the date of row
    [i] (as floats, NaN for a missing field), all NaN when no observation
    precedes that date, and all [None] when there are no fundamentals. *)
Theorem X10_merge_carries_forward :
  forall (prices : list PriceData) (fundamentals : list FundamentalData)
         (fund_df : list fund_row) (i : nat) (p : PriceData),
    NoDup (map f_as_of fundamentals) ->
    fundamentals_frame (sorted_prices prices) fundamentals = Ok fund_df ->
    nth_error (sort_values p_date prices) i = Some p ->
    option_map m_values (nth_error (merge_frames (sorted_prices prices) fund_df) i)
    = Some match fundamentals with
           | [] => all_cells None
           | _ :: _ =>
               match latest_as_of fundamentals (p_date p) with
               | Some f => fr_values (fund_row_of f)
               | None => all_cells (Some NaN)
               end
           end.
Proof.
  intros prices fundamentals fund_df i p Hnd Hfd Hp.
  destruct fundamentals as [|f fs].
  - cbn in Hfd. injection Hfd as <-.
    rewrite <- nth_error_map.
    rewrite merge_frames_values by (unfold empty_fund_df; now rewrite length_map).
    unfold empty_fund_df. rewrite map_map. cbn [fr_values].
    rewrite sorted_prices_map, map_map, nth_error_map, Hp. reflexivity.
  - apply merged_carry_forward; try assumption. discriminate.
Qed.

Lemma X10_merge_carries_forward_witness :
  option_map m_values
    (nth_error (merge_frames (sorted_prices scenario_prices)
                  (ffill_ticker None
                     (map (take_padded [fund_row_of scenario_fundamental])
                        (map pr_date (sorted_prices scenario_prices))))) 0)
  = Some (fr_values (fund_row_of scenario_fundamental)).
Proof.
  refine (X10_merge_carries_forward scenario_prices scenario_fundamentals _ 0
            (price 738521 10 12 9 11 1000) _ _ _).
  - apply is_unique_NoDup. vm_compute. reflexivity.
  - vm_compute. reflexivity.
  - vm_compute. reflexivity.
Defined.

(** ** Detection on the returned rows *)

Lemma metrics_frame_nth (rows : list DailyMetrics) (i : nat) :
  nth_error (metrics_frame rows) i
  = option_map (fun m => mkSmaRow (dm_date m) (cell_of (dm_sma_50 m)) (cell_of (dm_sma_200 m)))
      (nth_error rows i).
Proof. unfold metrics_frame. apply nth_error_map. Qed.

Lemma process_data_sma_present (prices : list PriceData) (fundamentals : list FundamentalData)
    (rows : list DailyMetrics) (m : DailyMetrics) :
  process_data prices fundamentals = Ok rows -> In m rows ->
  exists a b, dm_sma_50 m = Some a /\ dm_sma_200 m = Some b.
Proof.
  intros Hrows Hin.
  destruct (process_data_row_origin _ _ _ _ Hrows Hin) as [i [r [_ Hm]]].
  apply metrics_of_fallback_fields in Hm.
  destruct Hm as [_ [_ [_ [_ [[a [Ha _]] [[b [Hb _]] _]]]]]]. eauto.
Qed.

Lemma previous_valid_all (df : list sma_row) (j : nat) (r : sma_row) :
  Forall (fun q => both_notna q = true) df ->
  nth_error df (S j) = Some r ->
  previous_valid df (S j) = nth_error df j.
Proof.
  intros Hall Hr. rewrite Forall_forall in Hall.
  assert (Hj : (j < length df)%nat).
  { assert (S j < length df)%nat by (apply nth_error_Some; congruence). lia. }
  destruct (nth_error df j) as [q|] eqn:Hq; [|apply nth_error_None in Hq; lia].
  apply previous_valid_spec. exists j. split; [lia|]. split; [exact Hq|].
  split; [apply Hall; eapply nth_error_In; eassumption|].
  intros k rk Hk. lia.
Qed.

Lemma previous_valid_zero (df : list sma_row) : previous_valid df 0 = None.
Proof. reflexivity. Qed.

(** X11. On the rows returned by [process_data] every row has both averages,
    so the detectors compare adjacent rows: a golden cross is reported at
    row [j + 1] exactly when sma_50 <= sma_200 on row [j] and
    sma_50 > sma_200 on row [j + 1], and a death cross exactly when
    sma_50 >= sma_200 on row [j] and sma_50 < sma_200 on row [j + 1]. *)
Theorem X11_adjacent_rows :
  forall (prices : list PriceData) (fundamentals : list FundamentalData)
         (rows : list DailyMetrics) (i : nat),
    process_data prices fundamentals = Ok rows ->
    (In i (golden_labels (metrics_frame rows)) <->
     exists j m m' a b a' b',
       i = S j /\ nth_error rows j = Some m /\ nth_error rows (S j) = Some m'
       /\ dm_sma_50 m = Some a /\ dm_sma_200 m = Some b
       /\ dm_sma_50 m' = Some a' /\ dm_sma_200 m' = Some b'
       /\ (a <= b)%Q /\ (b' < a')%Q)
    /\ (In i (death_labels (metrics_frame rows)) <->
        exists j m m' a b a' b',
          i = S j /\ nth_error rows j = Some m /\ nth_error rows (S j) = Some m'
          /\ dm_sma_50 m = Some a /\ dm_sma_200 m = Some b
          /\ dm_sma_50 m' = Some a' /\ dm_sma_200 m' = Some b'
          /\ (b <= a)%Q /\ (a' < b')%Q).
Proof.
  intros prices fundamentals rows i Hrows.
  assert (Hall : Forall (fun q => both_notna q = true) (metrics_frame rows)).
  { apply Forall_forall. intros q Hq. unfold metrics_frame in Hq.
    apply in_map_iff in Hq. destruct Hq as [m [<- Hm]].
    destruct (process_data_sma_present _ _ _ _ Hrows Hm) as [a [b [-> ->]]].
    reflexivity. }
  assert (Hpresent : forall k m, nth_error rows k = Some m ->
                       exists a b, dm_sma_50 m = Some a /\ dm_sma_200 m = Some b).
  { intros k m Hk. eapply process_data_sma_present; [exact Hrows|].
    eapply nth_error_In; eassumption. }
  split.
  - rewrite golden_labels_In. unfold golden_cross_at. split.
    + intros [ri [rj [Hri [_ [Hprev [Hle Hgt]]]]]].
      destruct i as [|j]; [rewrite previous_valid_zero in Hprev; discriminate|].
      rewrite (previous_valid_all _ _ _ Hall Hri) in Hprev.
      rewrite metrics_frame_nth in Hri, Hprev.
      destruct (nth_error rows (S j)) as [m'|] eqn:Hm'; [|discriminate].
      destruct (nth_error rows j) as [m|] eqn:Hm; [|discriminate].
      destruct (Hpresent _ _ Hm) as [a [b [Ha Hb]]].
      destruct (Hpresent _ _ Hm') as [a' [b' [Ha' Hb']]].
      cbn in Hri, Hprev. injection Hri as <-. injection Hprev as <-.
      cbn [s_sma_50 s_sma_200] in Hle, Hgt. rewrite Ha, Hb in Hle. rewrite Ha', Hb' in Hgt.
      cbn in Hle, Hgt. apply Qle_bool_iff in Hle. apply (Qlt_bool_iff b' a') in Hgt.
      exists j, m, m', a, b, a', b'. tauto.
    + intros (j & m & m' & a & b & a' & b' & -> & Hm & Hm' & Ha & Hb & Ha' & Hb' & Hle & Hgt).
      assert (Hri : nth_error (metrics_frame rows) (S j)
                    = Some (mkSmaRow (dm_date m') (Fin a') (Fin b'))).
      { rewrite metrics_frame_nth, Hm'. cbn. now rewrite Ha', Hb'. }
      eexists; eexists. split; [exact Hri|]. split; [reflexivity|].
      rewrite (previous_valid_all _ _ _ Hall Hri), metrics_frame_nth, Hm. cbn.
      rewrite Ha, Hb. split; [reflexivity|]. cbn. split.
      * now apply Qle_bool_iff.
      * now apply (Qlt_bool_iff b' a').
  - rewrite death_labels_In. unfold death_cross_at. split.
    + intros [ri [rj [Hri [_ [Hprev [Hge Hlt]]]]]].
      destruct i as [|j]; [rewrite previous_valid_zero in Hprev; discriminate|].
      rewrite (previous_valid_all _ _ _ Hall Hri) in Hprev.
      rewrite metrics_frame_nth in Hri, Hprev.
      destruct (nth_error rows (S j)) as [m'|] eqn:Hm'; [|discriminate].
      destruct (nth_error rows j) as [m|] eqn:Hm; [|discriminate].
      destruct (Hpresent _ _ Hm) as [a [b [Ha Hb]]].
      destruct (Hpresent _ _ Hm') as [a' [b' [Ha' Hb']]].
      cbn in Hri, Hprev. injection Hri as <-. injection Hprev as <-.
      cbn [s_sma_50 s_sma_200] in Hge, Hlt. rewrite Ha, Hb in Hge. rewrite Ha', Hb' in Hlt.
      cbn in Hge, Hlt. apply Qle_bool_iff in Hge. apply (Qlt_bool_iff a' b') in Hlt.
      exists j, m, m', a, b, a', b'. tauto.
    + intros (j & m & m' & a & b & a' & b' & -> & Hm & Hm' & Ha & Hb & Ha' & Hb' & Hge & Hlt).
      assert (Hri : nth_error (metrics_frame rows) (S j)
                    = Some (mkSmaRow (dm_date m') (Fin a') (Fin b'))).
      { rewrite metrics_frame_nth, Hm'. cbn. now rewrite Ha', Hb'. }
      eexists; eexists. split; [exact Hri|]. split; [reflexivity|].
      rewrite (previous_valid_all _ _ _ Hall Hri), metrics_frame_nth, Hm. cbn.
      rewrite Ha, Hb. split; [reflexivity|]. cbn. split.
      * now apply Qle_bool_iff.
      * now apply (Qlt_bool_iff a' b').
Qed.

Lemma X11_adjacent_rows_witness :
  ~ In 1%nat (golden_labels (metrics_frame (fallback_metrics (sorted_prices scenario_prices)))).
Proof.
  intro H.
  refine (_ (proj1 (proj1 (X11_adjacent_rows scenario_prices scenario_fundamentals _ 1 _)) H)).
  - intros (j & m & m' & a & b & a' & b' & Hj & Hm & Hm' & Ha & Hb & Ha' & Hb' & Hle & Hlt).
    injection Hj as <-. vm_compute in Hm'. injection Hm' as <-.
    vm_compute in Ha', Hb'. injection Ha' as <-. injection Hb' as <-.
    vm_compute in Hlt. discriminate Hlt.
  - vm_compute. reflexivity.
Defined.

(** Before a window is full nothing leaves it: its size plays no part. *)
Lemma roll_mean_from_early (w w' minp : nat) (xs buf : list float) (st : mean_state)
    (i : nat) :
  (length buf + i < w)%nat -> (length buf + i < w')%nat ->
  nth_error (roll_mean_from w minp buf st xs) i
  = nth_error (roll_mean_from w' minp buf st xs) i.
Proof.
  revert buf st i. induction xs as [|x xs IH]; intros buf st i Hw Hw';
    cbn [roll_mean_from]; [reflexivity|].
  assert (Hst : forall n, (length buf < n)%nat ->
            match buf with
            | [] => st
            | old :: _ => if (n <=? length buf)%nat then remove_mean old st else st
            end = st).
  { intros n Hn. destruct buf; [reflexivity|].
    now replace (n <=? length (f :: buf))%nat with false
      by (symmetry; apply Nat.leb_gt; exact Hn). }
  rewrite (Hst w), (Hst w') by lia.
  rewrite !lastn_all by (rewrite length_app; cbn; lia).
  destruct i as [|j]; cbn [nth_error]; [reflexivity|].
  apply IH; rewrite length_app; cbn; lia.
Qed.

Lemma technical_indicators_early (xs : list float) (i : nat) (ind : indicators) :
  (i < 50)%nat ->
  nth_error (technical_indicators xs) i = Some ind ->
  i_sma_50 ind = i_sma_200 ind.
Proof.
  intros Hi Hind.
  assert (Hlen : (i < length xs)%nat).
  { rewrite <- technical_indicators_length. apply nth_error_Some. congruence. }
  destruct (nth_error xs i) as [c|] eqn:Hc; [|apply nth_error_None in Hc; lia].
  destruct (technical_indicators_row xs i c Hc) as [a [b [Ha [Hb Hrow]]]].
  rewrite Hrow in Hind. injection Hind as <-. cbn [i_sma_50 i_sma_200].
  unfold roll_mean in Ha, Hb. destruct (map inf_to_nan xs) as [|x values]; [destruct i; discriminate|].
  rewrite (roll_mean_from_early 50 200) in Ha by (cbn; lia). congruence.
Qed.

Lemma scan_never (before now : float -> float -> bool) (df : list sma_row)
    (prev : option sma_row) (i : nat) :
  Forall (fun r => now (s_sma_50 r) (s_sma_200 r) = false) df ->
  scan before now prev i df = [].
Proof.
  intros H. revert prev i. induction H as [|r df Hr _ IH]; intros prev i; cbn [scan].
  - reflexivity.
  - rewrite Hr, andb_false_r. destruct (both_notna r); apply IH.
Qed.

Lemma flt_irrefl (x : float) : flt x x = false.
Proof.
  destruct (flt x x) eqn:E; [|reflexivity]. exfalso. exact (flt_asym x x E E).
Qed.

(** X12. During the first 50 rows the two averages run over the same
    window and are equal: with at most 50 price rows, the rows returned by
    [process_data] never yield a golden cross nor a death cross. *)
Theorem X12_no_event_within_50_rows :
  forall (prices : list PriceData) (fundamentals : list FundamentalData)
         (rows : list DailyMetrics),
    process_data prices fundamentals = Ok rows ->
    (length prices <= 50)%nat ->
    Forall (fun m => dm_sma_50 m = dm_sma_200 m) rows
    /\ detect_golden_crossover (metrics_frame rows) = []
    /\ detect_death_cross (metrics_frame rows) = [].
Proof.
  intros prices fundamentals rows Hrows Hlen.
  assert (Hsame : Forall (fun m => dm_sma_50 m = dm_sma_200 m) rows).
  { apply Forall_forall. intros m Hin.
    destruct (process_data_row_origin _ _ _ _ Hrows Hin) as [i [r [Hr Hm]]].
    assert (Hi : (i < 50)%nat).
    { assert (i < length (fallback_frame (sorted_prices prices)))%nat
        by (apply nth_error_Some; congruence).
      rewrite fallback_frame_length in *. lia. }
    assert (Hind : nth_error (technical_indicators (map pr_close (sorted_prices prices))) i
                   = Some (snd r)).
    { rewrite <- fallback_frame_ind, nth_error_map, Hr. reflexivity. }
    apply (technical_indicators_early _ _ _ Hi) in Hind.
    apply metrics_of_fallback_fields in Hm.
    destruct Hm as [_ [_ [_ [_ [[a [-> Ha]] [[b [-> Hb]] _]]]]]]. congruence. }
  assert (Hnow : forall now, (forall x, now x x = false) ->
            Forall (fun r => now (s_sma_50 r) (s_sma_200 r) = false) (metrics_frame rows)).
  { intros now Hirr. apply Forall_forall. intros r Hr. unfold metrics_frame in Hr.
    apply in_map_iff in Hr. destruct Hr as [m [<- Hm]]. cbn.
    rewrite Forall_forall in Hsame. rewrite (Hsame m Hm). apply Hirr. }
  split; [exact Hsame|]. split.
  - unfold detect_golden_crossover, detect. fold (golden_labels (metrics_frame rows)).
    rewrite golden_labels_scan, scan_never; [reflexivity|].
    apply Hnow. intros x. unfold fgt. apply flt_irrefl.
  - unfold detect_death_cross, detect. fold (death_labels (metrics_frame rows)).
    rewrite death_labels_scan, scan_never; [reflexivity|].
    apply Hnow. apply flt_irrefl.
Qed.

Lemma X12_no_event_within_50_rows_witness :
  detect_golden_crossover (metrics_frame (fallback_metrics (sorted_prices scenario_prices))) = [].
Proof.
  refine (proj1 (proj2 (X12_no_event_within_50_rows scenario_prices scenario_fundamentals _ _ _))).
  - vm_compute. reflexivity.
  - simpl. lia.
Defined.

(** ** The fetch layer *)

Lemma price_of_row_ok (row : history_row) (p : PriceData) :
  price_of_row row = Ok p <-> record_of_row row = Some p /\ prices_ordered p.
Proof.
  rewrite price_of_row_spec. destruct (record_of_row row) as [p'|].
  - split.
    + intros H. pose proof (check_price_relationships_same _ _ H) as ->.
      split; [reflexivity|now apply check_price_relationships_ok].
    + intros [[= ->] Hord]. now apply check_price_relationships_ok.
  - split; [discriminate|]. intros [H _]. discriminate H.
Qed.

(** X13. Every price record kept by the fetch loop satisfies
    low <= high, low <= open <= high and low <= close <= high, and the kept
    records are exactly those built from history rows whose four prices are
    numbers (each read as [Decimal(str(.))] prints it) and so ordered: a row
    holding NaN or an infinity is never kept. *)
Theorem X13_kept_prices_valid :
  forall (ticker : string) (rows : list history_row),
    Forall prices_ordered (fst (fetch_prices ticker rows))
    /\ (forall p, In p (fst (fetch_prices ticker rows))
                  <-> (exists row, In row rows /\ record_of_row row = Some p)
                      /\ prices_ordered p)
    /\ (forall row,
          is_fin (h_Open row) && is_fin (h_High row) && is_fin (h_Low row)
          && is_fin (h_Close row) = false ->
          record_of_row row = None).
Proof.
  intros ticker rows.
  assert (Hfetch : fst (fetch_prices ticker rows) = collect kept_price rows).
  { unfold fetch_prices. now rewrite fetch_fold. }
  assert (Hin : forall p, In p (fst (fetch_prices ticker rows))
                          <-> (exists row, In row rows /\ record_of_row row = Some p)
                              /\ prices_ordered p).
  { intros p. rewrite Hfetch, collect_In. unfold kept_price. split.
    - intros [row [Hrow Hk]].
      destruct (price_of_row row) as [p'|e] eqn:E; [|discriminate].
      injection Hk as ->. apply price_of_row_ok in E. destruct E as [E Hord].
      split; [eauto|exact Hord].
    - intros [[row [Hrow Hrec]] Hord]. exists row. split; [exact Hrow|].
      now rewrite (proj2 (price_of_row_ok _ _) (conj Hrec Hord)). }
  split; [|split; [exact Hin|]].
  - apply Forall_forall. intros p Hp. now apply Hin in Hp.
  - intros row Hnf. unfold record_of_row.
    destruct (h_Open row), (h_High row), (h_Low row), (h_Close row);
      cbn in Hnf; try discriminate; reflexivity.
Qed.

Lemma optional_field_none : optional_field None = Ok None.
Proof. reflexivity. Qed.

Lemma optional_field_cell (present : bool) (x : float) :
  is_inf x = false -> optional_field (sheet_cell present x) = Ok (cell_value present x).
Proof.
  unfold sheet_cell, cell_value. destruct x as [q| |]; cbn; try discriminate;
    destruct present; reflexivity.
Qed.

Lemma fundamental_of_column_ok (ticker : string) (source : source_tag)
    (bs : balance_sheet) (col : sheet_column) :
  no_infinity col ->
  fundamental_of_column ticker source bs col
  = Ok (observation_of_column ticker source bs col).
Proof.
  intros [H1 [H2 H3]]. unfold fundamental_of_column, FundamentalData_new.
  rewrite !optional_field_cell by assumption. reflexivity.
Qed.

Lemma fundamental_of_column_fields (ticker : string) (source : source_tag)
    (bs : balance_sheet) (col : sheet_column) (f : FundamentalData) :
  fundamental_of_column ticker source bs col = Ok f ->
  f_as_of f = sc_date col /\ f_ticker f = ticker /\ f_source f = source /\ sheet_only f.
Proof.
  unfold fundamental_of_column, FundamentalData_new. intros H.
  bind_inv H. bind_inv H. bind_inv H. cbn in H. injection H as <-.
  unfold sheet_only. cbn. tauto.
Qed.

(** What one sheet appends: observations of a leading run of its columns. *)
Lemma append_columns_spec (ticker : string) (source : source_tag) (bs : balance_sheet)
    (cols : list sheet_column) (acc : list FundamentalData) :
  exists new,
    append_columns ticker source bs cols acc = acc ++ new
    /\ map f_as_of new = firstn (length new) (map sc_date cols)
    /\ Forall (fun f => f_ticker f = ticker /\ f_source f = source /\ sheet_only f) new.
Proof.
  revert acc. induction cols as [|col cols IH]; intros acc; cbn [append_columns].
  - exists []. rewrite app_nil_r. repeat split. constructor.
  - destruct (fundamental_of_column ticker source bs col) as [f|e] eqn:E.
    + destruct (IH (acc ++ [f])) as [new [Hnew [Hdates Hall]]].
      exists (f :: new). rewrite Hnew, <- app_assoc. split; [reflexivity|].
      apply fundamental_of_column_fields in E. destruct E as [Hd [Ht [Hs Ho]]].
      split; [cbn; now rewrite Hd, Hdates|]. constructor; [tauto|exact Hall].
    + exists []. rewrite app_nil_r. repeat split. constructor.
Qed.

Lemma append_columns_all (ticker : string) (source : source_tag) (bs : balance_sheet)
    (cols : list sheet_column) (acc : list FundamentalData) :
  Forall no_infinity cols ->
  append_columns ticker source bs cols acc
  = acc ++ map (observation_of_column ticker source bs) cols.
Proof.
  intros H. revert acc. induction H as [|col cols Hc _ IH]; intros acc; cbn.
  - now rewrite app_nil_r.
  - rewrite (fundamental_of_column_ok _ _ _ _ Hc), IH, <- app_assoc. reflexivity.
Qed.

Lemma from_sheet_spec (ticker : string) (source : source_tag)
    (sheet : result balance_sheet) :
  Forall (fun f => f_ticker f = ticker /\ f_source f = source /\ sheet_only f)
    (from_sheet ticker source sheet []).
Proof.
  unfold from_sheet. destruct sheet as [bs|e]; [|constructor].
  destruct (sheet_empty bs); [constructor|].
  destruct (append_columns_spec ticker source bs (bs_columns bs) []) as [new [-> [_ H]]].
  exact H.
Qed.

Lemma from_info_spec (ticker : string) (today : date) (info_ : result info_values) :
  from_info ticker today info_ [] = []
  \/ exists f, from_info ticker today info_ [] = [f]
               /\ f_ticker f = ticker /\ f_source f = info /\ f_as_of f = today
               /\ f_total_assets f = None /\ f_total_liabilities f = None.
Proof.
  unfold from_info. destruct info_ as [i|e]; [|now left].
  destruct (FundamentalData_new _ _ _ _ _ _ _ _ _ _ _ _) as [f|e] eqn:E; [|now left].
  right. exists f. split; [reflexivity|].
  unfold FundamentalData_new in E.
  bind_inv E. bind_inv E. bind_inv E. bind_inv E. bind_inv E.
  bind_inv E. bind_inv E. bind_inv E. bind_inv E.
  injection E as <-. cbn in Ha0, Ha1. injection Ha0 as <-. injection Ha1 as <-.
  cbn. tauto.
Qed.

(** X14. The fundamentals returned by [fetch_stock_data] all carry the
    requested ticker and one single source tag; observations read from a
    balance sheet have no ratio, revenue, income or enterprise value; and an
    [info] observation is alone in the list, dated today, without assets or
    liabilities.  No fundamentals are returned when the price history is
    empty or cannot be read. *)
Theorem X14_fundamentals_one_source :
  forall (ticker : string) (history : result (list history_row))
         (qbs abs_ : result balance_sheet) (info_ : result info_values) (today : date),
    let fs := snd (fetch_stock_data ticker history qbs abs_ info_ today) in
    (forall f, In f fs -> f_ticker f = ticker)
    /\ (forall f g, In f fs -> In g fs -> f_source f = f_source g)
    /\ (forall f, In f fs -> f_source f <> info -> sheet_only f)
    /\ (forall f, In f fs -> f_source f = info ->
          fs = [f] /\ f_as_of f = today
          /\ f_total_assets f = None /\ f_total_liabilities f = None)
    /\ (fs <> [] -> exists row rows, history = Ok (row :: rows)).
Proof.
  intros ticker history qbs abs_ info_ today fs.
  assert (Hcases :
    fs = []
    \/ (exists src, src <> info /\ fs <> []
          /\ Forall (fun f => f_ticker f = ticker /\ f_source f = src /\ sheet_only f) fs)
    \/ (exists f, fs = [f] /\ f_ticker f = ticker /\ f_source f = info /\ f_as_of f = today
          /\ f_total_assets f = None /\ f_total_liabilities f = None)).
  { unfold fs, fetch_stock_data.
    destruct history as [[|row rows]|e]; cbn [snd]; try (now left).
    unfold fetch_fundamentals.
    pose proof (from_sheet_spec ticker quarterly qbs) as Hq.
    destruct (from_sheet ticker quarterly qbs []) as [|f0 l0].
    - pose proof (from_sheet_spec ticker annual abs_) as Ha.
      destruct (from_sheet ticker annual abs_ []) as [|f1 l1].
      + destruct (from_info_spec ticker today info_) as [->|[f [-> H]]]; [now left|].
        right; right. exists f. tauto.
      + right; left. exists annual. repeat split; try discriminate. exact Ha.
    - right; left. exists quarterly. repeat split; try discriminate. exact Hq. }
  assert (Hhist : fs <> [] -> exists row rows, history = Ok (row :: rows)).
  { unfold fs, fetch_stock_data.
    destruct history as [[|row rows]|e]; cbn [snd]; try congruence. eauto. }
  clearbody fs.
  split; [|split; [|split; [|split; [|exact Hhist]]]].
  - intros f Hf.
    destruct Hcases as [->|[[src [_ [_ Hall]]]|[f0 [-> [Ht _]]]]].
    + destruct Hf.
    + rewrite Forall_forall in Hall. now apply Hall.
    + destruct Hf as [<-|[]]. exact Ht.
  - intros f g Hf Hg.
    destruct Hcases as [->|[[src [_ [_ Hall]]]|[f0 [-> _]]]].
    + destruct Hf.
    + rewrite Forall_forall in Hall.
      destruct (Hall f Hf) as [_ [-> _]]. destruct (Hall g Hg) as [_ [-> _]]. reflexivity.
    + destruct Hf as [<-|[]]. destruct Hg as [<-|[]]. reflexivity.
  - intros f Hf Hsrc.
    destruct Hcases as [->|[[src [_ [_ Hall]]]|[f0 [-> [_ [Hs _]]]]]].
    + destruct Hf.
    + rewrite Forall_forall in Hall. now apply Hall.
    + destruct Hf as [<-|[]]. congruence.
  - intros f Hf Hsrc.
    destruct Hcases as [->|[[src [Hne [_ Hall]]]|[f0 [-> [_ [_ [Hd [Hta Htl]]]]]]]].
    + destruct Hf.
    + rewrite Forall_forall in Hall. destruct (Hall f Hf) as [_ [Hs _]]. congruence.
    + destruct Hf as [<-|[]]. tauto.
Qed.

(** X15. When the price history has rows and the quarterly sheet is not
    empty and holds no infinity, the fundamentals are exactly one
    [quarterly] observation per column, in column order, each field taken
    from its cell when the row is present and the cell is a number; the
    annual sheet and the info snapshot play no part. *)
Theorem X15_quarterly_first :
  forall (ticker : string) (row : history_row) (rows : list history_row)
         (bs : balance_sheet) (abs_ : result balance_sheet)
         (info_ : result info_values) (today : date),
    sheet_empty bs = false ->
    Forall no_infinity (bs_columns bs) ->
    snd (fetch_stock_data ticker (Ok (row :: rows)) (Ok bs) abs_ info_ today)
    = map (observation_of_column ticker quarterly bs) (bs_columns bs).
Proof.
  intros ticker row rows bs abs_ info_ today Hne Hfin.
  assert (Hq : from_sheet ticker quarterly (Ok bs) []
               = map (observation_of_column ticker quarterly bs) (bs_columns bs)).
  { unfold from_sheet. now rewrite Hne, (append_columns_all _ _ _ _ _ Hfin). }
  cbn [fetch_stock_data snd]. unfold fetch_fundamentals. rewrite Hq.
  unfold sheet_empty in Hne.
  destruct (bs_columns bs) as [|col cols]; [discriminate|]. reflexivity.
Qed.

(** ** The tables *)

Section MergeFacts.
Context {R K : Type} (key : R -> K) (eqb : K -> K -> bool).
Hypothesis eqb_eq : forall a b, eqb a b = true <-> a = b.

Lemma key_present (table : list R) (r : R) :
  existsb (fun x => eqb (key x) (key r)) table = true <-> In (key r) (map key table).
Proof.
  rewrite existsb_exists, in_map_iff. split.
  - intros [x [Hx E]]. apply eqb_eq in E. eauto.
  - intros [x [E Hx]]. exists x. split; [exact Hx|]. now apply eqb_eq.
Qed.

Lemma merge_commit_nodup (table : list R) (r : R) :
  NoDup (map key table) -> NoDup (map key (merge_commit key eqb table r)).
Proof.
  intros Hnd. unfold merge_commit.
  destruct (existsb _ table) eqn:E; [exact Hnd|].
  rewrite map_app. cbn. apply NoDup_app; [exact Hnd|constructor; [intros []|constructor]|].
  intros k Hk [<-|[]]. apply key_present in Hk. congruence.
Qed.

Lemma merge_all_nodup (table rs : list R) :
  NoDup (map key table) -> NoDup (map key (merge_all key eqb table rs)).
Proof.
  unfold merge_all. revert table.
  induction rs as [|r rs IH]; intros table Hnd; cbn; [exact Hnd|].
  apply IH, merge_commit_nodup, Hnd.
Qed.

(** The table only grows, by rows of the batch whose key was absent. *)
Lemma merge_all_grows (table rs : list R) :
  exists added,
    merge_all key eqb table rs = table ++ added
    /\ (forall x, In x added -> In x rs /\ ~ In (key x) (map key table)).
Proof.
  unfold merge_all. revert table.
  induction rs as [|r rs IH]; intros table; cbn [fold_left].
  - exists []. rewrite app_nil_r. split; [reflexivity|]. intros x [].
  - destruct (IH (merge_commit key eqb table r)) as [added [Hadd Hin]].
    unfold merge_commit in *. destruct (existsb _ table) eqn:E.
    + exists added. split; [exact Hadd|]. intros x Hx.
      destruct (Hin x Hx). split; [now right|assumption].
    + exists (r :: added). rewrite Hadd, <- app_assoc. split; [reflexivity|].
      intros x [<-|Hx].
      * split; [now left|]. intros Hk. apply key_present in Hk. congruence.
      * destruct (Hin x Hx) as [Hrs Hk]. split; [now right|].
        intros Hk'. apply Hk. rewrite map_app, in_app_iff. now left.
Qed.

Lemma merge_all_present (table rs : list R) (r : R) :
  In r rs -> In (key r) (map key (merge_all key eqb table rs)).
Proof.
  unfold merge_all. revert table.
  induction rs as [|r' rs IH]; intros table; cbn [fold_left]; [intros []|].
  intros [->|Hr]; [|now apply IH].
  destruct (merge_all_grows (merge_commit key eqb table r) rs) as [added [Hadd _]].
  unfold merge_all in Hadd. rewrite Hadd, map_app, in_app_iff. left.
  unfold merge_commit. destruct (existsb _ table) eqn:E.
  - now apply key_present.
  - rewrite map_app, in_app_iff. right. now left.
Qed.

Lemma merge_all_fixed (table rs : list R) :
  (forall r, In r rs -> In (key r) (map key table)) ->
  merge_all key eqb table rs = table.
Proof.
  unfold merge_all. induction rs as [|r rs IH]; intros H; cbn [fold_left]; [reflexivity|].
  unfold merge_commit at 2.
  rewrite (proj2 (key_present table r) (H r (or_introl eq_refl))).
  apply IH. intros r' Hr'. apply H. now right.
Qed.

Lemma merge_all_idempotent (table rs : list R) :
  merge_all key eqb (merge_all key eqb table rs) rs = merge_all key eqb table rs.
Proof. apply merge_all_fixed. intros r Hr. now apply merge_all_present. Qed.

(** A stored row is never replaced by a later row of the same key. *)
Lemma merge_all_first_wins (table rs : list R) (old x : R) :
  NoDup (map key table) ->
  In old table -> In x (merge_all key eqb table rs) -> key x = key old -> x = old.
Proof.
  intros Hnd Hold Hx Hk.
  destruct (merge_all_grows table rs) as [added [Hadd Hin]].
  rewrite Hadd in Hx. apply in_app_iff in Hx. destruct Hx as [Hx|Hx].
  - now apply (NoDup_map_inj key table).
  - exfalso. destruct (Hin x Hx) as [_ Hno]. apply Hno. rewrite Hk. now apply in_map.
Qed.
End MergeFacts.

Lemma metric_key_eqb_eq (a b : string * date) : metric_key_eqb a b = true <-> a = b.
Proof.
  unfold metric_key_eqb. destruct a as [t d], b as [t' d']. cbn.
  rewrite andb_true_iff, String.eqb_eq, Z.eqb_eq. split; [intros [-> ->]|intros [= -> ->]]; auto.
Qed.

Lemma signal_key_eqb_eq (a b : string * date * string) : signal_key_eqb a b = true <-> a = b.
Proof.
  unfold signal_key_eqb. destruct a as [[t d] k], b as [[t' d'] k']. cbn.
  rewrite !andb_true_iff, !String.eqb_eq, Z.eqb_eq.
  split; [intros [[-> ->] ->]|intros [= -> -> ->]]; auto.
Qed.

(** X16. [save_daily_metrics] keeps (ticker, date) unique in
    [daily_metrics]; afterwards every row of the frame has its key in the
    table; the rows stored before are all still there, unchanged and in
    place, so a row already stored for a (ticker, date) is never updated by
    a later run; saving the same frame again changes nothing; the other
    tables are not touched. *)
Theorem X16_save_daily_metrics :
  forall (db : database) (ticker : string) (df : list DailyMetrics),
    NoDup (map metric_key (db_daily_metrics db)) ->
    let db' := save_daily_metrics db ticker df in
    NoDup (map metric_key (db_daily_metrics db'))
    /\ (forall m, In m df -> In (ticker, dm_date m) (map metric_key (db_daily_metrics db')))
    /\ (exists added, db_daily_metrics db' = db_daily_metrics db ++ added)
    /\ (forall old x, In old (db_daily_metrics db) -> In x (db_daily_metrics db') ->
          metric_key x = metric_key old -> x = old)
    /\ save_daily_metrics db' ticker df = db'
    /\ db_tickers db' = db_tickers db
    /\ db_signal_events db' = db_signal_events db.
Proof.
  intros db ticker df Hnd db'. unfold db', save_daily_metrics. cbn.
  split; [now apply merge_all_nodup; [apply metric_key_eqb_eq|]|].
  split.
  { intros m Hm.
    apply (merge_all_present metric_key metric_key_eqb metric_key_eqb_eq
             (db_daily_metrics db) (map (metric_row ticker) df) (metric_row ticker m)).
    now apply in_map. }
  split.
  { destruct (merge_all_grows metric_key metric_key_eqb metric_key_eqb_eq
                (db_daily_metrics db) (map (metric_row ticker) df)) as [added [H _]].
    eauto. }
  split.
  { intros old x. now apply merge_all_first_wins; [apply metric_key_eqb_eq|]. }
  split; [|split; reflexivity].
  f_equal. apply merge_all_idempotent, metric_key_eqb_eq.
Qed.

Lemma X16_save_daily_metrics_witness :
  save_daily_metrics
    (save_daily_metrics (mkDatabase [] [] []) "TEST"
       (fallback_metrics (sorted_prices scenario_prices)))
    "TEST" (fallback_metrics (sorted_prices scenario_prices))
  = save_daily_metrics (mkDatabase [] [] []) "TEST"
      (fallback_metrics (sorted_prices scenario_prices)).
Proof.
  refine (proj1 (proj2 (proj2 (proj2 (proj2
    (X16_save_daily_metrics (mkDatabase [] [] []) "TEST"
       (fallback_metrics (sorted_prices scenario_prices)) _)))))).
  constructor.
Defined.

(** X17. [save_signal_events] keeps (ticker, date, signal type) unique in
    [signal_events], stores a row for every date given, leaves the rows
    stored before unchanged, is idempotent, and touches no other table;
    [save_ticker] likewise keeps ticker symbols unique and never renames a
    stored ticker. *)
Theorem X17_save_signal_events :
  forall (db : database) (ticker signal_type : string) (dates : list date)
         (meta name : option string),
    NoDup (map signal_key (db_signal_events db)) ->
    NoDup (map fst (db_tickers db)) ->
    let db' := save_signal_events db ticker signal_type dates meta in
    NoDup (map signal_key (db_signal_events db'))
    /\ (forall d, In d dates ->
          In (ticker, d, signal_type) (map signal_key (db_signal_events db')))
    /\ (exists added, db_signal_events db' = db_signal_events db ++ added)
    /\ save_signal_events db' ticker signal_type dates meta = db'
    /\ db_tickers db' = db_tickers db
    /\ db_daily_metrics db' = db_daily_metrics db
    /\ NoDup (map fst (db_tickers (save_ticker db ticker name)))
    /\ (forall old, In (ticker, old) (db_tickers db) ->
          db_tickers (save_ticker db ticker name) = db_tickers db).
Proof.
  intros db ticker signal_type dates meta name Hnd Hnt db'.
  unfold db', save_signal_events, save_ticker. cbn.
  split; [now apply merge_all_nodup; [apply signal_key_eqb_eq|]|].
  split.
  { intros d Hd.
    apply (merge_all_present signal_key signal_key_eqb signal_key_eqb_eq
             (db_signal_events db) _ (mkSignalRecord ticker d signal_type meta)).
    apply in_map_iff. eauto. }
  split.
  { destruct (merge_all_grows signal_key signal_key_eqb signal_key_eqb_eq
                (db_signal_events db)
                (map (fun d => mkSignalRecord ticker d signal_type meta) dates))
      as [added [H _]]. eauto. }
  split; [f_equal; apply merge_all_idempotent, signal_key_eqb_eq|].
  split; [reflexivity|]. split; [reflexivity|]. split.
  - apply (merge_commit_nodup fst String.eqb String.eqb_eq). exact Hnt.
  - intros old Hold. unfold merge_commit.
    rewrite (proj2 (key_present fst String.eqb String.eqb_eq (db_tickers db) (ticker, name)));
      [reflexivity|].
    apply in_map_iff. exists (ticker, old). split; [reflexivity|exact Hold].
Qed.

Lemma X17_save_signal_events_witness :
  save_signal_events
    (save_signal_events (mkDatabase [] [] []) "TEST" "golden_cross" [738521; 738522] None)
    "TEST" "golden_cross" [738521; 738522] None
  = save_signal_events (mkDatabase [] [] []) "TEST" "golden_cross" [738521; 738522] None.
Proof.
  refine (proj1 (proj2 (proj2 (proj2
    (X17_save_signal_events (mkDatabase [] [] []) "TEST" "golden_cross" [738521; 738522]
       None None _ _))))).
  - constructor.
  - constructor.
Defined.

Lemma X15_quarterly_first_witness :
  snd (fetch_stock_data "TEST" (Ok sample_history) (Ok sample_sheet)
         (Raise (ValueError "")) (Raise (ValueError "")) 738600)
  = map (observation_of_column "TEST" quarterly sample_sheet) (bs_columns sample_sheet).
Proof.
  apply X15_quarterly_first.
  - reflexivity.
  - repeat constructor.
Defined.

(** ** The run *)

Lemma comprehension_signals (ticker : string) (kind : signal_kind) (dates : list date) :
  comprehension (fun d => SignalEvent_new d ticker kind None) dates
  = match dates with
    | [] => Ok []
    | _ :: _ => Raise (ValidationError "Field required")
    end.
Proof. destruct dates; reflexivity. Qed.

(** A run that reached the metrics: the four saves, then the export. *)
Lemma main_run (ticker : string) (start end_ : option date) (format : string)
    (raw_data : list PriceData * list FundamentalData) (db : database)
    (m : DailyMetrics) (ms : list DailyMetrics) :
  fst raw_data <> [] ->
  processed start end_ raw_data = Ok (m :: ms) ->
  main ticker start end_ format raw_data db
  = (saved db ticker (m :: ms),
     match detect_golden_crossover (metrics_frame (m :: ms))
           ++ detect_death_cross (metrics_frame (m :: ms)) with
     | _ :: _ => Uncaught (ValidationError "Field required")
     | [] =>
         let export :=
           mkExportData ticker (fst (filter_range start end_ raw_data))
             (snd (filter_range start end_ raw_data)) (m :: ms) [] in
         if String.eqb (lower format) "json" then Written Json export
         else if String.eqb (lower format) "csv" then Written Csv export
         else Exit 1
     end).
Proof.
  intros Hne Hp. unfold main, processed in *.
  destruct (fst raw_data) as [|p ps] eqn:Hraw; [congruence|].
  rewrite Hp. cbv zeta. rewrite !comprehension_signals. fold (saved db ticker (m :: ms)).
  destruct (detect_golden_crossover (metrics_frame (m :: ms))) as [|g gs];
    destruct (detect_death_cross (metrics_frame (m :: ms))) as [|d ds]; cbn [bind app];
    try reflexivity.
  destruct (String.eqb (lower format) "json"); [reflexivity|].
  destruct (String.eqb (lower format) "csv"); reflexivity.
Qed.

Lemma main_no_metrics (ticker : string) (start end_ : option date) (format : string)
    (raw_data : list PriceData * list FundamentalData) (db : database) :
  fst raw_data = [] \/ processed start end_ raw_data = Ok []
  \/ (exists e, processed start end_ raw_data = Raise e) ->
  db_daily_metrics (fst (main ticker start end_ format raw_data db)) = db_daily_metrics db
  /\ db_signal_events (fst (main ticker start end_ format raw_data db)) = db_signal_events db
  /\ forall fmt export, snd (main ticker start end_ format raw_data db) <> Written fmt export.
Proof.
  unfold main, processed.
  destruct (fst raw_data) as [|p ps]; [intros _; repeat split; discriminate|].
  intros [H|[H|[e H]]]; [discriminate| |]; rewrite H; repeat split; discriminate.
Qed.

(** X18. The output file is written only by a run that detected no
    crossover: whenever [main] writes, the export holds no signal, its
    metrics are the non-empty result of [process_data] on the filtered data,
    and the format is "json" or "csv" up to letter case.  A run that detects
    a golden or a death cross stops with the [ValidationError] of
    [SignalEvent] (built without [meta]), after the metrics and the signal
    dates have been stored. *)
Theorem X18_export_needs_no_signal :
  forall (ticker : string) (start end_ : option date) (format : string)
         (raw_data : list PriceData * list FundamentalData) (db : database),
    (forall fmt export,
        snd (main ticker start end_ format raw_data db) = Written fmt export ->
        ex_signals export = []
        /\ ex_daily_metrics export <> []
        /\ processed start end_ raw_data = Ok (ex_daily_metrics export)
        /\ detect_golden_crossover (metrics_frame (ex_daily_metrics export)) = []
        /\ detect_death_cross (metrics_frame (ex_daily_metrics export)) = []
        /\ lower format = match fmt with Json => "json" | Csv => "csv" end%string)
    /\ (forall metrics_df,
          fst raw_data <> [] ->
          processed start end_ raw_data = Ok metrics_df ->
          detect_golden_crossover (metrics_frame metrics_df)
          ++ detect_death_cross (metrics_frame metrics_df) <> [] ->
          main ticker start end_ format raw_data db
          = (saved db ticker metrics_df, Uncaught (ValidationError "Field required"))).
Proof.
  intros ticker start end_ format raw_data db. split.
  - intros fmt export Hw.
    destruct (fst raw_data) as [|p ps] eqn:Hraw.
    { exfalso. eapply (main_no_metrics ticker start end_ format raw_data db); eauto. }
    destruct (processed start end_ raw_data) as [[|m ms]|e] eqn:Hp.
    { exfalso. eapply (main_no_metrics ticker start end_ format raw_data db); eauto. }
    2:{ exfalso. eapply (main_no_metrics ticker start end_ format raw_data db); eauto. }
    rewrite (main_run ticker start end_ format raw_data db m ms) in Hw
      by (rewrite ?Hraw; congruence).
    cbn [snd] in Hw.
    destruct (detect_golden_crossover (metrics_frame (m :: ms))) as [|g gs] eqn:G;
      [|discriminate].
    destruct (detect_death_cross (metrics_frame (m :: ms))) as [|d ds] eqn:D;
      [|discriminate].
    cbn [app] in Hw. cbv zeta in Hw.
    destruct (String.eqb (lower format) "json") eqn:J.
    + injection Hw as <- <-. cbn. apply String.eqb_eq in J.
      repeat split; try assumption; discriminate.
    + destruct (String.eqb (lower format) "csv") eqn:C; [|discriminate].
      injection Hw as <- <-. cbn. apply String.eqb_eq in C.
      repeat split; try assumption; discriminate.
  - intros metrics_df Hne Hp Hsig.
    destruct metrics_df as [|m ms]; [exfalso; apply Hsig; reflexivity|].
    rewrite (main_run ticker start end_ format raw_data db m ms Hne Hp).
    destruct (detect_golden_crossover (metrics_frame (m :: ms))
              ++ detect_death_cross (metrics_frame (m :: ms))); [congruence|reflexivity].
Qed.

(** X19. What a run stores does not depend on the requested format: an
    unsupported format is refused, with exit code 1, only after the
    database has been updated exactly as by a "json" run; and the exit code
    of [main], when it exits, is always 1. *)
Theorem X19_format_checked_last :
  forall (ticker : string) (start end_ : option date) (format format' : string)
         (raw_data : list PriceData * list FundamentalData) (db : database),
    fst (main ticker start end_ format raw_data db)
    = fst (main ticker start end_ format' raw_data db)
    /\ (forall code, snd (main ticker start end_ format raw_data db) = Exit code ->
          code = 1
          /\ (fst raw_data = [] \/ processed start end_ raw_data = Ok []
              \/ (lower format <> "json" /\ lower format <> "csv")%string)).
Proof.
  intros ticker start end_ format format' raw_data db.
  destruct (fst raw_data) as [|p ps] eqn:Hraw.
  { unfold main. rewrite Hraw. split; [reflexivity|].
    cbn. intros code [= <-]. auto. }
  destruct (processed start end_ raw_data) as [[|m ms]|e] eqn:Hp.
  - unfold main, processed in *. rewrite Hraw, Hp. split; [reflexivity|].
    cbn. intros code [= <-]. auto.
  - rewrite !(main_run ticker start end_ _ raw_data db m ms)
      by (rewrite ?Hraw; congruence).
    split; [reflexivity|]. cbn [snd]. intros code Hc.
    destruct (detect_golden_crossover (metrics_frame (m :: ms))
              ++ detect_death_cross (metrics_frame (m :: ms))); [|discriminate].
    cbv zeta in Hc.
    destruct (String.eqb (lower format) "json") eqn:J; [discriminate|].
    destruct (String.eqb (lower format) "csv") eqn:C; [discriminate|].
    injection Hc as <-. split; [reflexivity|]. right; right.
    split; intros E; rewrite E in *; discriminate.
  - unfold main, processed in *. rewrite Hraw, Hp. split; [reflexivity|].
    cbn. discriminate.
Qed.

Lemma process_data_row_price (prices : list PriceData) (fundamentals : list FundamentalData)
    (rows : list DailyMetrics) (m : DailyMetrics) :
  process_data prices fundamentals = Ok rows -> In m rows ->
  exists p, In p prices /\ dm_date m = p_date p.
Proof.
  intros Hrows Hin.
  destruct (process_data_row_origin _ _ _ _ Hrows Hin) as [i [r [Hr Hm]]].
  destruct (fallback_frame_row prices i r Hr) as [p [Hp [Hfst _]]].
  apply metrics_of_fallback_date in Hm. rewrite Hfst in Hm. cbn in Hm.
  exists p. split; [|exact Hm].
  eapply Permutation_in; [apply sort_values_perm|]. eapply nth_error_In; eassumption.
Qed.

Lemma in_range_unbounded (d : date) : in_range None None d = true.
Proof. reflexivity. Qed.

Lemma filter_range_prices (start end_ : option date)
    (raw_data : list PriceData * list FundamentalData) (p : PriceData) :
  In p (fst (filter_range start end_ raw_data)) ->
  In p (fst raw_data) /\ in_range start end_ (p_date p) = true.
Proof.
  unfold filter_range. destruct (is_some start || is_some end_) eqn:E; cbn [fst].
  - intros H. now apply filter_In in H.
  - destruct start, end_; try discriminate. intros H. split; [exact H|reflexivity].
Qed.

Lemma filter_range_fundamentals (start end_ : option date)
    (raw_data : list PriceData * list FundamentalData) (f : FundamentalData) :
  In f (snd (filter_range start end_ raw_data)) ->
  In f (snd raw_data) /\ in_range start end_ (f_as_of f) = true.
Proof.
  unfold filter_range. destruct (is_some start || is_some end_) eqn:E; cbn [snd].
  - destruct (snd raw_data) as [|f0 fs]; [intros []|].
    intros H. now apply filter_In in H.
  - destruct start, end_; try discriminate. intros H. split; [exact H|reflexivity].
Qed.

Lemma saved_daily_metrics (db : database) (ticker : string) (metrics_df : list DailyMetrics) :
  db_daily_metrics (saved db ticker metrics_df)
  = merge_all metric_key metric_key_eqb (db_daily_metrics db)
      (map (metric_row ticker) metrics_df).
Proof. reflexivity. Qed.

(** X20. The date range given to [main] bounds everything the run
    produces: every price, observation and metric of a written export has
    its date within [[start, end]], and every row found in [daily_metrics]
    after the run was either there before or belongs to the ticker of the
    run with a date within the range. *)
Theorem X20_range_respected :
  forall (ticker : string) (start end_ : option date) (format : string)
         (raw_data : list PriceData * list FundamentalData) (db : database),
    (forall fmt export,
        snd (main ticker start end_ format raw_data db) = Written fmt export ->
        Forall (fun p => in_range start end_ (p_date p) = true) (ex_price_data export)
        /\ Forall (fun f => in_range start end_ (f_as_of f) = true) (ex_fundamentals export)
        /\ Forall (fun m => in_range start end_ (dm_date m) = true) (ex_daily_metrics export))
    /\ (forall x,
          In x (db_daily_metrics (fst (main ticker start end_ format raw_data db))) ->
          In x (db_daily_metrics db)
          \/ (dm_ticker x = ticker /\ in_range start end_ (dm_date x) = true)).
Proof.
  intros ticker start end_ format raw_data db.
  assert (Hmetrics : forall rows m, processed start end_ raw_data = Ok rows -> In m rows ->
                       in_range start end_ (dm_date m) = true).
  { intros rows m Hp Hm. unfold processed in Hp.
    destruct (process_data_row_price _ _ _ _ Hp Hm) as [p [Hin ->]].
    now apply filter_range_prices in Hin. }
  destruct (fst raw_data) as [|p ps] eqn:Hraw.
  { destruct (main_no_metrics ticker start end_ format raw_data db (or_introl Hraw))
      as [Hd [_ Hw]].
    split; [intros fmt export H; now apply Hw in H|]. rewrite Hd. auto. }
  destruct (processed start end_ raw_data) as [[|m ms]|e] eqn:Hp.
  - destruct (main_no_metrics ticker start end_ format raw_data db
                (or_intror (or_introl Hp))) as [Hd [_ Hw]].
    split; [intros fmt export H; now apply Hw in H|]. rewrite Hd. auto.
  - rewrite (main_run ticker start end_ format raw_data db m ms)
      by (rewrite ?Hraw; congruence).
    cbn [fst snd]. split.
    + intros fmt export Hw.
      assert (Hex : export = mkExportData ticker (fst (filter_range start end_ raw_data))
                               (snd (filter_range start end_ raw_data)) (m :: ms) []).
      { destruct (detect_golden_crossover (metrics_frame (m :: ms))
                  ++ detect_death_cross (metrics_frame (m :: ms))); [|discriminate].
        cbv zeta in Hw.
        destruct (String.eqb (lower format) "json"); [congruence|].
        destruct (String.eqb (lower format) "csv"); [congruence|discriminate]. }
      subst export. cbn. repeat split; apply Forall_forall.
      * intros q Hq. now apply filter_range_prices in Hq.
      * intros f Hf. now apply filter_range_fundamentals in Hf.
      * intros x Hx. now apply (Hmetrics (m :: ms)).
    + intros x Hx. rewrite saved_daily_metrics in Hx.
      destruct (merge_all_grows metric_key metric_key_eqb metric_key_eqb_eq
                  (db_daily_metrics db) (map (metric_row ticker) (m :: ms)))
        as [added [Hadd Hin]].
      rewrite Hadd in Hx. apply in_app_iff in Hx. destruct Hx as [Hx|Hx]; [now left|].
      right. destruct (Hin x Hx) as [Hb _]. apply in_map_iff in Hb.
      destruct Hb as [m0 [<- Hm0]]. split; [reflexivity|]. cbn.
      now apply (Hmetrics (m :: ms)).
  - destruct (main_no_metrics ticker start end_ format raw_data db
                (or_intror (or_intror (ex_intro _ e Hp)))) as [Hd [_ Hw]].
    split; [intros fmt export H; now apply Hw in H|]. rewrite Hd. auto.
Qed.

(** ** Loading the configuration *)

Lemma dict_get_in (k : string) (d : dict) :
  dict_get k d <> None <-> In k (map fst d).
Proof.
  induction d as [|[k' v] d IH]; cbn.
  - split; [congruence|intros []].
  - destruct (String.eqb k' k) eqn:E.
    + apply String.eqb_eq in E. split; [now left|discriminate].
    + apply String.eqb_neq in E. rewrite IH. split; [now right|].
      intros [H|H]; [congruence|exact H].
Qed.

Lemma dict_set_same (k : string) (v : yaml) (d : dict) :
  dict_get k (dict_set k v d) = Some v.
Proof.
  induction d as [|[k' v'] d IH]; cbn.
  - now rewrite String.eqb_refl.
  - destruct (String.eqb k' k) eqn:E; cbn; now rewrite E.
Qed.

Lemma dict_set_other (k k' : string) (v : yaml) (d : dict) :
  k <> k' -> dict_get k (dict_set k' v d) = dict_get k d.
Proof.
  intros Hne. induction d as [|[k0 v0] d IH]; cbn.
  - apply String.eqb_neq in Hne. rewrite String.eqb_sym. now rewrite Hne.
  - destruct (String.eqb k0 k') eqn:E; cbn.
    + apply String.eqb_eq in E. subst k0.
      apply not_eq_sym, String.eqb_neq in Hne. now rewrite Hne.
    + now rewrite IH.
Qed.

Lemma dict_mutate_keys (k : string) (v : yaml) (d : dict) :
  map fst (dict_mutate k v d) = map fst d.
Proof.
  unfold dict_mutate. rewrite map_map. apply map_ext.
  intros [k' v']. cbn. now destruct (String.eqb k' k).
Qed.

Lemma dict_mutate_same (k : string) (v x : yaml) (d : dict) :
  dict_get k d = Some x -> dict_get k (dict_mutate k v d) = Some v.
Proof.
  induction d as [|[k' v'] d IH]; cbn; [discriminate|].
  destruct (String.eqb k' k) eqn:E; cbn; rewrite E; [reflexivity|exact IH].
Qed.

Lemma dict_mutate_absent (k : string) (v : yaml) (d : dict) :
  dict_get k d = None -> dict_mutate k v d = d.
Proof.
  induction d as [|[k' v'] d IH]; cbn; [reflexivity|].
  destruct (String.eqb k' k) eqn:E; [discriminate|]. intros H.
  unfold dict_mutate in IH. now rewrite IH.
Qed.

Lemma dict_mutate_other (k k' : string) (v : yaml) (d : dict) :
  k <> k' -> dict_get k (dict_mutate k' v d) = dict_get k d.
Proof.
  intros Hne. induction d as [|[k0 v0] d IH]; cbn; [reflexivity|].
  destruct (String.eqb k0 k') eqn:E; cbn.
  - apply String.eqb_eq in E. subst k0.
    apply not_eq_sym, String.eqb_neq in Hne. rewrite Hne. exact IH.
  - destruct (String.eqb k0 k); [reflexivity|exact IH].
Qed.

(** What the loop does to the copy and to the defaults, key by key. *)
Lemma merge_items_spec (items : dict) :
  NoDup (map fst items) ->
  forall merged defaults merged' defaults',
    (forall k, In k (map fst items) -> dict_get k merged = dict_get k defaults) ->
    merge_items items merged defaults = (Loaded merged', defaults') ->
    map fst defaults' = map fst defaults
    /\ (forall k, ~ In k (map fst items) ->
          dict_get k merged' = dict_get k merged
          /\ dict_get k defaults' = dict_get k defaults)
    /\ (forall k v, In (k, v) items ->
          match dict_get k defaults with
          | Some (YDict d) =>
              exists d', dict_update d v = Loaded d'
                         /\ dict_get k merged' = Some (YDict d')
                         /\ dict_get k defaults' = Some (YDict d')
          | other => dict_get k merged' = Some v /\ dict_get k defaults' = other
          end).
Proof.
  induction items as [|[k0 v0] items IH]; intros Hnd merged defaults merged' defaults' Hagree H.
  - cbn in H. injection H as <- <-. split; [reflexivity|]. split; [auto|]. intros k v [].
  - cbn [map fst] in Hnd. inversion Hnd as [|? ? Hk0 Hnd']; subst.
    cbn [merge_items] in H.
    assert (Hm0 : dict_get k0 merged = dict_get k0 defaults) by (apply Hagree; now left).
    assert (Hother : forall k, In k (map fst items) -> k <> k0).
    { intros k Hk ->. contradiction. }
    destruct (dict_get k0 merged) as [[| | |d]|] eqn:Hget.
    1,2,3,5:
      (apply IH in H; [|exact Hnd'|
         intros k Hk; rewrite dict_set_other by (now apply Hother); apply Hagree; now right];
       destruct H as [Hkeys [Hout Hin]]; split; [exact Hkeys|]; split;
       [ intros k Hk; cbn [map fst In] in Hk;
         destruct (Hout k ltac:(tauto)) as [H1 H2]; split; [|exact H2];
         rewrite H1; apply dict_set_other; intros ->; apply Hk; now left
       | intros k v [[= <- <-]|Hkv];
         [ destruct (Hout k0 Hk0) as [H1 H2]; rewrite <- Hm0;
           rewrite H1, dict_set_same, H2, <- Hm0; split; reflexivity
         | exact (Hin k v Hkv) ] ]).
    destruct (dict_update d v0) as [d'|e] eqn:Hupd; [|discriminate].
    apply IH in H; [|exact Hnd'|].
    2:{ intros k Hk. rewrite !dict_mutate_other by (now apply Hother).
        apply Hagree. now right. }
    destruct H as [Hkeys [Hout Hin]]. rewrite dict_mutate_keys in Hkeys.
    split; [exact Hkeys|]. split.
    + intros k Hk. cbn [map fst In] in Hk.
      destruct (Hout k ltac:(tauto)) as [H1 H2].
      rewrite H1, H2. rewrite !dict_mutate_other by (intros ->; apply Hk; now left).
      split; reflexivity.
    + intros k v [[= <- <-]|Hkv].
      * destruct (Hout k0 Hk0) as [H1 H2]. rewrite <- Hm0.
        exists d'. split; [exact Hupd|].
        rewrite H1, H2. split.
        -- eapply dict_mutate_same; eassumption.
        -- eapply dict_mutate_same. rewrite <- Hm0. reflexivity.
      * specialize (Hin k v Hkv).
        assert (Hne : k <> k0).
        { apply Hother. apply in_map_iff. exists (k, v). split; [reflexivity|exact Hkv]. }
        rewrite dict_mutate_other in Hin by exact Hne. exact Hin.
Qed.

(** X21. [load_config] on a mapping: a key of the file whose default is a
    dict is merged into that dict, and the module-level default is changed
    with it (the copy is shallow), so a later call without a file returns
    the overridden section; any other key of the file is set on the returned
    copy only; keys absent from the file keep their default; the defaults
    never gain or lose a key. *)
Theorem X21_load_config_changes_defaults :
  forall (items defaults merged defaults' : dict),
    NoDup (map fst items) ->
    load_config (Some (YDict items)) defaults = (Loaded merged, defaults') ->
    map fst defaults' = map fst defaults
    /\ (forall k, ~ In k (map fst items) ->
          dict_get k merged = dict_get k defaults
          /\ dict_get k defaults' = dict_get k defaults)
    /\ (forall k v, In (k, v) items ->
          match dict_get k defaults with
          | Some (YDict d) =>
              exists d', dict_update d v = Loaded d'
                         /\ dict_get k merged = Some (YDict d')
                         /\ dict_get k defaults' = Some (YDict d')
          | other => dict_get k merged = Some v /\ dict_get k defaults' = other
          end)
    /\ load_config None defaults' = (Loaded defaults', defaults').
Proof.
  intros items defaults merged defaults' Hnd H. cbn [load_config] in H.
  destruct (merge_items_spec items Hnd defaults defaults merged defaults'
              (fun _ _ => eq_refl) H) as [Hkeys [Hout Hin]].
  repeat split; try assumption; now apply Hout.
Qed.

Lemma X21_load_config_changes_defaults_witness :
  dict_get "database"
    (snd (load_config (Some (YDict sample_config)) DEFAULT_CONFIG))
  = Some (YDict [("path"%string, YStr "other.db")])
  /\ map fst (snd (load_config (Some (YDict sample_config)) DEFAULT_CONFIG))
     = map fst DEFAULT_CONFIG.
Proof.
  destruct (X21_load_config_changes_defaults sample_config DEFAULT_CONFIG
              match fst (merge_items sample_config DEFAULT_CONFIG DEFAULT_CONFIG) with
              | Loaded m => m
              | Failed _ => []
              end
              (snd (merge_items sample_config DEFAULT_CONFIG DEFAULT_CONFIG)))
    as [Hkeys [_ [Hin _]]].
  - repeat constructor; cbn; intuition discriminate.
  - reflexivity.
  - split; [|exact Hkeys].
    destruct (Hin "database"%string (YDict [("path"%string, YStr "other.db")])
                (or_introl eq_refl)) as [d' [Hd' [_ Hdef]]].
    cbn in Hd'. injection Hd' as <-. exact Hdef.
Defined.

(** X22. [load_config] fails, instead of returning a configuration, when
    the file does not hold a mapping, and when the file gives a null, a
    number or a non-empty string for a key whose default is a dict. *)
Theorem X22_load_config_failures :
  forall (defaults : dict),
    (forall file, (forall items, file <> YDict items) ->
        load_config (Some file) defaults = (Failed AttributeError, defaults))
    /\ (forall items k v d e,
          NoDup (map fst items) ->
          In (k, v) items ->
          dict_get k defaults = Some (YDict d) ->
          dict_update d v = Failed e ->
          exists e' defaults',
            load_config (Some (YDict items)) defaults = (Failed e', defaults')).
Proof.
  intros defaults. split.
  - intros file Hfile. destruct file as [| | |items]; try reflexivity.
    exfalso. now apply (Hfile items).
  - intros items k v d e Hnd Hin Hget Hupd. cbn [load_config].
    destruct (merge_items items defaults defaults) as [[merged|e'] defaults'] eqn:H.
    + exfalso.
      destruct (merge_items_spec items Hnd defaults defaults merged defaults'
                  (fun _ _ => eq_refl) H) as [_ [_ Hspec]].
      specialize (Hspec k v Hin). rewrite Hget in Hspec.
      destruct Hspec as [d' [Hd' _]]. congruence.
    + eauto.
Qed.

Lemma X22_load_config_failures_witness :
  exists e' defaults',
    load_config (Some (YDict bad_config)) DEFAULT_CONFIG = (Failed e', defaults').
Proof.
  refine (proj2 (X22_load_config_failures DEFAULT_CONFIG) bad_config "logging"%string
            (YNum 3) [("level"%string, YStr "INFO")] TypeError _ _ _ _).
  - repeat constructor. intros [].
  - left. reflexivity.
  - reflexivity.
  - reflexivity.
Defined.
